(** * GraphRAG memory layer of open-canvas: a shallow embedding

    The development follows the TypeScript sources:
    - [packages/shared/src/graphdb.ts]: the graph client with its three
      modes (module [GraphDb]), and the later client with
      [getGraphDBConfig] (module [GraphDbJs]);
    - [packages/shared/src/graphrag-write.ts]: the write path
      [writeToGraph] (module [WriteToGraph]), the Extractor
      [extractFromMessages] (module [Extractor]), the heuristic
      [detectSimpleContradiction] (module [Contradiction]) and the write
      path [extractAndWriteToGraph] (module [ExtractAndWrite]);
    - [packages/shared/src/graphrag-types.ts]: the record shapes;
    - [packages/shared/src/graphrag-format.ts]: the context formatter
      (module [GraphRagFormat]);
    - the read path [buildGraphContext] (module [GraphRagRead]) and
      [apps/agents/src/lib/graphrag-context.ts] (module [GraphRagContext]);
    - [packages/shared/src/graphrag-schema.ts]: the schema initialization
      (module [GraphRagSchema]).

    Conventions of the model.
    - JavaScript strings are Rocq strings whose characters are the UTF-16
      code units 0..255 (Latin-1); the regular expressions of the source
      are run by a backtracking matcher that follows the ECMAScript order
      of choices.
    - An asynchronous function is a function from the state of the world
      to a result, returned or thrown, and the next state of the world.
      The world holds the module globals, the environment variables, the
      store, the store clock behind [datetime()] (one tick per statement),
      the log of the statements sent, and three arbitrary oracles that
      tell which connection attempts get their driver object, which of
      them reach the store, and which statements fail.
    - The store is a property graph. Nodes are identified by their label
      and the value of the property that the statements of the source
      merge and match on; relationships are kept in a list, so duplicates
      count. Each Cypher statement of the source is one constructor of
      [Cypher.Stmt], and [Cypher.exec] gives its effect clause by clause:
      a [MERGE] creates what it does not find, and a [MATCH] that finds
      nothing ends the statement while the writes before it stay. A
      statement that the store refuses whatever the graph holds
      ([Cypher.refused]) throws like a failing one and writes nothing. *)

From Stdlib Require Import String Ascii List Bool Arith Lia QArith
  DecimalString.
From stdpp Require Import base strings gmap list.

Open Scope string_scope.
Open Scope nat_scope.

(* ================================================================== *)
(** * JavaScript string primitives *)
(* ================================================================== *)

Module Js.

Definition code (c : ascii) : nat := nat_of_ascii c.

Definition between (lo hi : nat) (c : ascii) : bool :=
  (lo <=? code c) && (code c <=? hi).

Definition isUpper (c : ascii) : bool := between 65 90 c.
Definition isLower (c : ascii) : bool := between 97 122 c.
Definition isDigit (c : ascii) : bool := between 48 57 c.

(** [\w] *)
Definition isWord (c : ascii) : bool :=
  isUpper c || isLower c || isDigit c || (code c =? 95).

(** [\s] : TAB, LF, VT, FF, CR, SP and NBSP are the white-space code
    units below 256. *)
Definition isSpace (c : ascii) : bool :=
  between 9 13 c || (code c =? 32) || (code c =? 160).

(** Line terminators, the complement of [.] *)
Definition isLineTerminator (c : ascii) : bool :=
  (code c =? 10) || (code c =? 13).

(** [String.prototype.toLowerCase] on one Latin-1 code unit. *)
Definition lowerChar (c : ascii) : ascii :=
  if isUpper c then ascii_of_nat (code c + 32)
  else if between 192 222 c && negb (code c =? 215)
       then ascii_of_nat (code c + 32)
       else c.

Fixpoint toLowerCase (s : string) : string :=
  match s with
  | EmptyString => EmptyString
  | String c r => String (lowerChar c) (toLowerCase r)
  end.

(** Canonicalisation of the [i] flag, restricted to what an ASCII
    literal can match. *)
Definition foldCase (c : ascii) : ascii :=
  if isUpper c then ascii_of_nat (code c + 32) else c.

Definition chars (s : string) : list ascii := list_ascii_of_string s.
Definition str (l : list ascii) : string := string_of_list_ascii l.

(** [s.slice(a, b)] for [0 <= a <= b]. *)
Definition slice (a b : nat) (s : string) : string :=
  str (firstn (b - a) (skipn a (chars s))).

Fixpoint dropSpaces (l : list ascii) : list ascii :=
  match l with
  | c :: r => if isSpace c then dropSpaces r else l
  | [] => []
  end.

(** [String.prototype.trim] *)
Definition trim (s : string) : string :=
  str (rev (dropSpaces (rev (dropSpaces (chars s))))).

(** [s.split(/\s+/)] : the pieces between maximal white-space runs; a
    leading or trailing run yields an empty first or last piece. *)
Fixpoint splitGo (cur : list ascii) (inWs : bool) (l : list ascii)
  : list string :=
  match l with
  | [] => [str (rev cur)]
  | c :: r =>
      if isSpace c
      then (if inWs then splitGo [] true r
            else str (rev cur) :: splitGo [] true r)
      else splitGo (c :: cur) false r
  end.

Definition splitWs (s : string) : list string := splitGo [] false (chars s).

(** [hay.includes(needle)] *)
Fixpoint includes (hay needle : string) : bool :=
  String.prefix needle hay
  || match hay with
     | EmptyString => false
     | String _ r => includes r needle
     end.

(** [arr.join(sep)] *)
Fixpoint join (sep : string) (l : list string) : string :=
  match l with
  | [] => ""
  | [x] => x
  | x :: r => x ++ sep ++ join sep r
  end.

(** JavaScript truthiness of a string: non-empty. *)
Definition truthy (s : string) : bool :=
  match s with EmptyString => false | _ => true end.

(** [process.env.X || dflt] *)
Definition orDefault (v : option string) (dflt : string) : string :=
  match v with
  | Some s => if truthy s then s else dflt
  | None => dflt
  end.

End Js.

(* ================================================================== *)
(** * A backtracking matcher for the regular expressions of the source *)
(* ================================================================== *)

Module Regex.

(** The fragment of ECMAScript patterns that the source uses. *)
Inductive re : Type :=
| Cls (p : ascii -> bool)      (* one code unit of a class *)
| Cat (a b : re)
| Alt (a b : re)               (* ordered choice *)
| Star (a : re)                (* greedy [*] *)
| StarLazy (a : re)            (* lazy [*?] *)
| Grp (a : re)                 (* capture group 1 *)
| Bnd                          (* [\b] *)
| Eos.                         (* [$] without the [m] flag *)

Definition Plus (a : re) : re := Cat a (Star a).
Definition PlusLazy (a : re) : re := Cat a (StarLazy a).

Record mstate : Type := MState { pos : nat; cap : option (nat * nat) }.

Definition wordAt (s : list ascii) (i : nat) : bool :=
  match nth_error s i with Some c => Js.isWord c | None => false end.

Definition atBoundary (s : list ascii) (i : nat) : bool :=
  xorb (match i with 0 => false | S j => wordAt s j end) (wordAt s i).

Definition orElse {A} (x y : option A) : option A :=
  match x with Some _ => x | None => y end.

(** Continuation-passing backtracking, in the order of the ECMAScript
    semantics: alternatives left to right, greedy iteration tries one
    more round first, lazy iteration tries the continuation first. An
    iteration that consumes nothing is rejected. *)
Fixpoint run (s : list ascii) (r : re)
         (k : mstate -> option mstate) (st : mstate) : option mstate :=
  match r with
  | Cls p =>
      match nth_error s (pos st) with
      | Some c => if p c then k (MState (S (pos st)) (cap st)) else None
      | None => None
      end
  | Cat a b => run s a (run s b k) st
  | Alt a b => orElse (run s a k st) (run s b k st)
  | Star a =>
      (fix loop (n : nat) (st : mstate) : option mstate :=
         match n with
         | 0 => k st
         | S n' =>
             orElse
               (run s a (fun st' => if pos st' <=? pos st then None
                                    else loop n' st') st)
               (k st)
         end) (length s) st
  | StarLazy a =>
      (fix loop (n : nat) (st : mstate) : option mstate :=
         match n with
         | 0 => k st
         | S n' =>
             orElse
               (k st)
               (run s a (fun st' => if pos st' <=? pos st then None
                                    else loop n' st') st)
         end) (length s) st
  | Grp a =>
      run s a (fun st' => k (MState (pos st') (Some (pos st, pos st')))) st
  | Bnd => if atBoundary s (pos st) then k st else None
  | Eos => if pos st =? length s then k st else None
  end.

(** One match: start, end and the span of group 1. *)
Record mres : Type := MRes { mstart : nat; mend : nat; mgrp : option (nat * nat) }.

Definition matchAt (s : list ascii) (r : re) (i : nat) : option mres :=
  match run s r Some (MState i None) with
  | Some st => Some (MRes i (pos st) (cap st))
  | None => None
  end.

(** [RegExpBuiltinExec]: the first start index at or after [lastIndex]
    where the pattern matches. *)
Fixpoint search (s : list ascii) (r : re) (n i : nat) : option mres :=
  match matchAt s r i with
  | Some m => Some m
  | None => match n with
            | 0 => None
            | S n' => search s r n' (S i)
            end
  end.

Definition exec (s : list ascii) (r : re) (lastIndex : nat) : option mres :=
  if length s <? lastIndex then None
  else search s r (length s - lastIndex) lastIndex.

(** [regex.test(s)] for a pattern without the [g] flag. *)
Definition test (r : re) (s : string) : bool :=
  match exec (Js.chars s) r 0 with Some _ => true | None => false end.

(** [while ((match = pattern.exec(content)) !== null) ...] for a pattern
    with the [g] flag: [lastIndex] moves to the end of each match. The
    patterns of the source never match the empty string, so [lastIndex]
    grows at every round and [S (length s)] rounds suffice. *)
Fixpoint execLoop (s : list ascii) (r : re) (fuel lastIndex : nat)
  : list mres :=
  match fuel with
  | 0 => []
  | S f =>
      match exec s r lastIndex with
      | None => []
      | Some m => m :: execLoop s r f (mend m)
      end
  end.

Definition execAll (r : re) (content : string) : list mres :=
  execLoop (Js.chars content) r (S (String.length content)) 0.

Definition sub (s : string) (a b : nat) : string := Js.slice a b s.

(** [match[0]] and [match[1]] *)
Definition whole (content : string) (m : mres) : string :=
  sub content (mstart m) (mend m).

Definition group1 (content : string) (m : mres) : string :=
  match mgrp m with
  | Some (a, b) => sub content a b
  | None => ""
  end.

(** Pattern builders. *)
Definition chr (c : ascii) : re := Cls (fun x => Ascii.eqb x c).
Definition chrI (c : ascii) : re :=
  Cls (fun x => Ascii.eqb (Js.foldCase x) (Js.foldCase c)).
Definition notChr (c : ascii) : re := Cls (fun x => negb (Ascii.eqb x c)).
Definition ws : re := Cls Js.isSpace.
Definition dot : re := Cls (fun x => negb (Js.isLineTerminator x)).

Fixpoint lit (mk : ascii -> re) (c : ascii) (s : string) : re :=
  match s with
  | EmptyString => mk c
  | String d r => Cat (mk c) (lit mk d r)
  end.

(** A non-empty literal, case sensitive or insensitive. *)
Definition word (mk : ascii -> re) (s : string) : re :=
  match s with
  | EmptyString => Star (Cls (fun _ => false))
  | String c r => lit mk c r
  end.

Fixpoint alts (l : list re) (last : re) : re :=
  match l with
  | [] => last
  | a :: r => Alt a (alts r last)
  end.

End Regex.

(* ================================================================== *)
(** * Record shapes of [graphrag-types.ts] *)
(* ================================================================== *)

Inductive Scope : Type := ScGlobal | ScProject | ScSession.

Inductive TemporalMarker : Type := TmCurrent | TmPast | TmFuture | TmNegated.

Definition scopeName (s : Scope) : string :=
  match s with
  | ScGlobal => "global" | ScProject => "project" | ScSession => "session"
  end.

Definition markerName (t : TemporalMarker) : string :=
  match t with
  | TmCurrent => "current" | TmPast => "past"
  | TmFuture => "future" | TmNegated => "negated"
  end.

Inductive EntityType : Type := EtConcept | EtStyleRule.

Record ExtractedEntity : Type := MkEntity {
  ent_name : string;
  ent_type : EntityType
}.

Record ExtractedRelation : Type := MkRelation {
  rel_source : string;
  rel_target : string;
  rel_type : string
}.

(** [ExtractedStyleRule] of [graphrag-types.ts]; [confidence] and [strict]
    are optional fields. *)
Record ExtractedStyleRule : Type := MkStyleRule {
  sr_rule : string;
  sr_scope : Scope;
  sr_temporalMarker : TemporalMarker;
  sr_confidence : option Q;
  sr_strict : option bool
}.

Record ExtractionResult : Type := MkExtraction {
  ex_entities : list ExtractedEntity;
  ex_relations : list ExtractedRelation;
  ex_styleRules : list ExtractedStyleRule;
  ex_rawSnippet : string
}.

Record Message : Type := MkMessage { role : string; content : string }.

(** [WriteToGraphParams]; [artifactContent] is never read by the write
    path and is left out. *)
Record WriteToGraphParams : Type := MkParams {
  p_userId : string;
  p_sessionId : string;
  p_artifactId : option string;
  p_messages : list Message
}.

(* ================================================================== *)
(** * The Extractor: [extractFromMessages] *)
(* ================================================================== *)

Module Extractor.
Import Regex.

Definition COMMON_WORDS : gset string :=
  list_to_set
    [ "the"; "this"; "that"; "with"; "from"; "have"; "been"; "will";
      "would"; "could"; "should"; "about"; "what"; "when"; "where";
      "which"; "there"; "their"; "here"; "just"; "also"; "then"; "than";
      "more"; "some"; "other"; "into"; "only"; "very"; "well"; "much";
      "each"; "every"; "both"; "after"; "before"; "between"; "through";
      "during"; "without"; "within"; "along"; "among"; "however";
      "although"; "because"; "since"; "while"; "please"; "thanks";
      "thank"; "hello"; "sure"; "okay"; "yes"; "not" ].

(** [COMMON_WORDS.has(w)] *)
Definition isCommon (w : string) : bool := bool_decide (w ∈ COMMON_WORDS).

(** The common tail [(.+?)(?:\.|$)] of the preference patterns. *)
Definition ruleTail : re :=
  Cat (Grp (PlusLazy dot)) (Alt (chr ".") Eos).

Definition wI (s : string) : re := word chrI s.

(** [/(?:I\s+(?:prefer|like|want|need)\s+)(.+?)(?:\.|$)/gi] *)
Definition prefPattern1 : re :=
  Cat (wI "I")
    (Cat (Plus ws)
       (Cat (alts [wI "prefer"; wI "like"; wI "want"] (wI "need"))
          (Cat (Plus ws) ruleTail))).

(** [/(?:(?:always|never)\s+)(.+?)(?:\.|$)/gi] *)
Definition prefPattern2 : re :=
  Cat (alts [wI "always"] (wI "never")) (Cat (Plus ws) ruleTail).

(** [/(?:(?:use|avoid|don't use|do not use)\s+)(.+?)(?:\.|$)/gi] *)
Definition prefPattern3 : re :=
  Cat (alts [wI "use"; wI "avoid"; wI "don't use"] (wI "do not use"))
    (Cat (Plus ws) ruleTail).

(** [/(?:(?:make it|keep it|write in)\s+)(.+?)(?:\.|$)/gi] *)
Definition prefPattern4 : re :=
  Cat (alts [wI "make it"; wI "keep it"] (wI "write in"))
    (Cat (Plus ws) ruleTail).

Definition preferencePatterns : list re :=
  [prefPattern1; prefPattern2; prefPattern3; prefPattern4].

(** [/\b(don't|never|avoid|stop|no longer|not anymore)\b/i] *)
Definition negationCue : re :=
  Cat Bnd
    (Cat (Grp (alts [wI "don't"; wI "never"; wI "avoid"; wI "stop";
                     wI "no longer"] (wI "not anymore")))
       Bnd).

(** [/\b(used to|previously|before)\b/i] *)
Definition pastCue : re :=
  Cat Bnd (Cat (Grp (alts [wI "used to"; wI "previously"] (wI "before"))) Bnd).

Definition capWord : re := Cat (Cls Js.isUpper) (Plus (Cls Js.isLower)).

(** Proper nouns: [\b], a captured run of capitalised words
    [[A-Z][a-z]+] separated by [\s+], and [\b]; flag [g]. *)
Definition properNouns : re :=
  Cat Bnd (Cat (Grp (Cat capWord (Star (Cat (Plus ws) capWord)))) Bnd).

Definition dquote : ascii := ascii_of_nat 34.
Definition backtick : ascii := ascii_of_nat 96.

(** Quoted terms: a quote [q], the captured span [[^q]+] and a closing
    [q], with flag [g]; once for the double quote and once for the back
    quote. *)
Definition delimited (q : ascii) : re :=
  Cat (chr q) (Cat (Grp (Plus (notChr q))) (chr q)).

Definition conceptPatterns : list re :=
  [properNouns; delimited dquote; delimited backtick].

(** The temporal marker assigned to a retained rule text. *)
Definition detectMarker (ruleText : string) : TemporalMarker :=
  if test negationCue ruleText then TmNegated
  else if test pastCue ruleText then TmPast
  else TmCurrent.

(** The body of the inner [while] loop over one preference match. *)
Definition ruleOfMatch (content : string) (m : mres)
  : list ExtractedStyleRule :=
  let ruleText := Js.trim (whole content m) in
  if (10 <? String.length ruleText) && (String.length ruleText <? 200)
  then [ MkStyleRule ruleText ScGlobal (detectMarker ruleText)
           (Some (7 # 10)%Q) None ]
  else [].

Definition rulesOfContent (content : string) : list ExtractedStyleRule :=
  flat_map (fun pattern =>
              flat_map (ruleOfMatch content) (execAll pattern content))
           preferencePatterns.

(** The body of the inner [while] loop over one concept match. *)
Definition entityOfMatch (content : string) (m : mres)
  : list ExtractedEntity :=
  let name := Js.trim (group1 content m) in
  if (2 <? String.length name) && (String.length name <? 100)
     && negb (isCommon (Js.toLowerCase name))
  then [ MkEntity (Js.toLowerCase name) EtConcept ]
  else [].

Definition entitiesOfContent (content : string) : list ExtractedEntity :=
  flat_map (fun pattern =>
              flat_map (entityOfMatch content) (execAll pattern content))
           conceptPatterns.

(** [role === "human" || role === "user"], the negation of the guard of
    the [continue]. *)
Definition isHumanRole (r : string) : bool :=
  String.eqb r "human" || String.eqb r "user".

(** [new Map] filled by [set(e.name, e)] and read back by [values()]:
    one entry per name, in the order of first insertion, holding the
    last value set. *)
Fixpoint mapSet (name : string) (e : ExtractedEntity)
         (m : list (string * ExtractedEntity)) : list (string * ExtractedEntity) :=
  match m with
  | [] => [(name, e)]
  | (k, v) :: r => if String.eqb k name then (k, e) :: r
                   else (k, v) :: mapSet name e r
  end.

Definition uniqueEntities (entities : list ExtractedEntity)
  : list ExtractedEntity :=
  map snd (fold_left (fun m e => mapSet (ent_name e) e m) entities []).

(** The accumulators of the outer loop. *)
Record acc : Type := MkAcc {
  a_entities : list ExtractedEntity;
  a_styleRules : list ExtractedStyleRule;
  a_snippets : list string
}.

Definition step (a : acc) (msg : Message) : acc :=
  if negb (isHumanRole (role msg)) then a
  else
    let c := content msg in
    MkAcc (a_entities a ++ entitiesOfContent c)
          (a_styleRules a ++ rulesOfContent c)
          (a_snippets a ++ [Js.slice 0 200 c]).

Definition extractFromMessages (params : WriteToGraphParams)
  : ExtractionResult :=
  let a := fold_left step (p_messages params) (MkAcc [] [] []) in
  MkExtraction (uniqueEntities (a_entities a))
               []
               (a_styleRules a)
               (Js.slice 0 500 (Js.join " | " (a_snippets a))).

End Extractor.

(* ================================================================== *)
(** * Heuristic contradiction detection: [detectSimpleContradiction] *)
(* ================================================================== *)

Module Contradiction.
Import Extractor.

(** [new Set(lower.split(/\s+/).filter(w => w.length > 3 &&
    !COMMON_WORDS.has(w)))] *)
Definition significantWords (lower : string) : gset string :=
  list_to_set
    (List.filter (fun w => (3 <? String.length w) && negb (isCommon w))
                 (Js.splitWs lower)).

Definition opposingPairs : list (string * string) :=
  [ ("formal", "casual");
    ("formal", "informal");
    ("verbose", "concise");
    ("detailed", "brief");
    ("simple", "complex");
    ("short", "long");
    ("technical", "simple");
    ("professional", "casual");
    ("serious", "humorous");
    ("passive", "active") ].

(** The [for (const [a, b] of opposingPairs)] loop with its early
    [return true]. *)
Fixpoint pairsLoop (lower1 lower2 : string) (pairs : list (string * string))
  : bool :=
  match pairs with
  | [] => false
  | (a, b) :: rest =>
      if (Js.includes lower1 a && Js.includes lower2 b)
         || (Js.includes lower1 b && Js.includes lower2 a)
      then true
      else pairsLoop lower1 lower2 rest
  end.

Definition detectSimpleContradiction
           (newRule existingRule newTemporalMarker : string) : bool :=
  let lower1 := Js.toLowerCase newRule in
  let lower2 := Js.toLowerCase existingRule in
  let negatedHit :=
    if String.eqb newTemporalMarker "negated" then
      let words1 := significantWords lower1 in
      let words2 := significantWords lower2 in
      let overlap :=
        List.filter (fun w => bool_decide (w ∈ words2)) (elements words1) in
      0 <? length overlap
    else false in
  if negatedHit then true
  else pairsLoop lower1 lower2 opposingPairs.

End Contradiction.

(* ================================================================== *)
(** * The property-graph store *)
(* ================================================================== *)

(** The store is the external Neo4j database.  Its model keeps what the
    statements of the source can observe: labelled nodes with properties,
    typed directed relationships with properties, and the clock behind
    [datetime()].  A node is identified by its label and the value of the
    property that every [MERGE] and [MATCH] of the source uses for that
    label (the schema declares these properties unique). *)

Module Store.

Inductive Label : Type :=
| LUser | LSession | LArtifact | LConcept | LStyleRule | LExtraction.

Inductive EdgeType : Type :=
| STARTED | CONTAINS | CREATED | MENTIONS | RELATED_TO | PREFERS
| CONTRADICTS | EXTRACTED_FROM | EXTRACTED_FROM_ARTIFACT | ASSERTED.

Inductive Value : Type :=
| VNull
| VStr (s : string)
| VBool (b : bool)
| VTime (t : nat)                        (* a value of [datetime()] *)
| VNum (q : Q)
| VMap (m : list (string * string)).     (* an opaque parameter map *)

#[global] Instance Label_eq_dec : EqDecision Label.
Proof. solve_decision. Defined.

Definition labelCode (l : Label) : nat :=
  match l with
  | LUser => 0 | LSession => 1 | LArtifact => 2
  | LConcept => 3 | LStyleRule => 4 | LExtraction => 5
  end.

Definition labelOfCode (n : nat) : Label :=
  match n with
  | 0 => LUser | 1 => LSession | 2 => LArtifact
  | 3 => LConcept | 4 => LStyleRule | _ => LExtraction
  end.

#[global] Instance Label_countable : Countable Label.
Proof.
  apply (inj_countable' labelCode labelOfCode). intros []; reflexivity.
Defined.

#[global] Instance EdgeType_eq_dec : EqDecision EdgeType.
Proof. solve_decision. Defined.

#[global] Instance Q_eq_dec : EqDecision Q.
Proof. solve_decision. Defined.

#[global] Instance Value_eq_dec : EqDecision Value.
Proof. solve_decision. Defined.

Abbreviation NodeRef := (Label * string)%type.
Abbreviation Props := (gmap string Value).

Record Edge : Type := MkEdge {
  e_type : EdgeType;
  e_src : NodeRef;
  e_dst : NodeRef;
  e_props : Props
}.

Record Graph : Type := MkGraph {
  nodes : gmap NodeRef Props;
  edges : list Edge
}.

Definition emptyGraph : Graph := MkGraph ∅ [].

(** [SET n.k = v]; setting a property to [null] removes it. *)
Definition setProp (ps : Props) (kv : string * Value) : Props :=
  match kv.2 with
  | VNull => delete kv.1 ps
  | v => <[kv.1 := v]> ps
  end.

Definition setProps (kvs : list (string * Value)) (ps : Props) : Props :=
  fold_left setProp kvs ps.

(** [MATCH (n:L {key: k})] *)
Definition matchNode (r : NodeRef) (g : Graph) : bool :=
  bool_decide (is_Some (nodes g !! r)).

(** [MERGE (n:L {key: k}) ON CREATE SET onCreate ON MATCH SET onMatch] *)
Definition mergeNode (r : NodeRef) (onCreate onMatch : list (string * Value))
           (g : Graph) : Graph :=
  match nodes g !! r with
  | Some ps => MkGraph (<[r := setProps onMatch ps]> (nodes g)) (edges g)
  | None => MkGraph (<[r := setProps onCreate ∅]> (nodes g)) (edges g)
  end.

(** [MATCH (n:L {key: k}) SET kvs] *)
Definition setNode (r : NodeRef) (kvs : list (string * Value)) (g : Graph)
  : Graph :=
  match nodes g !! r with
  | Some ps => MkGraph (<[r := setProps kvs ps]> (nodes g)) (edges g)
  | None => g
  end.

(** A relationship matches a pattern [-[:T {pat}]->] between two bound
    nodes when it has the type, the end points and every property of
    the pattern with the same value. *)
Definition edgeMatches (ty : EdgeType) (src dst : NodeRef)
           (pat : list (string * Value)) (e : Edge) : bool :=
  bool_decide (e_type e = ty) && bool_decide (e_src e = src)
  && bool_decide (e_dst e = dst)
  && forallb (fun kv => bool_decide (e_props e !! kv.1 = Some kv.2)) pat.

(** [MERGE (a)-[r:T {pat}]->(b) ON CREATE SET onCreate SET always] for
    bound [a] and [b]. *)
Definition mergeEdge (ty : EdgeType) (src dst : NodeRef)
           (pat onCreate always : list (string * Value)) (g : Graph)
  : Graph :=
  if existsb (edgeMatches ty src dst pat) (edges g)
  then MkGraph (nodes g)
         (map (fun e => if edgeMatches ty src dst pat e
                        then MkEdge (e_type e) (e_src e) (e_dst e)
                                    (setProps always (e_props e))
                        else e)
              (edges g))
  else MkGraph (nodes g)
         (edges g ++ [MkEdge ty src dst
                        (setProps (pat ++ onCreate ++ always) ∅)]).

(** Reading a property of a node, [null] when the node or the property
    is missing. *)
Definition prop (g : Graph) (r : NodeRef) (k : string) : Value :=
  match nodes g !! r with
  | Some ps => default VNull (ps !! k)
  | None => VNull
  end.

Definition countNodes (l : Label) (g : Graph) : nat :=
  length (List.filter (fun r => bool_decide (r.1 = l))
                      (elements (dom (nodes g)))).

Definition edgesOfType (ty : EdgeType) (g : Graph) : list Edge :=
  List.filter (fun e => bool_decide (e_type e = ty)) (edges g).

Definition countEdges (ty : EdgeType) (g : Graph) : nat :=
  length (edgesOfType ty g).

End Store.

(* ================================================================== *)
(** * The Cypher statements of the source and their effect *)
(* ================================================================== *)

Inductive Method : Type := MRule | MLlm | MHybrid.

Definition methodName (m : Method) : string :=
  match m with MRule => "rule" | MLlm => "llm" | MHybrid => "hybrid" end.

(** [ExtractionRecord] of [graphdb.ts]; [sourceSpan] is never written. *)
Record ExtractionRecord : Type := MkExtractionRecord {
  extractionId : string;
  createdAt : string;
  method : Method;
  model : option string;
  rawSnippet : option string
}.

Module Cypher.
Import Store.

(** One constructor per statement text of the source, carrying the
    statement's parameters. *)
Inductive Stmt : Type :=
(* first listing of graphrag-write.ts: the helpers of writeToGraph *)
| CreateExtractionNode (ex : ExtractionRecord) (sessionId artifactId : option string)
| UpsertConcept (name extractionId : string)
| UpsertRelation (subject predicate object : string)
                 (properties : list (string * string)) (extractionId : string)
| ContradictionCheck (userId category scope ruleId : string)
| UpsertStyleRule (ruleId category content scope temporalMarker
                   userId extractionId : string)
| RecordContradiction (newRuleId existingId extractionId : string)
(* second listing: extractAndWriteToGraph and its helpers *)
| MergeUser (userId : string)
| MergeSession (sessionId userId : string)
| MergeArtifact (artifactId sessionId userId : string)
| MergeExtraction (extractionId rawSnippet : string)
| LinkSession (extractionId sessionId : string)
| LinkArtifact (extractionId artifactId : string)
| MergeConcept (name extractionId : string)
| LinkMention (artifactId name : string)
| MergeRelation (source target type extractionId : string)
| FindActiveRules (userId scope : string)
| MergeContradicts (newRuleId oldRuleId reason extractionId strategy : string)
| MarkPending (newRuleId : string)
| Deactivate (oldRuleId : string)
| InsertRule (ruleId rule scope temporalMarker : string) (confidence : Q)
             (strict : bool) (userId extractionId : string)
(* ensureGraphSchema: constraint and index creation, no effect on data *)
| Schema (text : string)
(* any other statement without effect on the data *)
| Other (text : string).

(** [$x || null] for an optional string parameter. *)
Definition orNull (v : option string) : Value :=
  match v with
  | Some s => if Js.truthy s then VStr s else VNull
  | None => VNull
  end.

(** Continue with the rest of the statement only when the [MATCH] found
    its node: a [MATCH] without result leaves no row for the clauses
    behind it, while the writes before it stay. *)
Definition whenMatch (r : NodeRef) (rest : Graph -> Graph) (g : Graph) : Graph :=
  if matchNode r g then rest g else g.

Definition isStr (v : Value) (s : string) : bool := bool_decide (v = VStr s).

(** The rows of [contradictionCheck], in the order of the stored
    [PREFERS] relationships, before the [LIMIT]. *)
Definition contradictionCandidates (userId category scope ruleId : string)
           (g : Graph) : list Props :=
  flat_map
    (fun e =>
       let r := e_dst e in
       if bool_decide (e_type e = PREFERS)
          && bool_decide (e_src e = (LUser, userId))
          && bool_decide (r.1 = LStyleRule)
          && matchNode r g
          && isStr (prop g r "category") category
          && isStr (prop g r "scope") scope
          && isStr (prop g r "temporalMarker") "current"
          && negb (String.eqb r.2 ruleId)
       then [ {[ "existingId" := VStr r.2;
                 "existingContent" := prop g r "content" ]} ]
       else [])
    (edges g).

(** The rows of the query of [detectAndRecordContradictions]. *)
Definition activeRules (userId scope : string) (g : Graph) : list Props :=
  flat_map
    (fun e =>
       let r := e_dst e in
       if bool_decide (e_type e = PREFERS)
          && bool_decide (e_src e = (LUser, userId))
          && bool_decide (r.1 = LStyleRule)
          && matchNode r g
          && isStr (prop g r "scope") scope
          && bool_decide (prop g r "active" = VBool true)
       then [ {[ "ruleId" := VStr r.2;
                 "rule" := prop g r "rule";
                 "strict" := prop g r "strict";
                 "temporalMarker" := prop g r "temporalMarker" ]} ]
       else [])
    (edges g).

(** A statement that the store refuses whatever the graph holds. The
    statement of [upsertRelation] ends in [SET r.properties = $properties]
    with the parameter [triple.properties || {}], always a map, and a map
    is no property value: the store raises an error, and nothing that the
    statement merged before it is kept. *)
Definition refused (s : Stmt) : bool :=
  match s with
  | UpsertRelation _ _ _ _ _ => true
  | _ => false
  end.

(** The effect of one statement on the graph at store time [now], and
    the rows it returns; a refused statement has no effect. *)
Definition exec (s : Stmt) (now : nat) (g : Graph) : Graph * list Props :=
  let t := VTime now in
  match s with
  | CreateExtractionNode ex sessionId artifactId =>
      let e := (LExtraction, extractionId ex) in
      let g1 := mergeNode e
                  [ ("createdAt", VStr (createdAt ex));
                    ("method", VStr (methodName (method ex)));
                    ("model", orNull (model ex));
                    ("rawSnippet", orNull (rawSnippet ex)) ] [] g in
      let g2 := match sessionId with
                | Some sid =>
                    mergeEdge EXTRACTED_FROM e (LSession, sid) [] [] []
                      (mergeNode (LSession, sid) [] [] g1)
                | None => g1
                end in
      let g3 := match artifactId with
                | Some aid =>
                    mergeEdge EXTRACTED_FROM_ARTIFACT e (LArtifact, aid) [] [] []
                      (mergeNode (LArtifact, aid) [] [] g2)
                | None => g2
                end in
      (g3, [])
  | UpsertConcept name exId =>
      let c := (LConcept, name) in
      let g1 := mergeNode c [("createdAt", t); ("updatedAt", t)]
                            [("updatedAt", t)] g in
      (whenMatch (LExtraction, exId)
         (mergeEdge CREATED (LExtraction, exId) c [] [] []) g1, [])
  | UpsertRelation _ _ _ _ _ => (g, [])
  | ContradictionCheck userId category scope ruleId =>
      (g, take 5 (contradictionCandidates userId category scope ruleId g))
  | UpsertStyleRule ruleId category content scope temporalMarker userId exId =>
      let r := (LStyleRule, ruleId) in
      let g1 := mergeNode r
                  [ ("category", VStr category); ("content", VStr content);
                    ("scope", VStr scope);
                    ("temporalMarker", VStr temporalMarker);
                    ("since", t); ("createdAt", t) ]
                  [ ("content", VStr content);
                    ("temporalMarker", VStr temporalMarker);
                    ("updatedAt", t) ] g in
      (whenMatch (LUser, userId)
         (fun g =>
            whenMatch (LExtraction, exId)
              (mergeEdge CREATED (LExtraction, exId) r [] [] [])
              (mergeEdge PREFERS (LUser, userId) r
                 [ ("since", t); ("scope", VStr scope);
                   ("temporalMarker", VStr temporalMarker) ] [] [] g))
         g1, [])
  | RecordContradiction newRuleId existingId exId =>
      (whenMatch (LStyleRule, newRuleId)
         (whenMatch (LStyleRule, existingId)
            (mergeEdge CONTRADICTS (LStyleRule, newRuleId) (LStyleRule, existingId)
               [ ("reason", VStr "Same category and scope, newer rule");
                 ("createdAt", t); ("extractionId", VStr exId) ] [] []))
         g, [])
  | MergeUser userId => (mergeNode (LUser, userId) [] [] g, [])
  | MergeSession sessionId userId =>
      let s := (LSession, sessionId) in
      let g1 := mergeNode s [("updatedAt", t)] [("updatedAt", t)] g in
      (whenMatch (LUser, userId)
         (mergeEdge STARTED (LUser, userId) s [] [] []) g1, [])
  | MergeArtifact artifactId sessionId userId =>
      let a := (LArtifact, artifactId) in
      let g1 := mergeNode a [("updatedAt", t)] [("updatedAt", t)] g in
      (whenMatch (LSession, sessionId)
         (fun g =>
            whenMatch (LUser, userId)
              (mergeEdge CREATED (LUser, userId) a [] [] [])
              (mergeEdge CONTAINS (LSession, sessionId) a [] [] [] g))
         g1, [])
  | MergeExtraction exId snippet =>
      let kvs := [ ("createdAt", t); ("method", VStr "rule");
                   ("rawSnippet", VStr snippet) ] in
      (mergeNode (LExtraction, exId) kvs kvs g, [])
  | LinkSession exId sessionId =>
      (whenMatch (LExtraction, exId)
         (whenMatch (LSession, sessionId)
            (mergeEdge EXTRACTED_FROM (LExtraction, exId) (LSession, sessionId)
               [] [] []))
         g, [])
  | LinkArtifact exId artifactId =>
      (whenMatch (LExtraction, exId)
         (fun g =>
            mergeEdge EXTRACTED_FROM_ARTIFACT (LExtraction, exId)
              (LArtifact, artifactId) [] [] []
              (mergeNode (LArtifact, artifactId) [] [] g))
         g, [])
  | MergeConcept name exId =>
      let c := (LConcept, name) in
      let g1 := mergeNode c [("updatedAt", t)] [("updatedAt", t)] g in
      (whenMatch (LExtraction, exId)
         (mergeEdge CREATED (LExtraction, exId) c [] [] []) g1, [])
  | LinkMention artifactId name =>
      (whenMatch (LArtifact, artifactId)
         (whenMatch (LConcept, name)
            (mergeEdge MENTIONS (LArtifact, artifactId) (LConcept, name)
               [] [] []))
         g, [])
  | MergeRelation source target type exId =>
      let s := (LConcept, source) in
      let o := (LConcept, target) in
      let g2 := mergeNode o [] [] (mergeNode s [] [] g) in
      (mergeEdge RELATED_TO s o [] []
         [("type", VStr type); ("extractionId", VStr exId)] g2, [])
  | FindActiveRules userId scope => (g, activeRules userId scope g)
  | MergeContradicts newRuleId oldRuleId reason exId strategy =>
      (whenMatch (LStyleRule, newRuleId)
         (whenMatch (LStyleRule, oldRuleId)
            (mergeEdge CONTRADICTS (LStyleRule, newRuleId) (LStyleRule, oldRuleId)
               [ ("reason", VStr reason); ("createdAt", t);
                 ("extractionId", VStr exId); ("strategy", VStr strategy) ]
               [] []))
         g, [])
  | MarkPending newRuleId =>
      (setNode (LStyleRule, newRuleId)
         [("active", VBool false); ("pendingConfirmation", VBool true)] g, [])
  | Deactivate oldRuleId =>
      (setNode (LStyleRule, oldRuleId)
         [("active", VBool false); ("temporalMarker", VStr "past")] g, [])
  | InsertRule ruleId rule scope temporalMarker confidence strict userId exId =>
      let r := (LStyleRule, ruleId) in
      let kvs := [ ("rule", VStr rule); ("scope", VStr scope);
                   ("temporalMarker", VStr temporalMarker); ("since", t);
                   ("active", VBool true); ("confidence", VNum confidence);
                   ("strict", VBool strict) ] in
      let g1 := mergeNode r kvs kvs g in
      (whenMatch (LUser, userId)
         (fun g =>
            whenMatch (LExtraction, exId)
              (mergeEdge CREATED (LExtraction, exId) r [] [] [])
              (mergeEdge PREFERS (LUser, userId) r
                 [ ("since", t); ("scope", VStr scope);
                   ("temporalMarker", VStr temporalMarker) ] [] [] g))
         g1, [])
  | Schema _ => (g, [])
  | Other _ => (g, [])
  end.

End Cypher.

(* ================================================================== *)
(** * The process: globals, environment, store, and the effect monad *)
(* ================================================================== *)

Inductive GraphRAGMode : Type := OFF | OPTIONAL | REQUIRED.

#[global] Instance GraphRAGMode_eq_dec : EqDecision GraphRAGMode.
Proof. solve_decision. Defined.

(** Thrown values. *)
Inductive Err : Type :=
| DriverError (attempt : nat)           (* import or driver(...) threw *)
| ConnectionError (attempt : nat)       (* verifyConnectivity rejected *)
| QueryError (index : nat)              (* session.run rejected *)
| TypeError                             (* a method called on null *)
| Wrapped (prefix : string) (cause : Err).  (* new Error(prefix + cause) *)

(** [GraphDBConfig]; the connection settings and limits that no modelled
    function reads are left out. *)
Record GraphDBConfig : Type := MkConfig {
  cfg_mode : string;
  cfg_contradictionStrategy : string
}.

(** The state of the process and of the store.  [constructs n] tells
    whether the [n]-th connection attempt gets its driver object (the
    import of the driver module and the call of [driver(...)] succeed),
    [reachable n] whether [verifyConnectivity()] then succeeds, and
    [failing n] whether the [n]-th statement sent to the store is rejected
    (by a time-out, a lost connection or a query error); the three are
    arbitrary. *)
Record World : Type := MkWorld {
  env_GRAPHRAG_MODE : option string;
  env_GRAPHRAG_CONTRADICTION_STRATEGY : option string;
  reachable : nat -> bool;
  failing : nat -> bool;
  _driver : bool;                 (* whether [_driver] is non-null *)
  _driverInitAttempted : bool;
  _config : option GraphDBConfig;
  _schemaInitialized : bool;
  attempts : nat;                 (* connection attempts made so far *)
  sent : list Cypher.Stmt;        (* statements sent to the store *)
  graph : Store.Graph;
  now : nat;                      (* the store clock *)
  uuids : nat;                    (* calls of randomUUID so far *)
  constructs : nat -> bool
}.

Inductive Res (A : Type) : Type :=
| Ok (a : A)
| Throw (e : Err).
Arguments Ok {A} a.
Arguments Throw {A} e.

(** An asynchronous function returning [A]. *)
Definition M (A : Type) : Type := World -> Res A * World.

Definition ret {A} (a : A) : M A := fun w => (Ok a, w).

Definition throw {A} (e : Err) : M A := fun w => (Throw e, w).

Definition bind {A B} (m : M A) (k : A -> M B) : M B :=
  fun w => match m w with
           | (Ok a, w') => k a w'
           | (Throw e, w') => (Throw e, w')
           end.

(** [try { m } catch (e) { h e }] *)
Definition tryCatch {A} (m : M A) (h : Err -> M A) : M A :=
  fun w => match m w with
           | (Ok a, w') => (Ok a, w')
           | (Throw e, w') => h e w'
           end.

Notation "'let*' x ':=' m 'in' k" := (bind m (fun x => k))
  (at level 10, x name, m at level 100, k at level 200).
Notation "m ';;' k" := (bind m (fun _ => k))
  (at level 100, k at level 200, right associativity).

Definition get : M World := fun w => (Ok w, w).
Definition modify (f : World -> World) : M unit := fun w => (Ok tt, f w).

(** [for (const x of l) { await body(x) }] *)
Fixpoint forEach {A} (l : list A) (body : A -> M unit) : M unit :=
  match l with
  | [] => ret tt
  | x :: r => body x ;; forEach r body
  end.

Definition setDriver (d : bool) (w : World) : World :=
  MkWorld (env_GRAPHRAG_MODE w) (env_GRAPHRAG_CONTRADICTION_STRATEGY w)
          (reachable w) (failing w) d (_driverInitAttempted w) (_config w)
          (_schemaInitialized w) (attempts w) (sent w) (graph w) (now w)
          (uuids w) (constructs w).

Definition setDriverInitAttempted (b : bool) (w : World) : World :=
  MkWorld (env_GRAPHRAG_MODE w) (env_GRAPHRAG_CONTRADICTION_STRATEGY w)
          (reachable w) (failing w) (_driver w) b (_config w)
          (_schemaInitialized w) (attempts w) (sent w) (graph w) (now w)
          (uuids w) (constructs w).

Definition setConfig (c : option GraphDBConfig) (w : World) : World :=
  MkWorld (env_GRAPHRAG_MODE w) (env_GRAPHRAG_CONTRADICTION_STRATEGY w)
          (reachable w) (failing w) (_driver w) (_driverInitAttempted w) c
          (_schemaInitialized w) (attempts w) (sent w) (graph w) (now w)
          (uuids w) (constructs w).

Definition setSchemaInitialized (b : bool) (w : World) : World :=
  MkWorld (env_GRAPHRAG_MODE w) (env_GRAPHRAG_CONTRADICTION_STRATEGY w)
          (reachable w) (failing w) (_driver w) (_driverInitAttempted w)
          (_config w) b (attempts w) (sent w) (graph w) (now w) (uuids w)
          (constructs w).

(** [await import("neo4j-driver")], the assignment
    [_driver = neo4j.driver(...)] and [await _driver.verifyConnectivity()]:
    one connection attempt. When the import or the construction throws,
    [_driver] is not assigned; when the verification throws, the driver
    object stays in [_driver]. *)
Definition connect : M unit :=
  fun w =>
    let n := attempts w in
    let next d := MkWorld (env_GRAPHRAG_MODE w)
                    (env_GRAPHRAG_CONTRADICTION_STRATEGY w) (reachable w)
                    (failing w) d (_driverInitAttempted w) (_config w)
                    (_schemaInitialized w) (S n) (sent w) (graph w) (now w)
                    (uuids w) (constructs w) in
    if negb (constructs w n) then (Throw (DriverError n), next (_driver w))
    else if reachable w n then (Ok tt, next true)
         else (Throw (ConnectionError n), next true).

(** [await session.run(cypher, params, {timeout})]: the statement is sent;
    when the store rejects it, by a failure of its own or because it
    refuses the statement, nothing is written. *)
Definition sessionRun (s : Cypher.Stmt) : M (list Store.Props) :=
  fun w =>
    let n := length (sent w) in
    let upd g := MkWorld (env_GRAPHRAG_MODE w)
                   (env_GRAPHRAG_CONTRADICTION_STRATEGY w) (reachable w)
                   (failing w) (_driver w) (_driverInitAttempted w)
                   (_config w) (_schemaInitialized w) (attempts w)
                   (sent w ++ [s]) g (S (now w)) (uuids w)
                   (constructs w) in
    if failing w n || Cypher.refused s
    then (Throw (QueryError n), upd (graph w))
    else let '(g', rows) := Cypher.exec s (now w) (graph w) in
         (Ok rows, upd g').

(** [randomUUID()]: a value never returned before. *)
Definition uuidOf (n : nat) : string :=
  "uuid-" ++ Js.str (repeat "x"%char n).

Definition randomUUID : M string :=
  fun w =>
    (Ok (uuidOf (uuids w)),
     MkWorld (env_GRAPHRAG_MODE w) (env_GRAPHRAG_CONTRADICTION_STRATEGY w)
             (reachable w) (failing w) (_driver w) (_driverInitAttempted w)
             (_config w) (_schemaInitialized w) (attempts w) (sent w)
             (graph w) (now w) (S (uuids w)) (constructs w)).

(** [row.k] read as a string. *)
Definition rowString (row : Store.Props) (k : string) : option string :=
  match row !! k with
  | Some (Store.VStr s) => Some s
  | _ => None
  end.

(* ================================================================== *)
(** * The graph client of [graphdb.ts] *)
(* ================================================================== *)

Module GraphDb.

Definition upperChar (c : ascii) : ascii :=
  if Js.isLower c then ascii_of_nat (Js.code c - 32)
  else if Js.between 224 254 c && negb (Js.code c =? 247)
       then ascii_of_nat (Js.code c - 32)
       else c.

(** [toUpperCase], exact on every string whose result is compared with
    the ASCII mode names. *)
Fixpoint toUpperCase (s : string) : string :=
  match s with
  | EmptyString => EmptyString
  | String c r => String (upperChar c) (toUpperCase r)
  end.

Definition getGraphRAGMode (w : World) : GraphRAGMode :=
  let mode := toUpperCase (Js.orDefault (env_GRAPHRAG_MODE w) "OFF") in
  if String.eqb mode "OPTIONAL" then OPTIONAL
  else if String.eqb mode "REQUIRED" then REQUIRED
  else OFF.

(** Returns whether the driver handed back is non-null. *)
Definition getDriver : M bool :=
  let* w := get in
  let mode := getGraphRAGMode w in
  if bool_decide (mode = OFF) then ret false
  else if _driverInitAttempted w then ret (_driver w)
  else
    modify (setDriverInitAttempted true) ;;
    tryCatch
      (connect ;; ret true)
      (fun error =>
         modify (setDriver false) ;;
         if bool_decide (mode = REQUIRED)
         then throw (Wrapped "[GraphRAG] REQUIRED mode: Neo4j connection failed" error)
         else ret false).

(** The common body of [runQuery] and [runWriteQuery]; [None] is the
    [null] result. The session is closed on both exits. *)
Definition runWith (prefix : string) (cypher : Cypher.Stmt)
  : M (option (list Store.Props)) :=
  let* driver := getDriver in
  if negb driver then ret None
  else
    let* w := get in
    let mode := getGraphRAGMode w in
    tryCatch
      (let* records := sessionRun cypher in ret (Some records))
      (fun error =>
         if bool_decide (mode = REQUIRED)
         then throw (Wrapped prefix error)
         else ret None).

Definition runQuery (cypher : Cypher.Stmt) : M (option (list Store.Props)) :=
  runWith "[GraphRAG] Query failed" cypher.

Definition runWriteQuery (cypher : Cypher.Stmt) : M (option (list Store.Props)) :=
  runWith "[GraphRAG] Write query failed" cypher.

Definition closeDriver : M unit :=
  let* w := get in
  if _driver w
  then modify (setDriver false) ;; modify (setDriverInitAttempted false)
  else ret tt.

End GraphDb.

(* ================================================================== *)
(** * The write path [writeToGraph] (first listing of graphrag-write.ts) *)
(* ================================================================== *)

Module WriteToGraph.
Import Store Cypher GraphDb.

Record ExtractedTriple : Type := MkTriple {
  subject : string;
  predicate : string;
  object : string;
  properties : option (list (string * string))
}.

Record ExtractedStyleRule : Type := MkRule {
  id : string;
  category : string;
  content : string;
  scope : Scope;
  temporalMarker : TemporalMarker
}.

Record WritePathInput : Type := MkInput {
  userId : string;
  sessionId : option string;
  artifactId : option string;
  entities : list string;
  triples : list ExtractedTriple;
  styleRules : list ExtractedStyleRule;
  extraction : ExtractionRecord
}.

(** [if (x)] on an optional string keeps it only when it is non-empty. *)
Definition present (x : option string) : option string :=
  match x with
  | Some s => if Js.truthy s then Some s else None
  | None => None
  end.

Definition createExtractionNode (ex : ExtractionRecord)
           (sessionId artifactId : option string) : M unit :=
  runWriteQuery (CreateExtractionNode ex (present sessionId) (present artifactId)) ;;
  ret tt.

Definition upsertConcept (name extractionId : string) : M unit :=
  runWriteQuery (UpsertConcept (Js.toLowerCase name) extractionId) ;; ret tt.

Definition upsertRelation (triple : ExtractedTriple) (extractionId : string)
  : M unit :=
  runWriteQuery
    (UpsertRelation (Js.toLowerCase (subject triple)) (predicate triple)
                    (Js.toLowerCase (object triple))
                    (default [] (properties triple)) extractionId) ;;
  ret tt.

Definition upsertStyleRule (userId : string) (rule : ExtractedStyleRule)
           (extractionId : string) : M unit :=
  let* existingRules :=
    runWriteQuery (ContradictionCheck userId (category rule)
                     (scopeName (scope rule)) (id rule)) in
  runWriteQuery
    (UpsertStyleRule (id rule) (category rule) (content rule)
       (scopeName (scope rule)) (markerName (temporalMarker rule))
       userId extractionId) ;;
  match existingRules with
  | Some rows =>
      forEach rows
        (fun existing =>
           runWriteQuery
             (RecordContradiction (id rule)
                (default "" (rowString existing "existingId")) extractionId) ;;
           ret tt)
  | None => ret tt
  end.

Definition writeToGraph (input : WritePathInput) : M bool :=
  let* w := get in
  let mode := getGraphRAGMode w in
  if bool_decide (mode = OFF) then ret false
  else
    tryCatch
      (let ex := extraction input in
       createExtractionNode ex (sessionId input) (artifactId input) ;;
       forEach (entities input)
         (fun entity => upsertConcept entity (extractionId ex)) ;;
       forEach (triples input)
         (fun triple => upsertRelation triple (extractionId ex)) ;;
       forEach (styleRules input)
         (fun rule => upsertStyleRule (userId input) rule (extractionId ex)) ;;
       ret true)
      (fun error =>
         if bool_decide (mode = REQUIRED)
         then throw (Wrapped "[GraphRAG] Write path failed" error)
         else ret false).

End WriteToGraph.

(* ================================================================== *)
(** * The graph client with [getGraphDBConfig] (graphdb.js) *)
(* ================================================================== *)

Module GraphDbJs.
Import Store Cypher.

(** [(process.env.GRAPHRAG_MODE as GraphRAGMode) || "OFF"]: the raw
    value of the variable. *)
Definition getGraphRAGMode (w : World) : string :=
  Js.orDefault (env_GRAPHRAG_MODE w) "OFF".

Definition getGraphDBConfig (w : World) : GraphDBConfig :=
  MkConfig (getGraphRAGMode w)
           (Js.orDefault (env_GRAPHRAG_CONTRADICTION_STRATEGY w)
                         "most-recent-wins").

Definition constraintQueries : list string :=
  [ "CREATE CONSTRAINT user_id IF NOT EXISTS FOR (u:User) REQUIRE u.userId IS UNIQUE";
    "CREATE CONSTRAINT session_id IF NOT EXISTS FOR (s:Session) REQUIRE s.sessionId IS UNIQUE";
    "CREATE CONSTRAINT concept_name IF NOT EXISTS FOR (c:Concept) REQUIRE c.name IS UNIQUE";
    "CREATE CONSTRAINT extraction_id IF NOT EXISTS FOR (e:Extraction) REQUIRE e.extractionId IS UNIQUE";
    "CREATE CONSTRAINT stylerule_id IF NOT EXISTS FOR (sr:StyleRule) REQUIRE sr.ruleId IS UNIQUE" ].

Definition indexQueries : list string :=
  [ "CREATE INDEX concept_name_idx IF NOT EXISTS FOR (c:Concept) ON (c.name)";
    "CREATE INDEX stylerule_scope_idx IF NOT EXISTS FOR (sr:StyleRule) ON (sr.scope, sr.active)";
    "CREATE INDEX extraction_created_idx IF NOT EXISTS FOR (e:Extraction) ON (e.createdAt)" ].

(** [runQuery] over a given way of obtaining the driver. A failure is
    rethrown as it is in REQUIRED mode. *)
Definition runQueryVia (getDriver : M bool) (cypher : Stmt)
  : M (option (list Props)) :=
  let* driver := getDriver in
  if negb driver then ret None
  else
    let* w := get in
    let config := default (getGraphDBConfig w) (_config w) in
    tryCatch
      (let* result := sessionRun cypher in ret (Some result))
      (fun err =>
         if String.eqb (cfg_mode config) "REQUIRED" then throw err
         else ret None).

(** The call of [getDriver] that [runQuery] makes inside
    [ensureGraphSchema]: it happens while the outer [getDriver] is still
    running, after [_driver] has been assigned, and leaves at the first or
    the second [return]. *)
Definition getDriverNested : M bool :=
  let* w := get in
  if String.eqb (getGraphRAGMode w) "OFF" then ret false
  else ret (_driver w).

Definition ensureGraphSchema : M unit :=
  forEach (constraintQueries ++ indexQueries)
    (fun q => runQueryVia getDriverNested (Schema q) ;; ret tt).

Definition getDriver : M bool :=
  let* w := get in
  let mode := getGraphRAGMode w in
  if String.eqb mode "OFF" then ret false
  else if _driver w then ret true
  else
    tryCatch
      (let config := getGraphDBConfig w in
       connect ;;
       modify (setConfig (Some config)) ;;
       let* w1 := get in
       (if negb (_schemaInitialized w1)
        then ensureGraphSchema ;; modify (setSchemaInitialized true)
        else ret tt) ;;
       ret true)
      (fun err =>
         if String.eqb mode "REQUIRED"
         then throw (Wrapped "Neo4j connection failed in REQUIRED mode" err)
         else ret false).

Definition runQuery (cypher : Stmt) : M (option (list Props)) :=
  runQueryVia getDriver cypher.

Definition closeDriver : M unit :=
  let* w := get in
  if _driver w
  then modify (setDriver false) ;; modify (setConfig None) ;;
       modify (setSchemaInitialized false)
  else ret tt.

End GraphDbJs.

(* ================================================================== *)
(** * The write path [extractAndWriteToGraph] (second listing) *)
(* ================================================================== *)

Module ExtractAndWrite.
Import Store Cypher GraphDbJs Extractor Contradiction.

(** JavaScript truthiness of a value read from a row. *)
Definition truthyValue (v : option Value) : bool :=
  match v with
  | Some (VBool b) => b
  | Some (VStr s) => Js.truthy s
  | Some (VTime _) => true
  | Some (VNum q) => negb (Qeq_bool q 0)
  | Some (VMap _) => true
  | Some VNull => false
  | None => false
  end.

Definition quoted (s : string) : string :=
  String dquote (s ++ String dquote "").

Definition reasonText (newRule existingRule : string) : string :=
  "New rule " ++ quoted newRule ++ " contradicts existing " ++ quoted existingRule.

(** The body of the loop over the records of the existing active rules. *)
Definition checkRecord (newRuleId : string) (newRule : ExtractedStyleRule)
           (extractionId strategy : string) (record : Props) : M unit :=
  match rowString record "rule" with
  | None => throw TypeError        (* existingRule.toLowerCase() on null *)
  | Some existingRule =>
      let existingRuleId := default "" (rowString record "ruleId") in
      let existingStrict := truthyValue (record !! "strict") in
      let isContradiction :=
        detectSimpleContradiction (sr_rule newRule) existingRule
          (markerName (sr_temporalMarker newRule)) in
      if isContradiction then
        runQuery (MergeContradicts newRuleId existingRuleId
                    (reasonText (sr_rule newRule) existingRule)
                    extractionId strategy) ;;
        if existingStrict && negb (String.eqb strategy "user-confirmation")
        then runQuery (MarkPending newRuleId) ;; ret tt
        else if String.eqb strategy "most-recent-wins"
             then runQuery (Deactivate existingRuleId) ;; ret tt
             else ret tt
      else ret tt
  end.

Definition detectAndRecordContradictions
           (userId newRuleId : string) (newRule : ExtractedStyleRule)
           (extractionId strategy : string) : M unit :=
  let* result :=
    runQuery (FindActiveRules userId (scopeName (sr_scope newRule))) in
  match result with
  | None => ret tt
  | Some records =>
      forEach records (checkRecord newRuleId newRule extractionId strategy)
  end.

(** The body of the loop over [extraction.styleRules]. *)
Definition writeRule (params : WriteToGraphParams) (extractionId : string)
           (config : GraphDBConfig) (rule : ExtractedStyleRule) : M unit :=
  let* ruleId := randomUUID in
  detectAndRecordContradictions (p_userId params) ruleId rule extractionId
    (cfg_contradictionStrategy config) ;;
  runQuery
    (InsertRule ruleId (sr_rule rule) (scopeName (sr_scope rule))
       (markerName (sr_temporalMarker rule))
       (default (1 # 2)%Q (sr_confidence rule))
       (default false (sr_strict rule))
       (p_userId params) extractionId) ;;
  ret tt.

Definition writeExtractionToGraph (params : WriteToGraphParams)
           (extraction : ExtractionResult) : M unit :=
  let* extractionId := randomUUID in
  runQuery (MergeExtraction extractionId
              (Js.slice 0 500 (ex_rawSnippet extraction))) ;;
  runQuery (LinkSession extractionId (p_sessionId params)) ;;
  (match WriteToGraph.present (p_artifactId params) with
   | Some artifactId => runQuery (LinkArtifact extractionId artifactId) ;; ret tt
   | None => ret tt
   end) ;;
  forEach (ex_entities extraction)
    (fun entity =>
       runQuery (MergeConcept (ent_name entity) extractionId) ;;
       match WriteToGraph.present (p_artifactId params) with
       | Some artifactId =>
           runQuery (LinkMention artifactId (ent_name entity)) ;; ret tt
       | None => ret tt
       end) ;;
  forEach (ex_relations extraction)
    (fun rel =>
       runQuery (MergeRelation (rel_source rel) (rel_target rel)
                   (rel_type rel) extractionId) ;;
       ret tt) ;;
  let* w := get in
  let config := getGraphDBConfig w in
  forEach (ex_styleRules extraction) (writeRule params extractionId config).

Definition ensureSessionArtifactNodes (params : WriteToGraphParams) : M unit :=
  runQuery (MergeUser (p_userId params)) ;;
  runQuery (MergeSession (p_sessionId params) (p_userId params)) ;;
  match WriteToGraph.present (p_artifactId params) with
  | Some artifactId =>
      runQuery (MergeArtifact artifactId (p_sessionId params) (p_userId params)) ;;
      ret tt
  | None => ret tt
  end.

Definition extractAndWriteToGraph (params : WriteToGraphParams) : M unit :=
  let* w := get in
  let mode := getGraphRAGMode w in
  if String.eqb mode "OFF" then ret tt
  else
    tryCatch
      (ensureSessionArtifactNodes params ;;
       let extraction := extractFromMessages params in
       if (length (ex_entities extraction) =? 0)
          && (length (ex_styleRules extraction) =? 0)
       then ret tt
       else writeExtractionToGraph params extraction)
      (fun err => if String.eqb mode "REQUIRED" then throw err else ret tt).

End ExtractAndWrite.

Arguments GraphDb.getGraphRAGMode : simpl never.

(* ================================================================== *)
(** * Notions used to state the properties *)
(* ================================================================== *)

(** ** Words and keywords of a rule text *)

Definition noSpace (l : list ascii) : Prop :=
  forallb (fun c => negb (Js.isSpace c)) l = true.

Definition spaceEnded (pre : list ascii) : Prop :=
  exists p c, pre = (p ++ [c])%list /\ Js.isSpace c = true.

Definition spaceStarted (post : list ascii) : Prop :=
  post = [] \/ exists c q, post = c :: q /\ Js.isSpace c = true.

(** [w] is a word of [text]: a non-empty run of non-space characters
    that reaches from the start of the text or a space to the end of the
    text or a space. *)
Definition wordOf (text w : string) : Prop :=
  exists pre post,
    Js.chars text = (pre ++ Js.chars w ++ post)%list
    /\ Js.chars w <> [] /\ noSpace (Js.chars w)
    /\ (pre = [] \/ spaceEnded pre) /\ spaceStarted post.

(** The pieces of [splitGo]: the piece under construction completed by a
    space-free prefix of the rest, or a later space-delimited run. *)
Definition pieceOf (cur l w : list ascii) : Prop :=
  (exists t post, l = (t ++ post)%list /\ noSpace t /\ spaceStarted post
                  /\ w = (rev cur ++ t)%list)
  \/ (exists pre post, l = (pre ++ w ++ post)%list /\ noSpace w
                       /\ spaceEnded pre /\ spaceStarted post).

(** A lowercased word of the rule text that is longer than three
    characters and is not a stop word. *)
Definition contentWord (text w : string) : Prop :=
  wordOf (Js.toLowerCase text) w
  /\ 3 < String.length w /\ w ∉ Extractor.COMMON_WORDS.

Definition containsText (text key : string) : Prop :=
  exists pre post, text = (pre ++ key ++ post)%string.

(** The rule text contains the keyword, letter case apart. *)
Definition mentions (text key : string) : Prop :=
  containsText (Js.toLowerCase text) key.

Definition opposed (t1 t2 : string) (pairs : list (string * string)) : Prop :=
  exists a b, In (a, b) pairs
              /\ ((mentions t1 a /\ mentions t2 b)
                  \/ (mentions t1 b /\ mentions t2 a)).

(** The table of opposing keywords as the specification lists it. *)
Definition specPairs : list (string * string) :=
  [ ("formal", "casual"); ("formal", "informal"); ("verbose", "concise");
    ("detailed", "brief"); ("simple", "complex"); ("short", "long");
    ("technical", "simple"); ("professional", "casual");
    ("serious", "humorous"); ("passive", "active") ].

(** The contradiction test as the specification words it. *)
Definition specContradiction (newRule existingRule marker : string) : Prop :=
  (marker = "negated"
   /\ exists w, contentWord newRule w /\ contentWord existingRule w)
  \/ opposed newRule existingRule specPairs.

(** ** Matches and candidates of the Extractor *)

(** A pattern that cannot match the empty string. *)
Fixpoint consumes (r : Regex.re) : bool :=
  match r with
  | Regex.Cls _ => true
  | Regex.Cat a b => consumes a || consumes b
  | Regex.Alt a b => consumes a && consumes b
  | Regex.Star _ | Regex.StarLazy _ => false
  | Regex.Grp a => consumes a
  | Regex.Bnd | Regex.Eos => false
  end.

(** The style rule that the Extractor builds from a rule text. *)
Definition ruleFor (ruleText : string) : ExtractedStyleRule :=
  MkStyleRule ruleText ScGlobal (Extractor.detectMarker ruleText)
              (Some (7 # 10)%Q) None.

(** [m] is a match of one of the preference patterns in [content]. *)
Definition preferenceMatch (content : string) (m : Regex.mres) : Prop :=
  exists pattern, In pattern Extractor.preferencePatterns
                  /\ In m (Regex.execAll pattern content).

Definition matchText (content : string) (m : Regex.mres) : string :=
  Js.trim (Regex.whole content m).

(** The match is kept as a style-rule candidate. *)
Definition retained (content : string) (m : Regex.mres) : Prop :=
  In (ruleFor (matchText content m)) (Extractor.rulesOfContent content).

Definition humanTurns (params : WriteToGraphParams) : list Message :=
  List.filter (fun msg => Extractor.isHumanRole (role msg)) (p_messages params).

Definition conceptOnly (e : ExtractedEntity) : Prop :=
  e = MkEntity (ent_name e) EtConcept.

(** ** Observations of the world and of the graph *)

(** Everything of the world that the client's own globals do not cover. *)
Definition sameStore (w w1 : World) : Prop :=
  env_GRAPHRAG_MODE w1 = env_GRAPHRAG_MODE w
  /\ env_GRAPHRAG_CONTRADICTION_STRATEGY w1 = env_GRAPHRAG_CONTRADICTION_STRATEGY w
  /\ reachable w1 = reachable w /\ failing w1 = failing w
  /\ graph w1 = graph w /\ sent w1 = sent w /\ now w1 = now w
  /\ uuids w1 = uuids w.

(** What one call of [runQuery] or [runWriteQuery] of [graphdb.ts] can
    do: nothing is sent, the statement is sent and rejected, or it is sent
    and executed. *)
Inductive sendOutcome (s : Cypher.Stmt) (w : World)
  : Res (option (list Store.Props)) -> World -> Prop :=
| NotSent (r : Res (option (list Store.Props))) (w1 : World) :
    sameStore w w1 ->
    (forall rows, r <> Ok (Some rows)) ->
    sendOutcome s w r w1
| Rejected (r : Res (option (list Store.Props))) (w1 : World) :
    env_GRAPHRAG_MODE w1 = env_GRAPHRAG_MODE w ->
    graph w1 = graph w -> sent w1 = (sent w ++ [s])%list ->
    (forall rows, r <> Ok (Some rows)) ->
    sendOutcome s w r w1
| Executed (w1 : World) :
    env_GRAPHRAG_MODE w1 = env_GRAPHRAG_MODE w ->
    graph w1 = (Cypher.exec s (now w) (graph w)).1 ->
    sent w1 = (sent w ++ [s])%list ->
    sendOutcome s w (Ok (Some (Cypher.exec s (now w) (graph w)).2)) w1.

(** In OPTIONAL mode [m] returns normally, with a value in [P], and
    leaves the mode alone. *)
Definition returns {A} (P : A -> Prop) (m : M A) : Prop :=
  forall w, GraphDb.getGraphRAGMode w = OPTIONAL ->
            exists a w', m w = (Ok a, w')
                         /\ GraphDb.getGraphRAGMode w' = OPTIONAL /\ P a.

Definition degrades {A} (m : M A) : Prop := returns (fun _ => True) m.

(** The statements sent to the store between two worlds. *)
Definition newlySent (w w' : World) : list Cypher.Stmt :=
  drop (length (sent w)) (sent w').

Definition recordsContradiction (s : Cypher.Stmt) : bool :=
  match s with
  | Cypher.RecordContradiction _ _ _
  | Cypher.MergeContradicts _ _ _ _ _ => true
  | _ => false
  end.

Definition contradictsCount (w : World) : nat :=
  Store.countEdges Store.CONTRADICTS (graph w).

(** An existing rule that the contradiction check of [upsertStyleRule]
    may return: a rule that the user prefers, of the category and the
    scope of the new rule, current, and not the new rule itself. *)
Definition candidate (userId category scope ruleId : string) (g : Store.Graph)
           (existingId : string) : Prop :=
  (exists e, In e (Store.edges g) /\ Store.e_type e = Store.PREFERS
             /\ Store.e_src e = (Store.LUser, userId)
             /\ Store.e_dst e = (Store.LStyleRule, existingId))
  /\ Store.prop g (Store.LStyleRule, existingId) "category" = Store.VStr category
  /\ Store.prop g (Store.LStyleRule, existingId) "scope" = Store.VStr scope
  /\ Store.prop g (Store.LStyleRule, existingId) "temporalMarker"
     = Store.VStr "current"
  /\ existingId <> ruleId.

(** A statement that records a contradiction for [rule] names a
    candidate of the graph [g]. *)
Definition recordedFor (userId : string) (rule : WriteToGraph.ExtractedStyleRule)
           (extractionId : string) (g : Store.Graph) (s : Cypher.Stmt) : Prop :=
  recordsContradiction s = true ->
  exists existingId,
    s = Cypher.RecordContradiction (WriteToGraph.id rule) existingId extractionId
    /\ candidate userId (WriteToGraph.category rule)
         (scopeName (WriteToGraph.scope rule)) (WriteToGraph.id rule) g existingId.

(** A connected client of [graphdb.js] over a store that accepts every
    statement. *)
Definition connected (w : World) : Prop :=
  GraphDbJs.getGraphRAGMode w <> "OFF" /\ _driver w = true
  /\ forall n, failing w n = false.

(** A node has a provenance pointer: a [CREATED] or [ASSERTED]
    relationship from an Extraction node. *)
Definition hasProvenance (g : Store.Graph) (r : Store.NodeRef) : bool :=
  existsb (fun e => (bool_decide (Store.e_type e = Store.CREATED)
                     || bool_decide (Store.e_type e = Store.ASSERTED))
                    && bool_decide ((Store.e_src e).1 = Store.LExtraction)
                    && bool_decide (Store.e_dst e = r))
          (Store.edges g).

Definition allLabels : list Store.Label :=
  [Store.LUser; Store.LSession; Store.LArtifact; Store.LConcept;
   Store.LStyleRule; Store.LExtraction].

(** The number of nodes of every label. *)
Definition nodeCensus (g : Store.Graph) : list nat :=
  map (fun l => Store.countNodes l g) allLabels.

(** The ids of the StyleRule nodes that hold a given rule text. *)
Definition rulesWithText (g : Store.Graph) (text : string) : list string :=
  flat_map (fun '(r, ps) =>
              if bool_decide (r.1 = Store.LStyleRule)
                 && bool_decide (ps !! "rule" = Some (Store.VStr text))
              then [r.2] else [])
           (map_to_list (Store.nodes g)).

(** The [CONTRADICTS] relationships as (from, to) pairs of rule ids. *)
Definition contradictsEdges (g : Store.Graph) : list (string * string) :=
  map (fun e => ((Store.e_src e).2, (Store.e_dst e).2))
      (Store.edgesOfType Store.CONTRADICTS g).

(** ** Sample processes and inputs *)

(** A fresh process: no driver, nothing sent, an empty clock; the driver
    module loads and the driver object can be constructed. *)
Definition startWorld (mode strategy : option string)
           (reach failRun : nat -> bool) (g : Store.Graph) : World :=
  MkWorld mode strategy reach failRun false false None false 0 [] g 0 0
          (fun _ => true).

Definition always (b : bool) : nat -> bool := fun _ => b.

(** OPTIONAL mode, the store cannot be reached. *)
Definition storeDown : World :=
  startWorld (Some "OPTIONAL") None (always false) (always true)
             Store.emptyGraph.

(** REQUIRED mode, the store cannot be reached. *)
Definition storeDownRequired : World :=
  startWorld (Some "REQUIRED") None (always false) (always true)
             Store.emptyGraph.

(** The store answers every connection attempt and every statement. *)
Definition storeUp (mode : string) (g : Store.Graph) : World :=
  startWorld (Some mode) None (always true) (always false) g.

(** OPTIONAL mode, the store is down at the first connection attempt
    only. *)
Definition firstAttemptFails : World :=
  startWorld (Some "OPTIONAL") None (fun n => negb (n =? 0)) (always false)
             Store.emptyGraph.

Definition sampleExtraction : ExtractionRecord :=
  MkExtractionRecord "ex-1" "2025-01-01T00:00:00Z" MRule None None.

Definition sampleInput : WriteToGraph.WritePathInput :=
  WriteToGraph.MkInput "user-1" (Some "session-1") None
    ["Atlas"]
    [WriteToGraph.MkTriple "Atlas" "depends on" "Borealis" None]
    [WriteToGraph.MkRule "rule-1" "tone" "use a formal tone" ScGlobal TmCurrent]
    sampleExtraction.

(** The sample input without its triple. *)
Definition ruleInput : WriteToGraph.WritePathInput :=
  WriteToGraph.MkInput "user-1" (Some "session-1") None
    ["Atlas"] []
    [WriteToGraph.MkRule "rule-1" "tone" "use a formal tone" ScGlobal TmCurrent]
    sampleExtraction.

(** The default local user, as the last schema statement of
    [graphrag-schema.ts] creates it. *)
Definition localUser : string := "00000000-0000-0000-0000-000000000001".

Definition seededGraph : Store.Graph :=
  Store.mergeNode (Store.LUser, localUser)
    [("username", Store.VStr "local-user"); ("createdAt", Store.VTime 0)] []
    Store.emptyGraph.

Definition localInput : WriteToGraph.WritePathInput :=
  WriteToGraph.MkInput localUser (Some "session-1") None
    ["Atlas"] []
    [WriteToGraph.MkRule "rule-1" "tone" "use a formal tone" ScGlobal TmCurrent]
    sampleExtraction.

(** The same input with a triple. *)
Definition localTripleInput : WriteToGraph.WritePathInput :=
  WriteToGraph.MkInput localUser (Some "session-1") None
    ["Atlas"]
    [WriteToGraph.MkTriple "Atlas" "depends on" "Borealis" None]
    [WriteToGraph.MkRule "rule-1" "tone" "use a formal tone" ScGlobal TmCurrent]
    sampleExtraction.

Definition humanSays (text : string) : WriteToGraphParams :=
  MkParams "user-1" "session-1" None [MkMessage "human" text].

Definition scenarioStart (strategy : string) : World :=
  startWorld (Some "OPTIONAL") (Some strategy) (always true) (always false)
             Store.emptyGraph.

(** The scenario of the specification: two writes of the same user. *)
Definition conciseThenDetailed : World :=
  ((ExtractAndWrite.extractAndWriteToGraph
      (humanSays "I always prefer concise responses.") ;;
    ExtractAndWrite.extractAndWriteToGraph
      (humanSays "I prefer detailed explanations."))
     (scenarioStart "most-recent-wins")).2.

(** The same two writes with a later text that the keyword table does
    oppose to the first. *)
Definition conciseThenVerbose : World :=
  ((ExtractAndWrite.extractAndWriteToGraph
      (humanSays "I always prefer concise responses.") ;;
    ExtractAndWrite.extractAndWriteToGraph
      (humanSays "I prefer verbose explanations."))
     (scenarioStart "most-recent-wins")).2.

(** The outcome that the specification gives for the scenario. *)
Definition scenarioClaim (g : Store.Graph) : Prop :=
  exists first second,
    rulesWithText g "always prefer concise responses." = [first]
    /\ rulesWithText g "I prefer detailed explanations." = [second]
    /\ Store.prop g (Store.LStyleRule, first) "active" = Store.VBool false
    /\ Store.prop g (Store.LStyleRule, first) "temporalMarker" = Store.VStr "past"
    /\ Store.prop g (Store.LStyleRule, second) "active" = Store.VBool true
    /\ contradictsEdges g = [(second, first)].

Definition strictRule : ExtractedStyleRule :=
  MkStyleRule "Always use a formal tone" ScGlobal TmCurrent
              (Some (9 # 10)%Q) (Some true).

Definition casualRule : ExtractedStyleRule :=
  MkStyleRule "Use a casual tone" ScGlobal TmCurrent (Some (7 # 10)%Q) None.

Definition oneRule (r : ExtractedStyleRule) : ExtractionResult :=
  MkExtraction [] [] [r] (sr_rule r).

(** A strict rule is written, then a rule that contradicts it. *)
Definition strictThenCasual (strategy : string) : World :=
  ((ExtractAndWrite.ensureSessionArtifactNodes (humanSays "") ;;
    ExtractAndWrite.writeExtractionToGraph (humanSays "") (oneRule strictRule) ;;
    ExtractAndWrite.writeExtractionToGraph (humanSays "") (oneRule casualRule))
     (scenarioStart strategy)).2.

(** A connected process and the record of an existing strict rule. *)
Definition connectedWorld (strategy : string) : World :=
  MkWorld (Some "OPTIONAL") (Some strategy) (always true) (always false)
          true false None true 1 [] Store.emptyGraph 0 0
          (fun _ => true).

Definition strictRecord : Store.Props :=
  {[ "ruleId" := Store.VStr "rule-old";
     "rule" := Store.VStr "Always use a formal tone";
     "strict" := Store.VBool true;
     "temporalMarker" := Store.VStr "current" ]}.

(* ================================================================== *)
(** * The context bundle of [graphrag-types.ts] *)
(* ================================================================== *)

Record GraphEntity : Type := MkGraphEntity {
  ge_id : string;
  ge_label : string;
  ge_properties : Store.Props
}.

Record GraphRelation : Type := MkGraphRelation {
  gr_source : string;
  gr_target : string;
  gr_type : string;
  gr_properties : Store.Props;
  gr_extractionId : string
}.

Record GraphStyleRule : Type := MkGraphStyleRule {
  gs_id : string;
  gs_rule : string;
  gs_scope : Scope;
  gs_temporalMarker : TemporalMarker;
  gs_since : string;
  gs_expiresAt : option string;
  gs_confidence : option Q;
  gs_strict : option bool;
  gs_confirmed : option bool;
  gs_extractionId : string;
  gs_contradicts : option (list string)
}.

Record GraphCitation : Type := MkGraphCitation {
  gc_extractionId : string;
  gc_sessionId : option string;
  gc_artifactId : option string;
  gc_createdAt : string;
  gc_method : Method;
  gc_model : option string;
  gc_rawSnippet : option string
}.

Record GraphContext : Type := MkGraphContext {
  ctx_entities : list GraphEntity;
  ctx_relations : list GraphRelation;
  ctx_styleRules : list GraphStyleRule;
  ctx_citations : list GraphCitation
}.

(* ================================================================== *)
(** * The Context Formatter of [graphrag-format.ts] *)
(* ================================================================== *)

Module GraphRagFormat.
Import Store.

(** The decimal text of a length, as a template literal prints it. *)
Definition natText (n : nat) : string := NilZero.string_of_uint (Nat.to_uint n).

(** A template literal: the concatenation of its pieces. *)
Definition tpl (pieces : list string) : string := String.concat "" pieces.

(** How JavaScript prints a number and a property value that is not a
    string is left to two parameters. *)
Section Rendering.
Variable showNumber : Q -> string.
Variable showValue : Value -> string.

(** The body of the loop over [ctx.styleRules]: the parts joined by a
    space. *)
Definition ruleLine (rule : GraphStyleRule) : string :=
  let head := tpl ["- ["; scopeName (gs_scope rule); "] "; gs_rule rule] in
  let confidence :=
    match gs_confidence rule with
    | Some c => [tpl ["(confidence: "; showNumber c; ")"]]
    | None => []
    end in
  let contradicts :=
    match gs_contradicts rule with
    | Some l => if 0 <? length l
                then [tpl ["(contradicts "; natText (length l);
                           " other rule(s))"]]
                else []
    | None => []
    end in
  Js.join " " (head :: confidence ++ contradicts).

(** [(entity.properties.name as string) || entity.id] inside the
    template literal. *)
Definition displayName (entity : GraphEntity) : string :=
  match ge_properties entity !! "name" with
  | Some v => if ExtractAndWrite.truthyValue (Some v)
              then match v with VStr s => s | _ => showValue v end
              else ge_id entity
  | None => ge_id entity
  end.

Definition entityLine (entity : GraphEntity) : string :=
  tpl ["- "; ge_label entity; ": "; displayName entity].

Definition relationLine (rel : GraphRelation) : string :=
  tpl ["- ("; gr_source rel; ")-[:"; gr_type rel; "]->("; gr_target rel; ")"].

(** One tagged block, or nothing when the list is empty. *)
Definition block {A} (tag : string) (line : A -> string) (l : list A)
  : list string :=
  match l with
  | [] => []
  | _ => tpl ["<"; tag; ">"] :: map line l ++ [tpl ["</"; tag; ">"]]
  end.

(** The array [sections] at the end of the function. *)
Definition sections (ctx : GraphContext) : list string :=
  block "graph-style-rules" ruleLine (ctx_styleRules ctx)
  ++ block "graph-entities" entityLine (ctx_entities ctx)
  ++ block "graph-relations" relationLine (ctx_relations ctx).

Definition newline : string := String (ascii_of_nat 10) "".

Definition formatGraphContextForPrompt (ctx : option GraphContext) : string :=
  match ctx with
  | None => ""
  | Some c => Js.join newline (sections c)
  end.

End Rendering.
End GraphRagFormat.

(* ================================================================== *)
(** * The read path [buildGraphContext] (graphrag-read) *)
(* ================================================================== *)

Module GraphRagRead.
Import Store Regex.

(** A number used as a limit is taken by the integer that [slice] makes
    of it ([NaN] counts as [0]). *)
Record BuildGraphContextParams : Type := MkBuildParams {
  b_userId : string;
  b_sessionId : string;
  b_promptText : string;
  b_artifactContent : option string;
  b_maxNodes : option Z;
  b_maxEdges : option Z
}.

(** [config.maxNodes] and [config.maxEdges] of [getGraphDBConfig], parsed
    from the environment. *)
Record Limits : Type := MkLimits { maxNodes : Z; maxEdges : Z }.

(** [arr.slice(0, end)]: a negative [end] counts from the end of the
    array. *)
Definition sliceTo {A} (finish : Z) (l : list A) : list A :=
  let len := Z.of_nat (length l) in
  let final := if (finish <? 0)%Z then Z.max (len + finish) 0
               else Z.min finish len in
  take (Z.to_nat final) l.

Definition SKIP_WORDS : gset string :=
  list_to_set
    [ "the"; "this"; "that"; "with"; "from"; "have"; "been"; "will";
      "would"; "could"; "should"; "about"; "what"; "when"; "where";
      "which"; "there"; "their"; "here"; "just"; "also"; "then"; "than";
      "more"; "some"; "other"; "please"; "thanks"; "hello"; "sure" ].

(** The proper-noun pattern of the read side: the pattern of the write
    side without its capture group. *)
Definition properNounsPlain : re :=
  Cat Bnd
    (Cat (Cat Extractor.capWord (Star (Cat (Plus ws) Extractor.capWord))) Bnd).

(** [text.match(pattern)] for a pattern with the [g] flag: the texts of
    all matches; [null] stands for no match and is the empty list. *)
Definition matchAll (pattern : re) (text : string) : list string :=
  map (whole text) (execAll pattern text).

(** [s.replace(/q/g, EMPTY)] for a one-character pattern [q]. *)
Definition removeAll (q : ascii) (s : string) : string :=
  Js.str (List.filter (fun c => negb (Ascii.eqb c q)) (Js.chars s)).

(** [names.add(x)] on a [Set], kept in insertion order. *)
Definition setAdd (names : list string) (x : string) : list string :=
  if existsb (String.eqb x) names then names else (names ++ [x])%list.

Definition addNoun (names : list string) (noun : string) : list string :=
  if (2 <? String.length noun)
     && negb (bool_decide (Js.toLowerCase noun ∈ SKIP_WORDS))
  then setAdd names (Js.toLowerCase noun)
  else names.

Definition addDelimited (q : ascii) (names : list string) (m : string)
  : list string :=
  let clean := Js.toLowerCase (Js.trim (removeAll q m)) in
  if 2 <? String.length clean then setAdd names clean else names.

(** [[promptText, artifactContent].filter(Boolean).join(SPACE)] *)
Definition joinedText (promptText : string) (artifactContent : option string)
  : string :=
  Js.join " "
    ((if Js.truthy promptText then [promptText] else [])
       ++ match WriteToGraph.present artifactContent with
          | Some a => [a]
          | None => []
          end)%list.

Definition extractEntityNamesFromText (promptText : string)
           (artifactContent : option string) : list string :=
  let text := joinedText promptText artifactContent in
  let names1 := fold_left addNoun (matchAll properNounsPlain text) [] in
  let names2 :=
    fold_left (addDelimited Extractor.dquote)
              (matchAll (Extractor.delimited Extractor.dquote) text) names1 in
  let names3 :=
    fold_left (addDelimited Extractor.backtick)
              (matchAll (Extractor.delimited Extractor.backtick) text) names2 in
  take 20 names3.

(** The rows that the store returns, one record type per query, with the
    fields typed as the casts of the source type them. A field that the
    source tests for [null] is an option. *)
Record ConceptRecord : Type := MkConceptRecord {
  cr_name : string;
  cr_id : string;
  cr_props : Props
}.

Record NeighborRecord : Type := MkNeighborRecord {
  nr_sourceName : string;
  nr_sourceId : string;
  nr_relType : string;
  nr_relProps : Props;
  nr_neighborId : string;
  nr_neighborLabels : option (list string);
  nr_neighborProps : Props
}.

Record RuleRecord : Type := MkRuleRecord {
  rr_id : string;
  rr_rule : string;
  rr_scope : Scope;
  rr_temporalMarker : TemporalMarker;
  rr_since : option string;
  rr_expiresAt : option string;
  rr_confidence : option Q;
  rr_strict : option bool;
  rr_confirmed : option bool;
  rr_contradicts : list (option string);
  rr_extractionIds : option (list string)
}.

Record CitationRecord : Type := MkCitationRecord {
  ct_extractionId : string;
  ct_createdAt : option string;
  ct_method : option Method;
  ct_model : option string;
  ct_rawSnippet : option string;
  ct_sessionId : option string;
  ct_artifactId : option string
}.

(** The answers of the store: the rows that the statement sent as the
    [n]-th one returns when it is a query of the given kind. Nothing is
    assumed about them. *)
Record Answers : Type := MkAnswers {
  conceptRows : nat -> list ConceptRecord;
  neighborRows : nat -> list NeighborRecord;
  ruleRows : nat -> list RuleRecord;
  citationRows : nat -> list CitationRecord
}.

(** [runQuery] for a read statement, with the records of the answer;
    [None] is the [null] result. The statement texts below are those of
    the source with their white space normalised. *)
Definition queryRows {R} (rowsAt : nat -> list R) (cypher : string)
  : M (option (list R)) :=
  let* result := GraphDbJs.runQuery (Cypher.Other cypher) in
  let* w := get in
  ret (match result with
       | Some _ => Some (rowsAt (length (sent w) - 1))
       | None => None
       end).

(** [x || dflt] on an optional string. *)
Definition orElseText (x : option string) (dflt : string) : string :=
  match WriteToGraph.present x with Some s => s | None => dflt end.

Definition resolveConceptNodes (answers : Answers) (entityNames : list string)
           (maxNodes : Z) : M (list GraphEntity) :=
  if length entityNames =? 0 then ret []
  else
    let* result :=
      queryRows (conceptRows answers)
        "MATCH (c:Concept) WHERE c.name IN $names RETURN c.name AS name, elementId(c) AS id, properties(c) AS props LIMIT $maxNodes" in
    match result with
    | None => ret []
    | Some records =>
        ret (map (fun record =>
                    MkGraphEntity (cr_id record) "Concept" (cr_props record))
                 records)
    end.

(** [arr?.[0]] *)
Definition firstOf (l : option (list string)) : option string :=
  match l with
  | Some (x :: _) => Some x
  | _ => None
  end.

Definition neighborEntity (record : NeighborRecord) : GraphEntity :=
  MkGraphEntity (nr_neighborId record)
    (orElseText (firstOf (nr_neighborLabels record)) "Unknown")
    (nr_neighborProps record).

Definition neighborRelation (record : NeighborRecord) : GraphRelation :=
  MkGraphRelation (nr_sourceId record) (nr_neighborId record)
    (nr_relType record) (nr_relProps record)
    (orElseText (rowString (nr_relProps record) "extractionId") "").

Definition traverseNeighborhood (answers : Answers) (entityNames : list string)
           (maxEdges : Z) : M (list GraphEntity * list GraphRelation) :=
  if length entityNames =? 0 then ret ([], [])
  else
    let* result :=
      queryRows (neighborRows answers)
        "MATCH (c:Concept)-[r:RELATED_TO|MENTIONS]-(neighbor) WHERE c.name IN $names RETURN c.name AS sourceName, elementId(c) AS sourceId, type(r) AS relType, properties(r) AS relProps, elementId(neighbor) AS neighborId, labels(neighbor) AS neighborLabels, properties(neighbor) AS neighborProps LIMIT $maxEdges" in
    match result with
    | None => ret ([], [])
    | Some records =>
        ret (map neighborEntity records, map neighborRelation records)
    end.

Definition styleRuleOf (record : RuleRecord) : GraphStyleRule :=
  MkGraphStyleRule (rr_id record) (rr_rule record) (rr_scope record)
    (rr_temporalMarker record)
    (orElseText (rr_since record) "")
    (WriteToGraph.present (rr_expiresAt record))
    (rr_confidence record) (rr_strict record) (rr_confirmed record)
    (orElseText (firstOf (rr_extractionIds record)) "")
    (Some (omap WriteToGraph.present (rr_contradicts record))).

Definition retrieveActiveStyleRules (answers : Answers) (userId : string)
  : M (list GraphStyleRule) :=
  let* result :=
    queryRows (ruleRows answers)
      "MATCH (u:User {userId: $userId})-[p:PREFERS]->(sr:StyleRule {active: true}) WHERE p.temporalMarker = 'current' OPTIONAL MATCH (sr)-[c:CONTRADICTS]->(contradicted:StyleRule) RETURN sr.ruleId AS id, sr.rule AS rule, sr.scope AS scope, sr.temporalMarker AS temporalMarker, sr.since AS since, sr.expiresAt AS expiresAt, sr.confidence AS confidence, sr.strict AS strict, sr.confirmed AS confirmed, collect(contradicted.ruleId) AS contradicts, collect(DISTINCT elementId(sr)) AS extractionIds ORDER BY sr.since DESC" in
  match result with
  | None => ret []
  | Some records => ret (map styleRuleOf records)
  end.

Definition citationOf (record : CitationRecord) : GraphCitation :=
  MkGraphCitation (ct_extractionId record) (ct_sessionId record)
    (ct_artifactId record) (orElseText (ct_createdAt record) "")
    (default MRule (ct_method record)) (ct_model record)
    (ct_rawSnippet record).

Definition gatherCitations (answers : Answers) (entityIds ruleIds : list string)
  : M (list GraphCitation) :=
  if (length entityIds =? 0) && (length ruleIds =? 0) then ret []
  else
    let* result :=
      queryRows (citationRows answers)
        "MATCH (e:Extraction)-[:CREATED]->(target) WHERE elementId(target) IN $entityIds OR (target:StyleRule AND target.ruleId IN $ruleIds) OPTIONAL MATCH (e)-[:EXTRACTED_FROM]->(s:Session) OPTIONAL MATCH (e)-[:EXTRACTED_FROM_ARTIFACT]->(a:Artifact) RETURN e.extractionId AS extractionId, e.createdAt AS createdAt, e.method AS method, e.model AS model, e.rawSnippet AS rawSnippet, s.sessionId AS sessionId, a.artifactId AS artifactId LIMIT 50" in
    match result with
    | None => ret []
    | Some records => ret (map citationOf records)
    end.

(** [if (!seen.has(e.id)) seen.set(e.id, e)] on a [Map], kept in insertion
    order. *)
Definition seenStep (seen : list (string * GraphEntity)) (e : GraphEntity)
  : list (string * GraphEntity) :=
  if existsb (fun kv => String.eqb kv.1 (ge_id e)) seen then seen
  else (seen ++ [(ge_id e, e)])%list.

Definition deduplicateEntities (entities : list GraphEntity) : list GraphEntity :=
  map snd (fold_left seenStep entities []).

Definition buildGraphContext (answers : Answers) (config : Limits)
           (params : BuildGraphContextParams) : M (option GraphContext) :=
  let* w := get in
  let mode := GraphDbJs.getGraphRAGMode w in
  if String.eqb mode "OFF" then ret None
  else
    tryCatch
      (let maxNodes := default (maxNodes config) (b_maxNodes params) in
       let maxEdges := default (maxEdges config) (b_maxEdges params) in
       let entityNames :=
         extractEntityNamesFromText (b_promptText params)
                                    (b_artifactContent params) in
       if length entityNames =? 0 then
         let* styleRules := retrieveActiveStyleRules answers (b_userId params) in
         if length styleRules =? 0 then ret None
         else ret (Some (MkGraphContext [] [] styleRules []))
       else
         let* entities := resolveConceptNodes answers entityNames maxNodes in
         let* neighborhood := traverseNeighborhood answers entityNames maxEdges in
         let neighborEntities := neighborhood.1 in
         let relations := neighborhood.2 in
         let* styleRules := retrieveActiveStyleRules answers (b_userId params) in
         let allEntityIds :=
           (map ge_id entities ++ map ge_id neighborEntities)%list in
         let allRuleIds := map gs_id styleRules in
         let* citations := gatherCitations answers allEntityIds allRuleIds in
         let allEntities :=
           deduplicateEntities (entities ++ neighborEntities)%list in
         ret (Some (MkGraphContext (sliceTo maxNodes allEntities)
                                   (sliceTo maxEdges relations)
                                   styleRules citations)))
      (fun err => if String.eqb mode "REQUIRED" then throw err else ret None).

End GraphRagRead.

(* ================================================================== *)
(** * The context of a generation node ([graphrag-context.ts]) *)
(* ================================================================== *)

Module GraphRagContext.
Import GraphRagRead.

(** The content of a message: a string, or structured content given by
    the text that [JSON.stringify] makes of it. *)
Inductive MessageContent : Type :=
| TextContent (text : string)
| ComplexContent (json : string).

(** [config.configurable] *)
Record Configurable : Type := MkConfigurable {
  open_canvas_assistant_id : option string;
  assistant_id : option string;
  thread_id : option string
}.

Record GenerationContext : Type := MkGenerationContext {
  graphContext : option GraphContext;
  graphContextPrompt : string
}.

(** [JSON.stringify] of the empty string: two double quotes. *)
Definition emptyJson : string :=
  String Extractor.dquote (String Extractor.dquote "").

(** The prompt text taken from [messages[messages.length - 1]]. *)
Definition promptTextOf (messages : list MessageContent) : string :=
  match last messages with
  | Some (TextContent text) => text
  | Some (ComplexContent json) => json
  | None => emptyJson
  end.

Definition userIdOf (configurable : option Configurable) : string :=
  match configurable with
  | Some c =>
      Js.orDefault (open_canvas_assistant_id c)
                   (Js.orDefault (assistant_id c) "default")
  | None => "default"
  end.

Definition sessionIdOf (configurable : option Configurable) : string :=
  match configurable with
  | Some c => Js.orDefault (thread_id c) "unknown"
  | None => "unknown"
  end.

Section Generation.
Variable showNumber : Q -> string.
Variable showValue : Store.Value -> string.

(** The mode is read through the client that [buildGraphContext] uses;
    [config] is given by its [configurable] part. *)
Definition getGraphContextForGeneration (answers : Answers) (limits : Limits)
           (messages : list MessageContent) (artifactContent : option string)
           (configurable : option Configurable) : M GenerationContext :=
  let* w := get in
  let mode := GraphDbJs.getGraphRAGMode w in
  if String.eqb mode "OFF" then ret (MkGenerationContext None "")
  else
    tryCatch
      (let promptText := promptTextOf messages in
       let* ctx :=
         buildGraphContext answers limits
           (MkBuildParams (userIdOf configurable) (sessionIdOf configurable)
                          promptText artifactContent None None) in
       ret (MkGenerationContext ctx
              (GraphRagFormat.formatGraphContextForPrompt
                 showNumber showValue ctx)))
      (fun err =>
         if String.eqb mode "REQUIRED" then throw err
         else ret (MkGenerationContext None "")).

End Generation.
End GraphRagContext.

(* ================================================================== *)
(** * Schema initialization ([graphrag-schema.ts]) *)
(* ================================================================== *)

Module GraphRagSchema.
Import Store.

Definition constraintAndIndexStatements : list string :=
  [ "CREATE CONSTRAINT user_id_unique IF NOT EXISTS FOR (u:User) REQUIRE u.id IS UNIQUE";
    "CREATE CONSTRAINT artifact_id_unique IF NOT EXISTS FOR (a:Artifact) REQUIRE a.id IS UNIQUE";
    "CREATE CONSTRAINT concept_name_unique IF NOT EXISTS FOR (c:Concept) REQUIRE c.name IS UNIQUE";
    "CREATE CONSTRAINT session_id_unique IF NOT EXISTS FOR (s:Session) REQUIRE s.id IS UNIQUE";
    "CREATE CONSTRAINT extraction_id_unique IF NOT EXISTS FOR (e:Extraction) REQUIRE e.extractionId IS UNIQUE";
    "CREATE CONSTRAINT style_rule_id_unique IF NOT EXISTS FOR (r:StyleRule) REQUIRE r.id IS UNIQUE";
    "CREATE INDEX artifact_type_index IF NOT EXISTS FOR (a:Artifact) ON (a.type)";
    "CREATE INDEX style_rule_category_index IF NOT EXISTS FOR (r:StyleRule) ON (r.category)";
    "CREATE INDEX extraction_created_at_index IF NOT EXISTS FOR (e:Extraction) ON (e.createdAt)";
    "CREATE INDEX concept_updated_at_index IF NOT EXISTS FOR (c:Concept) ON (c.updatedAt)";
    "CREATE FULLTEXT INDEX concept_fulltext IF NOT EXISTS FOR (c:Concept) ON EACH [c.name, c.description]" ].

(** The last statement, which creates the default local user. *)
Definition defaultUserStatement : string :=
  let q := String Extractor.dquote "" in
  String.concat ""
    [ "MERGE (u:User {id: "; q; localUser; q;
      "}) ON CREATE SET u.username = "; q; "local-user"; q;
      ", u.createdAt = datetime()" ].

Definition setGraph (g : Graph) (w : World) : World :=
  MkWorld (env_GRAPHRAG_MODE w) (env_GRAPHRAG_CONTRADICTION_STRATEGY w)
          (reachable w) (failing w) (_driver w) (_driverInitAttempted w)
          (_config w) (_schemaInitialized w) (attempts w) (sent w) g (now w)
          (uuids w) (constructs w).

(** The effect of the last statement on the graph at store time [t]. *)
Definition mergeDefaultUser (t : nat) (g : Graph) : Graph :=
  mergeNode (LUser, localUser)
    [("username", VStr "local-user"); ("createdAt", VTime t)] [] g.

(** [runWriteQuery] of the last statement: when the store has executed
    it, the default user is merged at the time of the statement. *)
Definition runDefaultUserStatement : M (option (list Props)) :=
  let* result := GraphDb.runWriteQuery (Cypher.Other defaultUserStatement) in
  match result with
  | Some rows =>
      modify (fun w => setGraph (mergeDefaultUser (now w - 1) (graph w)) w) ;;
      ret (Some rows)
  | None => ret None
  end.

(** [initGraphRAGSchema] with the module variable [_initialized] passed
    in and handed back beside the result; it keeps its value when the
    function throws. *)
Definition initGraphRAGSchema (_initialized : bool) : M (bool * bool) :=
  if _initialized then ret (true, _initialized)
  else
    let* w := get in
    let mode := GraphDb.getGraphRAGMode w in
    if bool_decide (mode = OFF) then ret (true, true)
    else
      let* driver := GraphDb.getDriver in
      if negb driver then ret (false, true)
      else
        tryCatch
          (forEach constraintAndIndexStatements
             (fun statement =>
                GraphDb.runWriteQuery (Cypher.Schema statement) ;; ret tt) ;;
           runDefaultUserStatement ;;
           ret (true, true))
          (fun error =>
             if bool_decide (mode = REQUIRED)
             then throw (Wrapped "[GraphRAG] Schema initialization failed" error)
             else ret (false, true)).

End GraphRagSchema.

(* ================================================================== *)
(** * Notions used to state the properties of the read path *)
(* ================================================================== *)

(** [e] is the first entity of [l] with its id. *)
Definition firstWithId (l : list GraphEntity) (e : GraphEntity) : Prop :=
  exists pre post,
    l = (pre ++ e :: post)%list /\ ~ In (ge_id e) (map ge_id pre).

(** A name as the read path looks it up: longer than two characters and
    left alone by [toLowerCase]. *)
Definition lookupName (name : string) : Prop :=
  2 < String.length name /\ Js.toLowerCase name = name.

(** What the loop of [deduplicateEntities] maintains, [p] being the
    entities read so far. *)
Definition seenInv (p : list GraphEntity) (seen : list (string * GraphEntity))
  : Prop :=
  (forall kv, In kv seen -> kv.1 = ge_id kv.2)
  /\ NoDup (map fst seen)
  /\ (forall e, In e (map snd seen) <-> firstWithId p e)
  /\ (forall e, In e p -> In (ge_id e) (map fst seen)).

Definition namesInv (names : list string) : Prop :=
  NoDup names /\ Forall lookupName names.

(** An entity as the Extractor makes it: a Concept whose name is not a
    stop word and is the lower-case form of a captured span of three to
    ninety-nine code units; the length is tested on the span, before it
    is put in lower case. *)
Definition conceptShape (e : ExtractedEntity) : Prop :=
  ent_type e = EtConcept
  /\ (ent_name e ∉ Extractor.COMMON_WORDS)
  /\ exists span, ent_name e = Js.toLowerCase span
                  /\ 2 < String.length span < 100.

(** A style rule as the Extractor makes it: global, of confidence 0.7,
    without the strict flag, with the marker of its text, never
    [future]. *)
Definition ruleShape (r : ExtractedStyleRule) : Prop :=
  sr_scope r = ScGlobal
  /\ sr_confidence r = Some (7 # 10)%Q
  /\ sr_strict r = None
  /\ sr_temporalMarker r = Extractor.detectMarker (sr_rule r)
  /\ sr_temporalMarker r <> TmFuture
  /\ 10 < String.length (sr_rule r) < 200.

(** What the loop of [uniqueEntities] maintains. *)
Definition keyedByName (m : list (string * ExtractedEntity)) : Prop :=
  NoDup (map fst m) /\ forall kv, In kv m -> ent_name kv.2 = kv.1.

(* ================================================================== *)
(** * Notions used to state what a run can change *)
(* ================================================================== *)

(** The type and the end points of a relationship. *)
Definition edgeEnds (e : Store.Edge)
  : Store.EdgeType * Store.NodeRef * Store.NodeRef :=
  (Store.e_type e, Store.e_src e, Store.e_dst e).

(** Nothing of [g] is missing in [g1]: every node is still there, and
    the relationships of [g] are still there, in their order, between the
    same nodes, before the new ones. *)
Definition graphGrows (g g1 : Store.Graph) : Prop :=
  (forall r, is_Some (Store.nodes g !! r) -> is_Some (Store.nodes g1 !! r))
  /\ exists more,
       map edgeEnds (Store.edges g1)
       = (map edgeEnds (Store.edges g) ++ more)%list.

(** From [w] to [w1] the environment and the behaviour of the store are
    the same, and the graph, the log of statements and the counters have
    only grown. *)
Definition worldGrows (w w1 : World) : Prop :=
  env_GRAPHRAG_MODE w1 = env_GRAPHRAG_MODE w
  /\ env_GRAPHRAG_CONTRADICTION_STRATEGY w1
     = env_GRAPHRAG_CONTRADICTION_STRATEGY w
  /\ reachable w1 = reachable w /\ failing w1 = failing w
  /\ graphGrows (graph w) (graph w1)
  /\ (exists more, sent w1 = (sent w ++ more)%list)
  /\ now w <= now w1 /\ attempts w <= attempts w1 /\ uuids w <= uuids w1.

(** Every run of [m] relates the world before to the world after by
    [R], whether it returns or throws. *)
Definition keeps {A} (R : World -> World -> Prop) (m : M A) : Prop :=
  forall w, R w (m w).2.

(** The connection attempts made so far plus the one that the client of
    [graphdb.ts] can still make. *)
Definition attemptBudget (w : World) : nat :=
  attempts w + (if _driverInitAttempted w then 0 else 1).

(** The same for the client of [graphdb.js], which connects only while
    it holds no driver object. *)
Definition attemptBudgetJs (w : World) : nat :=
  attempts w + (if _driver w then 0 else 1).

Definition withinBudget (w w1 : World) : Prop :=
  attemptBudget w1 <= attemptBudget w.

(** For the client of [graphdb.js] the budget is kept while every
    connection attempt gets its driver object. *)
Definition withinBudgetJs (w w1 : World) : Prop :=
  constructs w1 = constructs w
  /\ ((forall n, constructs w n = true) ->
      attemptBudgetJs w1 <= attemptBudgetJs w).

(** The nodes that a statement merges, whatever the graph; a refused
    statement merges none. *)
Definition mergedNodes (s : Cypher.Stmt) : list Store.NodeRef :=
  match s with
  | Cypher.CreateExtractionNode ex sessionId artifactId =>
      ((Store.LExtraction, extractionId ex)
         :: match sessionId with
            | Some sid => [(Store.LSession, sid)]
            | None => []
            end
         ++ match artifactId with
            | Some aid => [(Store.LArtifact, aid)]
            | None => []
            end)%list
  | Cypher.UpsertConcept name _ => [(Store.LConcept, name)]
  | Cypher.UpsertStyleRule ruleId _ _ _ _ _ _ => [(Store.LStyleRule, ruleId)]
  | Cypher.MergeUser userId => [(Store.LUser, userId)]
  | Cypher.MergeSession sessionId _ => [(Store.LSession, sessionId)]
  | Cypher.MergeArtifact artifactId _ _ => [(Store.LArtifact, artifactId)]
  | Cypher.MergeExtraction extractionId _ => [(Store.LExtraction, extractionId)]
  | Cypher.LinkArtifact extractionId artifactId => [(Store.LArtifact, artifactId)]
  | Cypher.MergeConcept name _ => [(Store.LConcept, name)]
  | Cypher.MergeRelation source target _ _ =>
      [(Store.LConcept, source); (Store.LConcept, target)]
  | Cypher.InsertRule ruleId _ _ _ _ _ _ _ => [(Store.LStyleRule, ruleId)]
  | _ => []
  end.

(** From [w] to [w1] only nodes in [P] have appeared. *)
Definition onlyNew (P : Store.NodeRef -> Prop) (w w1 : World) : Prop :=
  forall r, is_Some (Store.nodes (graph w1) !! r) ->
            is_Some (Store.nodes (graph w) !! r) \/ P r.

(** The same for the runs of [m] that start in a world in [P]. *)
Definition keepsFrom {A} (P : World -> Prop) (R : World -> World -> Prop)
           (m : M A) : Prop :=
  forall w, P w -> R w (m w).2.

(** The node is not a User node. *)
Definition notUser (r : Store.NodeRef) : Prop := r.1 <> Store.LUser.

(** ** Runs on a store that answers *)

(** From every world in [P] the program [m] returns, with a value and a
    world in [Q]. *)
Definition succeeds {A} (P : World -> Prop) (m : M A)
           (Q : A -> World -> Prop) : Prop :=
  forall w, P w -> exists a w1, m w = (Ok a, w1) /\ Q a w1.

(** The client of [graphdb.ts] over a store that can be reached and
    has no failure of its own: the mode is not OFF, and the driver is
    held or the next connection attempt gets its driver object and
    succeeds. *)
Definition healthy (w : World) : Prop :=
  GraphDb.getGraphRAGMode w <> OFF
  /\ (forall n, failing w n = false)
  /\ (if _driverInitAttempted w then _driver w = true
      else constructs w (attempts w) = true
           /\ reachable w (attempts w) = true).

Definition nodeExists (r : Store.NodeRef) (g : Store.Graph) : Prop :=
  is_Some (Store.nodes g !! r).

Definition provenanced (r : Store.NodeRef) (g : Store.Graph) : Prop :=
  hasProvenance g r = true.

(** What [getDriver] of [graphdb.ts] hands back in OPTIONAL mode. *)
Definition driverAvailable (w : World) : bool :=
  if _driverInitAttempted w then _driver w
  else constructs w (attempts w) && reachable w (attempts w).

(** A Concept, StyleRule or Extraction node: what only a write of
    extracted facts creates. *)
Definition factNode (r : Store.NodeRef) : Prop :=
  r.1 = Store.LConcept \/ r.1 = Store.LStyleRule \/ r.1 = Store.LExtraction.

(** What the statements of one call of [writeToGraph] rely on: the
    Extraction node of the call and, when it was there at the start, the
    User node. *)
Definition anchored (exId userId : string) (userKnown : Prop) (g : Store.Graph)
  : Prop :=
  nodeExists (Store.LExtraction, exId) g
  /\ (userKnown -> nodeExists (Store.LUser, userId) g).

Definition steadyCall (exId userId : string) (userKnown : Prop) (w : World)
  : Prop :=
  healthy w /\ anchored exId userId userKnown (graph w).

(** ** The read path *)

(** Every value that [m] returns is in [Q]. *)
Definition results {A} (m : M A) (Q : A -> Prop) : Prop :=
  forall w a w1, m w = (Ok a, w1) -> Q a.

(** The limits that a call of [buildGraphContext] works with. *)
Definition nodeLimit (config : GraphRagRead.Limits)
           (params : GraphRagRead.BuildGraphContextParams) : Z :=
  default (GraphRagRead.maxNodes config) (GraphRagRead.b_maxNodes params).

Definition edgeLimit (config : GraphRagRead.Limits)
           (params : GraphRagRead.BuildGraphContextParams) : Z :=
  default (GraphRagRead.maxEdges config) (GraphRagRead.b_maxEdges params).

(** A context within the limits [mn] and [me], when they are not
    negative, and without two entities of one id. *)
Definition boundedContext (mn me : Z) (ctx : option GraphContext) : Prop :=
  match ctx with
  | None => True
  | Some c =>
      NoDup (map ge_id (ctx_entities c))
      /\ ((0 <= mn)%Z -> (Z.of_nat (length (ctx_entities c)) <= mn)%Z)
      /\ ((0 <= me)%Z -> (Z.of_nat (length (ctx_relations c)) <= me)%Z)
  end.

(** The client of [graphdb.js] in a mode other than OFF and REQUIRED,
    over a store that rejects every statement. *)
Definition rejecting (w : World) : Prop :=
  GraphDbJs.getGraphRAGMode w <> "OFF"
  /\ GraphDbJs.getGraphRAGMode w <> "REQUIRED"
  /\ (forall n, failing w n = true)
  /\ (forall c, _config w = Some c -> cfg_mode c <> "REQUIRED").

Definition emptyContext : GraphContext := MkGraphContext [] [] [] [].

(** What [buildGraphContext] returns over a store that rejects every
    statement. *)
Definition degradedContext (promptText : string)
           (artifactContent : option string) : option GraphContext :=
  if length (GraphRagRead.extractEntityNamesFromText promptText artifactContent)
     =? 0
  then None else Some emptyContext.

(** Sample answers of the store: two concepts and two neighbours. *)
Definition sampleAnswers : GraphRagRead.Answers :=
  GraphRagRead.MkAnswers
    (fun _ => [ GraphRagRead.MkConceptRecord "mars" "id1" ∅;
                GraphRagRead.MkConceptRecord "ceres" "id2" ∅ ])
    (fun _ => [ GraphRagRead.MkNeighborRecord "mars" "id1" "RELATED_TO" ∅
                  "id2" (Some ["Concept"]) ∅;
                GraphRagRead.MkNeighborRecord "mars" "id1" "MENTIONS" ∅
                  "id3" None ∅ ])
    (fun _ => []) (fun _ => []).

Definition sampleRead : GraphRagRead.BuildGraphContextParams :=
  GraphRagRead.MkBuildParams "user-1" "session-1" "About Mars" None
                             (Some 2%Z) None.

Definition sampleLimits : GraphRagRead.Limits := GraphRagRead.MkLimits 50 100.

(** Messages of an assistant only: nothing is extracted from them. *)
Definition assistantOnly : WriteToGraphParams :=
  MkParams "user-1" "session-1" None
           [MkMessage "assistant" "I prefer Atlas over Borealis in any case."].

(** The process with the environment variable GRAPHRAG_MODE set to
    [value]. *)
Definition withMode (value : option string) (w : World) : World :=
  MkWorld value (env_GRAPHRAG_CONTRADICTION_STRATEGY w) (reachable w)
          (failing w) (_driver w) (_driverInitAttempted w) (_config w)
          (_schemaInitialized w) (attempts w) (sent w) (graph w) (now w)
          (uuids w) (constructs w).

(** A renderer of numbers and values for the sample runs. *)
Definition plain {A} (x : A) : string := "?".

(** ** Active rules and their texts *)

(** Every StyleRule node that is active has a rule text: the test of
    [detectAndRecordContradictions] can read [existingRule] of every row
    that its query returns. *)
Definition texted (g : Store.Graph) : Prop :=
  forall id ps,
    Store.nodes g !! (Store.LStyleRule, id) = Some ps ->
    ps !! "active" = Some (Store.VBool true) ->
    exists text, ps !! "rule" = Some (Store.VStr text).

(** The client of [graphdb.js] holds a driver over a store that accepts
    every statement, and every active rule of the graph has its text. *)
Definition steadyJs (w : World) : Prop :=
  connected w /\ texted (graph w).

(** The statement that inserts the rule [rule] under the id [ruleId]. *)
Definition insertionOf (userId extractionId : string)
           (rule : ExtractedStyleRule) (ruleId : string) : Cypher.Stmt :=
  Cypher.InsertRule ruleId (sr_rule rule) (scopeName (sr_scope rule))
    (markerName (sr_temporalMarker rule))
    (default (1 # 2)%Q (sr_confidence rule))
    (default false (sr_strict rule)) userId extractionId.

(** The rule was inserted by a statement of the log and its node has a
    provenance pointer. *)
Definition ruleStored (userId : string) (rule : ExtractedStyleRule)
           (w : World) : Prop :=
  exists extractionId ruleId,
    In (insertionOf userId extractionId rule ruleId) (sent w)
    /\ provenanced (Store.LStyleRule, ruleId) (graph w).

(** A row of the query for the active rules that carries a rule text. *)
Definition hasRuleText (record : Store.Props) : Prop :=
  exists text, rowString record "rule" = Some text.

(** What the statements of one call of [extractAndWriteToGraph] rely on
    once the extraction is recorded: a connected client, texts on the
    active rules, and the User node and the Extraction node of the
    call. *)
Definition steadyWrite (userId exId : string) (w : World) : Prop :=
  steadyJs w
  /\ nodeExists (Store.LUser, userId) (graph w)
  /\ nodeExists (Store.LExtraction, exId) (graph w).

(** A human message with an entity and a preference. *)
Definition formalAtlas : WriteToGraphParams :=
  humanSays "I prefer a formal tone when we discuss Atlas.".

(** A graph that holds a user, an extraction and one active rule that
    the user prefers. *)
Definition ruledGraph : Store.Graph :=
  (Cypher.exec
     (Cypher.InsertRule "rule-1" "use a formal tone" "global" "current"
        (7 # 10)%Q false "user-1" "ex-1") 2
     (Cypher.exec (Cypher.MergeExtraction "ex-1" "use a formal tone") 1
        (Cypher.exec (Cypher.MergeUser "user-1") 0 Store.emptyGraph).1).1).1.

(** A fresh process in OPTIONAL mode whose driver module cannot be
    loaded; the store itself would answer. *)
Definition noDriverModule : World :=
  MkWorld (Some "OPTIONAL") None (always true) (always false) false false
          None false 0 [] Store.emptyGraph 0 0 (always false).

(** ** Relations between concepts *)

(** The statement of the second listing that merges a [RELATED_TO]
    relationship. *)
Definition mergesRelation (s : Cypher.Stmt) : bool :=
  match s with
  | Cypher.MergeRelation _ _ _ _ => true
  | _ => false
  end.

(** From [w] to [w1] no [RELATED_TO] relationship has been added. *)
Definition noNewRelation (w w1 : World) : Prop :=
  Store.countEdges Store.RELATED_TO (graph w1)
  <= Store.countEdges Store.RELATED_TO (graph w).

(* ================================================================== *)
(** * Strings: containment and words *)
(* ================================================================== *)

Section StringFacts.

Lemma append_cons (c : ascii) (p q : string) :
  (String c p ++ q)%string = String c (p ++ q)%string.
Proof. reflexivity. Qed.

Lemma prefix_app (p s : string) :
  String.prefix p s = true <-> exists post, s = (p ++ post)%string.
Proof.
  revert s. induction p as [|c p IH]; intros s.
  - simpl. split; [intros _; exists s; reflexivity | destruct s; reflexivity].
  - destruct s as [|d s]; simpl.
    + split; [discriminate | intros [post H]; discriminate].
    + destruct (Ascii.ascii_dec c d) as [->|Hne].
      * rewrite IH. split; intros [post H]; exists post;
          [rewrite append_cons; congruence
          | rewrite append_cons in H; congruence].
      * split; [discriminate
               | intros [post H]; rewrite append_cons in H; congruence].
Qed.

(** [includes] decides containment. *)
Lemma includes_spec (hay needle : string) :
  Js.includes hay needle = true <-> containsText hay needle.
Proof.
  induction hay as [|c hay IH].
  - cbn [Js.includes]. rewrite orb_false_r, prefix_app. split.
    + intros [post H]. exists "", post. exact H.
    + intros (pre & post & H). destruct pre.
      * exists post. exact H.
      * rewrite append_cons in H. discriminate.
  - cbn [Js.includes]. rewrite orb_true_iff, prefix_app, IH. split.
    + intros [[post H] | (pre & post & H)].
      * exists "", post. exact H.
      * exists (String c pre), post. rewrite append_cons. congruence.
    + intros (pre & post & H). destruct pre as [|d pre].
      * left. exists post. exact H.
      * right. exists pre, post. rewrite append_cons in H. congruence.
Qed.

Lemma chars_length (s : string) : length (Js.chars s) = String.length s.
Proof.
  unfold Js.chars. induction s as [|c rest IH]; simpl;
    [reflexivity | rewrite IH; reflexivity].
Qed.

Lemma str_chars (s : string) : Js.str (Js.chars s) = s.
Proof. apply string_of_list_ascii_of_string. Qed.

Lemma str_inj (a b : list ascii) : Js.str a = Js.str b -> a = b.
Proof.
  unfold Js.str. intros H.
  rewrite <- (list_ascii_of_string_of_list_ascii a),
          <- (list_ascii_of_string_of_list_ascii b), H. reflexivity.
Qed.

Lemma noSpace_cons (c : ascii) (l : list ascii) :
  noSpace (c :: l) <-> Js.isSpace c = false /\ noSpace l.
Proof.
  unfold noSpace. simpl. rewrite andb_true_iff, negb_true_iff. tauto.
Qed.

Lemma spaceEnded_cons (c : ascii) (l : list ascii) :
  spaceEnded (c :: l) <-> (l = [] /\ Js.isSpace c = true) \/ spaceEnded l.
Proof.
  unfold spaceEnded. split.
  - intros (p & d & E & Hd). destruct p as [|x p]; simpl in E.
    + injection E as -> ->. left. auto.
    + injection E as -> ->. right. eauto.
  - intros [[-> Hc] | (p & d & -> & Hd)].
    + exists [], c. auto.
    + exists (c :: p), d. auto.
Qed.

Lemma spaceEnded_nil : ~ spaceEnded [].
Proof. intros (p & c & E & _). destruct p; discriminate. Qed.

(** The pieces that [splitGo] returns, by induction on the text left. *)
Lemma splitGo_pieces (l : list ascii) :
  forall (cur : list ascii) (inWs : bool) (w : list ascii),
    w <> [] -> (inWs = true -> cur = []) ->
    (In (Js.str w) (Js.splitGo cur inWs l) <-> pieceOf cur l w).
Proof.
  induction l as [|c r IH]; intros cur inWs w Hw Hinv.
  - simpl. unfold pieceOf. split.
    + intros [H | []]. apply str_inj in H. left.
      exists [], []. repeat split; [left; reflexivity|].
      rewrite app_nil_r. congruence.
    + intros [(t & post & E & _ & _ & ->) | (pre & post & E & _ & Hp & _)].
      * symmetry in E. apply app_eq_nil in E as [-> ->].
        rewrite app_nil_r. left. reflexivity.
      * symmetry in E. apply app_eq_nil in E as [-> _].
        destruct (spaceEnded_nil Hp).
  - simpl. destruct (Js.isSpace c) eqn:Ec.
    + (* a space: the piece under construction ends here *)
      assert (Later : pieceOf [] r w <->
                      exists pre post, c :: r = (pre ++ w ++ post)%list /\ noSpace w
                                       /\ spaceEnded pre /\ spaceStarted post).
      { unfold pieceOf. split.
        - intros [(t & post & E & Ht & Hp & ->) | (pre & post & E & Hn & Hpre & Hp)].
          + exists [c], post. simpl. repeat split; try assumption.
            * simpl in *. congruence.
            * exists [], c. auto.
          + exists (c :: pre), post. repeat split; try assumption.
            * simpl. congruence.
            * apply spaceEnded_cons. right. exact Hpre.
        - intros (pre & post & E & Hn & Hpre & Hp).
          destruct pre as [|d pre]; [destruct (spaceEnded_nil Hpre)|].
          simpl in E. injection E as <- E.
          apply spaceEnded_cons in Hpre as [[-> _] | Hpre].
          + left. exists w, post. simpl in E. auto.
          + right. exists pre, post. auto. }
      assert (Now : (exists t post, c :: r = (t ++ post)%list /\ noSpace t
                                    /\ spaceStarted post /\ w = (rev cur ++ t)%list)
                    <-> w = rev cur).
      { split.
        - intros (t & post & E & Ht & _ & ->).
          destruct t as [|d t]; [apply app_nil_r|].
          simpl in E. injection E as <- _. apply noSpace_cons in Ht as [Ht _]. congruence.
        - intros ->. exists [], (c :: r). repeat split.
          + right. eauto.
          + symmetry. apply app_nil_r. }
      destruct inWs.
      * rewrite (IH [] true w Hw (fun _ => eq_refl)), Later.
        unfold pieceOf. rewrite Now. rewrite (Hinv eq_refl). simpl.
        split; [tauto|]. intros [H | H]; [congruence | exact H].
      * simpl. rewrite (IH [] true w Hw (fun _ => eq_refl)), Later.
        unfold pieceOf. rewrite Now. split.
        -- intros [H | H]; [left; apply str_inj; congruence | right; exact H].
        -- intros [H | H]; [left; congruence | right; exact H].
    + (* not a space: the piece under construction grows *)
      rewrite (IH (c :: cur) false w Hw) by discriminate.
      unfold pieceOf. split.
      * intros [(t & post & -> & Ht & Hp & ->) | (pre & post & -> & Hn & Hpre & Hp)].
        -- left. exists (c :: t), post. repeat split; try assumption.
           ++ apply noSpace_cons. auto.
           ++ simpl. rewrite <- app_assoc. reflexivity.
        -- right. exists (c :: pre), post. repeat split; try assumption.
           apply spaceEnded_cons. right. exact Hpre.
      * intros [(t & post & E & Ht & Hp & ->) | (pre & post & E & Hn & Hpre & Hp)].
        -- destruct t as [|d t].
           ++ simpl in E. subst post. destruct Hp as [H | (d & q & [= <- <-] & Hd)];
                [discriminate | congruence].
           ++ simpl in E. injection E as <- ->.
              apply noSpace_cons in Ht as [_ Ht].
              left. exists t, post. repeat split; try assumption.
              simpl. rewrite <- app_assoc. reflexivity.
        -- destruct pre as [|d pre]; [destruct (spaceEnded_nil Hpre)|].
           simpl in E. injection E as <- ->.
           apply spaceEnded_cons in Hpre as [[-> Hd] | Hpre]; [congruence|].
           right. exists pre, post. auto.
Qed.

(** The non-empty pieces of [split(/\s+/)] are the words of the text. *)
Lemma splitWs_words (text w : string) :
  w <> "" -> (In w (Js.splitWs text) <-> wordOf text w).
Proof.
  intros Hw. unfold Js.splitWs, wordOf.
  assert (Hc : Js.chars w <> []).
  { intros E. apply Hw. rewrite <- (str_chars w), E. reflexivity. }
  rewrite <- (str_chars w) at 1.
  rewrite (splitGo_pieces (Js.chars text) [] false (Js.chars w) Hc) by discriminate.
  unfold pieceOf. simpl. split.
  - intros [(t & post & E & Ht & Hp & Et) | (pre & post & E & Hn & Hpre & Hp)].
    + exists [], post. simpl. rewrite Et in *. repeat split; auto.
    + exists pre, post. repeat split; auto.
  - intros (pre & post & E & _ & Hn & [-> | Hpre] & Hp).
    + left. exists (Js.chars w), post. repeat split; auto.
    + right. exists pre, post. repeat split; auto.
Qed.

End StringFacts.

(* ================================================================== *)
(** * The matcher moves forward *)
(* ================================================================== *)

Section MatcherFacts.
Import Regex.

(** Every successful run hands the continuation a position that is not
    before the start, and strictly after it when the pattern consumes. *)
Lemma run_advances (s : list ascii) (r : re) :
  forall (k : mstate -> option mstate) (st res : mstate),
    run s r k st = Some res ->
    exists st', pos st + (if consumes r then 1 else 0) <= pos st'
                /\ k st' = Some res.
Proof.
  induction r as [p | a IHa b IHb | a IHa b IHb | a IHa | a IHa | a IHa | | ];
    intros k st res H; simpl in H.
  - destruct (nth_error s (pos st)) as [c|]; [|discriminate].
    destruct (p c); [|discriminate].
    eexists. split; [|exact H]. simpl. lia.
  - apply IHa in H as (st1 & L1 & H). apply IHb in H as (st2 & L2 & H).
    exists st2. split; [|exact H]. simpl.
    destruct (consumes a), (consumes b); simpl in *; lia.
  - simpl. unfold orElse in H.
    destruct (run s a k st) eqn:E.
    + injection H as ->. apply IHa in E as (st1 & L1 & E).
      exists st1. split; [|exact E].
      destruct (consumes a), (consumes b); simpl in *; lia.
    + apply IHb in H as (st1 & L1 & H).
      exists st1. split; [|exact H].
      destruct (consumes a), (consumes b); simpl in *; lia.
  - simpl. rewrite Nat.add_0_r. revert st H. generalize (length s) as n.
    induction n as [|n IHn]; intros st H.
    + exists st. split; [lia | exact H].
    + unfold orElse in H.
      destruct (run s a _ st) eqn:E.
      * injection H as ->. apply IHa in E as (st1 & L1 & E).
        destruct (pos st1 <=? pos st) eqn:Ep; [discriminate|].
        apply Nat.leb_gt in Ep. apply IHn in E as (st2 & L2 & E).
        exists st2. split; [lia | exact E].
      * exists st. split; [lia | exact H].
  - simpl. rewrite Nat.add_0_r. revert st H. generalize (length s) as n.
    induction n as [|n IHn]; intros st H.
    + exists st. split; [lia | exact H].
    + unfold orElse in H.
      destruct (k st) eqn:Ek.
      * injection H as ->. exists st. split; [lia | exact Ek].
      * apply IHa in H as (st1 & L1 & H).
        destruct (pos st1 <=? pos st) eqn:Ep; [discriminate|].
        apply Nat.leb_gt in Ep. apply IHn in H as (st2 & L2 & H).
        exists st2. split; [lia | exact H].
  - apply IHa in H as (st1 & L1 & H). eexists. split; [|exact H]. exact L1.
  - destruct (atBoundary s (pos st)); [|discriminate].
    exists st. split; [simpl; lia | exact H].
  - destruct (pos st =? length s); [|discriminate].
    exists st. split; [simpl; lia | exact H].
Qed.

Lemma matchAt_bounds (s : list ascii) (r : re) (i : nat) (m : mres) :
  matchAt s r i = Some m ->
  mstart m = i /\ i + (if consumes r then 1 else 0) <= mend m.
Proof.
  unfold matchAt.
  destruct (run s r Some (MState i None)) as [st|] eqn:E; [|discriminate].
  intros [= <-]. apply run_advances in E as (st1 & L & [= ->]).
  simpl in *. auto.
Qed.

Lemma search_bounds (s : list ascii) (r : re) (n i : nat) (m : mres) :
  search s r n i = Some m -> i + (if consumes r then 1 else 0) <= mend m.
Proof.
  revert i. induction n as [|n IH]; intros i; simpl;
    destruct (matchAt s r i) eqn:E.
  - intros [= ->]. apply matchAt_bounds in E. lia.
  - discriminate.
  - intros [= ->]. apply matchAt_bounds in E. lia.
  - intros H. apply IH in H. lia.
Qed.

(** With a pattern that consumes input every round moves [lastIndex]
    forward, so the loop stops by a failed [exec], never for lack of
    rounds: one more round gives the same matches. *)
Lemma execLoop_enough (s : list ascii) (r : re) :
  consumes r = true ->
  forall fuel lastIndex,
    length s < lastIndex + fuel ->
    execLoop s r (S fuel) lastIndex = execLoop s r fuel lastIndex.
Proof.
  intros Hc. induction fuel as [|fuel IH]; intros lastIndex Hl.
  - simpl. unfold exec.
    replace (length s <? lastIndex) with true
      by (symmetry; apply Nat.ltb_lt; lia).
    reflexivity.
  - change (execLoop s r (S (S fuel)) lastIndex)
      with (match exec s r lastIndex with
            | None => []
            | Some m => m :: execLoop s r (S fuel) (mend m)
            end).
    change (execLoop s r (S fuel) lastIndex)
      with (match exec s r lastIndex with
            | None => []
            | Some m => m :: execLoop s r fuel (mend m)
            end).
    destruct (exec s r lastIndex) as [m|] eqn:E; [|reflexivity].
    f_equal. apply IH. unfold exec in E.
    destruct (length s <? lastIndex); [discriminate|].
    apply search_bounds in E. rewrite Hc in E. lia.
Qed.

(** [execAll] is the whole loop: any larger number of rounds returns the
    same list of matches. *)
Lemma execAll_total (r : re) (content : string) (extra : nat) :
  consumes r = true ->
  execLoop (Js.chars content) r (S (String.length content) + extra) 0
  = execAll r content.
Proof.
  intros Hc. unfold execAll. induction extra as [|extra IH].
  - rewrite Nat.add_0_r. reflexivity.
  - rewrite <- IH. rewrite Nat.add_succ_r. apply execLoop_enough; [exact Hc|].
    rewrite chars_length. lia.
Qed.

(** Every pattern of the Extractor consumes input. *)
Lemma patterns_consume :
  Forall (fun r => consumes r = true)
         (Extractor.preferencePatterns ++ Extractor.conceptPatterns).
Proof. repeat constructor. Qed.

End MatcherFacts.

(* ================================================================== *)
(** * The Extractor *)
(* ================================================================== *)

Section ExtractorFacts.
Import Regex Extractor.

Lemma ruleOfMatch_cases (content : string) (m : mres) :
  let n := String.length (matchText content m) in
  (10 < n /\ n < 200 /\ ruleOfMatch content m = [ruleFor (matchText content m)])
  \/ (~ (10 < n /\ n < 200) /\ ruleOfMatch content m = []).
Proof.
  unfold ruleOfMatch, matchText, ruleFor.
  destruct (10 <? _) eqn:E1; destruct (_ <? 200) eqn:E2; simpl;
    rewrite ?Nat.ltb_lt, ?Nat.ltb_ge in *; [left | right..];
    repeat split; try lia; auto.
Qed.

Lemma rulesOfContent_In (content : string) (r : ExtractedStyleRule) :
  In r (rulesOfContent content)
  <-> exists m, preferenceMatch content m /\ In r (ruleOfMatch content m).
Proof.
  unfold rulesOfContent, preferenceMatch. rewrite in_flat_map. split.
  - intros (p & Hp & H). apply in_flat_map in H as (m & Hm & H). eauto.
  - intros (m & (p & Hp & Hm) & H). exists p. split; [exact Hp|].
    apply in_flat_map. eauto.
Qed.

(** C8, as the code has it: a preference-phrase match is retained as a
    style-rule candidate if and only if the length of its trimmed text is
    strictly greater than 10 and strictly less than 200, that is, lies in
    [11,200). *)
Theorem C8_retained_iff_length (content : string) (m : mres) :
  preferenceMatch content m ->
  (retained content m
   <-> 10 < String.length (matchText content m)
       /\ String.length (matchText content m) < 200).
Proof.
  intros Hm. unfold retained. rewrite rulesOfContent_In. split.
  - intros (m' & _ & Hin).
    destruct (ruleOfMatch_cases content m') as [(H1 & H2 & E) | (_ & E)];
      rewrite E in Hin; [|destruct Hin].
    destruct Hin as [Heq | []].
    assert (Ht : matchText content m' = matchText content m)
      by (apply (f_equal sr_rule) in Heq; exact Heq).
    rewrite <- Ht. split; assumption.
  - intros [H1 H2]. exists m. split; [exact Hm|].
    destruct (ruleOfMatch_cases content m) as [(_ & _ & E) | (Hn & _)];
      [rewrite E; left; reflexivity | exfalso; apply Hn; split; assumption].
Qed.

(** The theorem at the text [I like cats], whose only match has eleven
    characters. *)
Lemma C8_retained_witness :
  preferenceMatch "I like cats" (MRes 0 11 (Some (7, 11)))
  /\ (retained "I like cats" (MRes 0 11 (Some (7, 11)))
      <-> 10 < String.length (matchText "I like cats" (MRes 0 11 (Some (7, 11))))
          /\ String.length (matchText "I like cats" (MRes 0 11 (Some (7, 11)))) < 200).
Proof.
  assert (H : preferenceMatch "I like cats" (MRes 0 11 (Some (7, 11)))).
  { exists prefPattern1. split; [left; reflexivity|].
    vm_compute. left. reflexivity. }
  split; [exact H | apply (C8_retained_iff_length "I like cats" _ H)].
Defined.

(** C8, as the specification has it, fails: in the text [I like cat] the
    first preference pattern matches the whole text, ten characters long
    after trimming, and no style rule is extracted. *)
Lemma C8_length_ten_dropped :
  preferenceMatch "I like cat" (MRes 0 10 (Some (7, 10)))
  /\ String.length (matchText "I like cat" (MRes 0 10 (Some (7, 10)))) = 10
  /\ rulesOfContent "I like cat" = []
  /\ ~ retained "I like cat" (MRes 0 10 (Some (7, 10))).
Proof.
  assert (E : rulesOfContent "I like cat" = []) by (vm_compute; reflexivity).
  split; [|split; [|split]].
  - exists prefPattern1. split; [left; reflexivity|].
    vm_compute. left. reflexivity.
  - vm_compute. reflexivity.
  - exact E.
  - unfold retained. rewrite E. intros [].
Qed.

(** The accumulators after the loop over the messages: only the turns
    with role [human] or [user] have been read. *)
Lemma fold_step (msgs : list Message) (a : acc) :
  fold_left step msgs a =
  let hs := List.filter (fun msg => isHumanRole (role msg)) msgs in
  MkAcc (a_entities a ++ flat_map (fun msg => entitiesOfContent (content msg)) hs)
        (a_styleRules a ++ flat_map (fun msg => rulesOfContent (content msg)) hs)
        (a_snippets a ++ map (fun msg => Js.slice 0 200 (content msg)) hs).
Proof.
  revert a. induction msgs as [|msg msgs IH]; intros a; simpl.
  - rewrite !app_nil_r. destruct a; reflexivity.
  - rewrite IH. unfold step at 1 2 3.
    destruct (isHumanRole (role msg)); simpl; [|reflexivity].
    rewrite <- !app_assoc. reflexivity.
Qed.

Lemma mapSet_In (name : string) (m : list (string * ExtractedEntity))
      (k : string) (v : ExtractedEntity) :
  (forall k' v', In (k', v') m -> v' = MkEntity k' EtConcept) ->
  In (k, v) (mapSet name (MkEntity name EtConcept) m)
  <-> In (k, v) m \/ (k, v) = (name, MkEntity name EtConcept).
Proof.
  induction m as [|[k0 v0] m IH]; intros Hinv; simpl.
  - split; [intros [H | []]; right; congruence
           | intros [[] | H]; left; congruence].
  - destruct (String.eqb k0 name) eqn:E.
    + apply String.eqb_eq in E. subst k0.
      assert (v0 = MkEntity name EtConcept) by (apply Hinv; left; reflexivity).
      subst v0. simpl. split; [tauto|].
      intros [H | H]; [exact H | left; congruence].
    + simpl. rewrite IH by (intros; apply Hinv; right; assumption). tauto.
Qed.

Lemma uniqueEntities_fold (l : list ExtractedEntity)
      (m : list (string * ExtractedEntity)) :
  Forall conceptOnly l ->
  (forall k v, In (k, v) m -> v = MkEntity k EtConcept) ->
  let m' := fold_left (fun m e => mapSet (ent_name e) e m) l m in
  (forall k v, In (k, v) m' -> v = MkEntity k EtConcept)
  /\ (forall e, In e (map snd m') <-> In e (map snd m) \/ In e l).
Proof.
  revert m. induction l as [|e l IH]; intros m Hl Hm; simpl.
  - split; [exact Hm | intros; tauto].
  - inversion Hl as [|? ? He Hl']; subst.
    destruct e as [n t]. unfold conceptOnly in He. simpl in He.
    injection He as ->. simpl.
    assert (Hm1 : forall k v, In (k, v) (mapSet n (MkEntity n EtConcept) m)
                              -> v = MkEntity k EtConcept).
    { intros k v H. apply mapSet_In in H; [|exact Hm].
      destruct H as [H | H]; [apply Hm, H | congruence]. }
    destruct (IH _ Hl' Hm1) as [I1 I2]. split; [exact I1|].
    intros x. rewrite I2. rewrite !in_map_iff. split.
    + intros [([k v] & Hs & H) | H]; [|tauto]. simpl in Hs. subst v.
      apply mapSet_In in H; [|exact Hm].
      destruct H as [H | H].
      * left. exists (k, x). split; [reflexivity | exact H].
      * right. left. congruence.
    + intros [([k v] & Hs & H) | [H | H]]; [| |tauto].
      * left. exists (k, v). split; [exact Hs|].
        apply mapSet_In; [exact Hm | left; exact H].
      * left. exists (n, MkEntity n EtConcept). split; [exact H|].
        apply mapSet_In; [exact Hm|]. right. reflexivity.
Qed.

(** Deduplication by name keeps exactly the entities it was given. *)
Lemma uniqueEntities_In (l : list ExtractedEntity) (e : ExtractedEntity) :
  Forall conceptOnly l -> (In e (uniqueEntities l) <-> In e l).
Proof.
  intros Hl. unfold uniqueEntities.
  destruct (uniqueEntities_fold l [] Hl) as [_ H]; [intros k v []|].
  rewrite H. simpl. tauto.
Qed.

Lemma entitiesOfContent_concept (c : string) :
  Forall conceptOnly (entitiesOfContent c).
Proof.
  apply List.Forall_forall. intros e H. unfold entitiesOfContent in H.
  apply in_flat_map in H as (p & _ & H). apply in_flat_map in H as (m & _ & H).
  unfold entityOfMatch in H.
  destruct (_ && _) in H; [|destruct H]. destruct H as [<- | []]. reflexivity.
Qed.

(** C7, as the code has it: only the turns whose role is [human] or
    [user] contribute, to the entity candidates as well as to the
    style-rule candidates. The extracted entities are exactly the
    candidate names found in those turns, the extracted style rules are
    exactly the candidates found in those turns, and a turn of any other
    role contributes nothing. *)
Theorem C7_only_human_turns_contribute (params : WriteToGraphParams) :
  let result := extractFromMessages params in
  (forall e, In e (ex_entities result)
             <-> exists msg, In msg (humanTurns params)
                             /\ In e (entitiesOfContent (content msg)))
  /\ (forall r, In r (ex_styleRules result)
                <-> exists msg, In msg (humanTurns params)
                                /\ In r (rulesOfContent (content msg))).
Proof.
  unfold extractFromMessages, humanTurns. rewrite fold_step. simpl. split.
  - intros e. rewrite uniqueEntities_In.
    + rewrite in_flat_map. tauto.
    + apply List.Forall_forall. intros x Hx.
      apply in_flat_map in Hx as (msg & _ & Hx).
      pose proof (entitiesOfContent_concept (content msg)) as Hc.
      rewrite List.Forall_forall in Hc. apply Hc, Hx.
  - intros r. rewrite in_flat_map. tauto.
Qed.

(** C7, as the specification has it, fails: the assistant-authored turn
    [Project Atlas] contains a capitalized-word run that passes the
    filters, and the Extractor returns no entity. *)
Lemma C7_assistant_entities_dropped :
  let params :=
    MkParams "user-1" "session-1" None [MkMessage "assistant" "Project Atlas"] in
  In (MkEntity "project atlas" EtConcept) (entitiesOfContent "Project Atlas")
  /\ ex_entities (extractFromMessages params) = []
  /\ ~ In (MkEntity "project atlas" EtConcept)
          (ex_entities (extractFromMessages params)).
Proof.
  assert (E : ex_entities (extractFromMessages
                (MkParams "user-1" "session-1" None
                          [MkMessage "assistant" "Project Atlas"])) = [])
    by (vm_compute; reflexivity).
  cbv zeta. rewrite E. split; [|split].
  - vm_compute. left. reflexivity.
  - reflexivity.
  - intros [].
Qed.

End ExtractorFacts.

(* ================================================================== *)
(** * Contradiction detection *)
(* ================================================================== *)

Section ContradictionFacts.
Import Extractor Contradiction.

Lemma length_empty_string (w : string) : 3 < String.length w -> w <> "".
Proof. intros H ->. simpl in H. lia. Qed.

Lemma significantWords_spec (text w : string) :
  w ∈ significantWords (Js.toLowerCase text) <-> contentWord text w.
Proof.
  unfold significantWords, contentWord, isCommon.
  rewrite elem_of_list_to_set, list_elem_of_In, filter_In.
  rewrite andb_true_iff, Nat.ltb_lt, negb_true_iff, bool_decide_eq_false.
  split.
  - intros (H1 & H2 & H3). repeat split; try assumption.
    apply splitWs_words; [apply length_empty_string, H2 | exact H1].
  - intros (H1 & H2 & H3). repeat split; try assumption.
    apply splitWs_words; [apply length_empty_string, H2 | exact H1].
Qed.

Lemma overlap_spec (words1 words2 : gset string) :
  (0 <? length (List.filter (fun w => bool_decide (w ∈ words2))
                            (elements words1))) = true
  <-> exists w, w ∈ words1 /\ w ∈ words2.
Proof.
  rewrite Nat.ltb_lt. split.
  - intros H.
    destruct (List.filter _ _) as [|w r] eqn:E; [simpl in H; lia|].
    assert (Hin : In w (List.filter (fun w => bool_decide (w ∈ words2))
                                    (elements words1)))
      by (rewrite E; left; reflexivity).
    apply filter_In in Hin as [H1 H2].
    exists w. split.
    + apply elem_of_elements, list_elem_of_In, H1.
    + apply bool_decide_eq_true in H2. exact H2.
  - intros (w & H1 & H2).
    assert (Hin : In w (List.filter (fun w => bool_decide (w ∈ words2))
                                    (elements words1))).
    { apply filter_In. split.
      - apply list_elem_of_In, elem_of_elements, H1.
      - apply bool_decide_eq_true. exact H2. }
    destruct (List.filter _ _); [destruct Hin | simpl; lia].
Qed.

Lemma pairsLoop_spec (t1 t2 : string) (pairs : list (string * string)) :
  pairsLoop (Js.toLowerCase t1) (Js.toLowerCase t2) pairs = true
  <-> opposed t1 t2 pairs.
Proof.
  unfold opposed, mentions. induction pairs as [|[a b] rest IH]; simpl.
  - split; [discriminate | intros (a & b & [] & _)].
  - destruct ((Js.includes (Js.toLowerCase t1) a && Js.includes (Js.toLowerCase t2) b)
              || (Js.includes (Js.toLowerCase t1) b && Js.includes (Js.toLowerCase t2) a))
      eqn:E.
    + split; [intros _ | reflexivity].
      exists a, b. split; [left; reflexivity|].
      apply orb_true_iff in E.
      rewrite !andb_true_iff, !includes_spec in E. exact E.
    + rewrite IH. split.
      * intros (a' & b' & Hin & H). exists a', b'.
        split; [right; exact Hin | exact H].
      * intros (a' & b' & [Heq | Hin] & H).
        -- injection Heq as <- <-.
           rewrite <- !includes_spec, <- !andb_true_iff, <- orb_true_iff in H.
           congruence.
        -- exists a', b'. split; assumption.
Qed.

(** The table of the code holds the ten pairs of the specification, in
    its order. *)
Lemma opposingPairs_listed : opposingPairs = specPairs.
Proof. reflexivity. Qed.

(** C5: [detectSimpleContradiction] returns [true] if and only if (a) the
    new marker is [negated] and the two rule texts share a lowercased word
    longer than three characters that is not a stop word, or (b) for some
    pair of the opposing-keyword table one text contains one member and
    the other text contains the other member (on the lowercased texts);
    otherwise it returns [false]. *)
Theorem C5_detectSimpleContradiction_iff
        (newRule existingRule marker : string) :
  detectSimpleContradiction newRule existingRule marker = true
  <-> specContradiction newRule existingRule marker.
Proof.
  unfold detectSimpleContradiction, specContradiction.
  rewrite <- opposingPairs_listed.
  destruct (String.eqb marker "negated") eqn:Em.
  - apply String.eqb_eq in Em.
    destruct (0 <? _) eqn:Eo.
    + split; [intros _ | reflexivity]. left. split; [exact Em|].
      apply overlap_spec in Eo as (w & H1 & H2).
      exists w. rewrite <- !significantWords_spec. split; assumption.
    + rewrite pairsLoop_spec. split; [intros H; right; exact H|].
      intros [(_ & w & H1 & H2) | H]; [|exact H].
      exfalso.
      assert (Ht : (0 <? length
                      (List.filter
                         (fun w0 => bool_decide
                                      (w0 ∈ significantWords (Js.toLowerCase existingRule)))
                         (elements (significantWords (Js.toLowerCase newRule)))))
                   = true).
      { apply overlap_spec. exists w. rewrite !significantWords_spec.
        split; assumption. }
      congruence.
  - apply String.eqb_neq in Em. rewrite pairsLoop_spec.
    split; [intros H; right; exact H|].
    intros [(Hm & _) | H]; [contradiction | exact H].
Qed.

End ContradictionFacts.

(* ================================================================== *)
(** * Counting relationships in the store *)
(* ================================================================== *)

Section StoreFacts.
Import Store Cypher.

Lemma countEdges_app (ty : EdgeType) (n : gmap NodeRef Props)
      (l1 l2 : list Edge) :
  countEdges ty (MkGraph n (l1 ++ l2))
  = countEdges ty (MkGraph n l1) + countEdges ty (MkGraph n l2).
Proof.
  unfold countEdges, edgesOfType. simpl.
  rewrite List.filter_app, length_app. reflexivity.
Qed.

Lemma edgesOfType_retag (ty : EdgeType) (f : Edge -> Edge) (l : list Edge) :
  (forall e, e_type (f e) = e_type e) ->
  length (List.filter (fun e => bool_decide (e_type e = ty)) (map f l))
  = length (List.filter (fun e => bool_decide (e_type e = ty)) l).
Proof.
  intros Hf. induction l as [|e l IH]; simpl; [reflexivity|].
  rewrite Hf. destruct (bool_decide _); simpl; rewrite IH; reflexivity.
Qed.

(** A [MERGE] of a relationship adds at most one relationship, of its
    own type. *)
Lemma countEdges_mergeEdge (ty' ty : EdgeType) (src dst : NodeRef)
      (pat oc al : list (string * Value)) (g : Graph) :
  countEdges ty' (mergeEdge ty src dst pat oc al g)
  <= countEdges ty' g + (if bool_decide (ty = ty') then 1 else 0).
Proof.
  unfold mergeEdge. destruct (existsb _ _).
  - unfold countEdges, edgesOfType. simpl.
    rewrite edgesOfType_retag; [lia|].
    intros e. destruct (edgeMatches _ _ _ _ _); reflexivity.
  - destruct g as [n es]. simpl. rewrite countEdges_app.
    unfold countEdges at 2, edgesOfType. simpl.
    destruct (bool_decide (ty = ty')); simpl; lia.
Qed.

Lemma le_mergeNode (ty : EdgeType) (r : NodeRef)
      (oc om : list (string * Value)) (g : Graph) (m : nat) :
  countEdges ty g <= m -> countEdges ty (mergeNode r oc om g) <= m.
Proof. unfold mergeNode. destruct (nodes g !! r); auto. Qed.

Lemma le_setNode (ty : EdgeType) (r : NodeRef) (kvs : list (string * Value))
      (g : Graph) (m : nat) :
  countEdges ty g <= m -> countEdges ty (setNode r kvs g) <= m.
Proof. unfold setNode. destruct (nodes g !! r); auto. Qed.

Lemma le_mergeEdge_other (ty' ty : EdgeType) (src dst : NodeRef)
      (pat oc al : list (string * Value)) (g : Graph) (m : nat) :
  ty <> ty' -> countEdges ty' g <= m ->
  countEdges ty' (mergeEdge ty src dst pat oc al g) <= m.
Proof.
  intros Hne H. pose proof (countEdges_mergeEdge ty' ty src dst pat oc al g) as B.
  rewrite bool_decide_eq_false_2 in B by exact Hne. lia.
Qed.

Lemma le_mergeEdge_same (ty : EdgeType) (src dst : NodeRef)
      (pat oc al : list (string * Value)) (g : Graph) (m : nat) :
  countEdges ty g <= m ->
  countEdges ty (mergeEdge ty src dst pat oc al g) <= S m.
Proof.
  intros H. pose proof (countEdges_mergeEdge ty ty src dst pat oc al g) as B.
  rewrite bool_decide_eq_true_2 in B by reflexivity. lia.
Qed.

Ltac count_step :=
  repeat first
    [ apply le_mergeNode
    | apply le_setNode
    | apply le_mergeEdge_other; [discriminate|]
    | apply le_mergeEdge_same
    | match goal with
      | |- context [whenMatch ?r ?rest ?g] =>
          unfold whenMatch at 1; destruct (matchNode r g)
      end
    | lia ].

(** Only the two statements that record a contradiction can add a
    [CONTRADICTS] relationship, and they add at most one. *)
Lemma exec_contradicts (s : Stmt) (now : nat) (g : Graph) :
  countEdges CONTRADICTS (exec s now g).1
  <= countEdges CONTRADICTS g + (if recordsContradiction s then 1 else 0).
Proof.
  destruct s; simpl; rewrite ?Nat.add_0_r, ?Nat.add_1_r; try lia.
  all: repeat match goal with
              | |- context [match ?o with Some _ => _ | None => _ end] =>
                  destruct o
              end.
  all: count_step.
Qed.

(** Only the statement that merges a relation can add a [RELATED_TO]
    relationship, and it adds at most one. *)
Lemma exec_relatedTo (s : Stmt) (now : nat) (g : Graph) :
  countEdges RELATED_TO (exec s now g).1
  <= countEdges RELATED_TO g + (if mergesRelation s then 1 else 0).
Proof.
  destruct s; simpl; rewrite ?Nat.add_0_r, ?Nat.add_1_r; try lia.
  all: repeat match goal with
              | |- context [match ?o with Some _ => _ | None => _ end] =>
                  destruct o
              end.
  all: count_step.
Qed.

Lemma In_take {A} (n : nat) (l : list A) (x : A) : In x (take n l) -> In x l.
Proof.
  intros H. rewrite <- (firstn_skipn n l). apply in_or_app. left. exact H.
Qed.

Lemma rowString_existingId (k : string) (v : Value) :
  rowString ({[ "existingId" := VStr k; "existingContent" := v ]} : Props)
            "existingId"
  = Some k.
Proof. unfold rowString. rewrite lookup_insert_eq. reflexivity. Qed.

(** The rows of the contradiction check are at most five, and each names
    a candidate. *)
Lemma contradictionCheck_rows (userId category scope ruleId : string)
      (now : nat) (g : Graph) (row : Props) :
  In row (exec (ContradictionCheck userId category scope ruleId) now g).2 ->
  exists existingId, rowString row "existingId" = Some existingId
                     /\ candidate userId category scope ruleId g existingId.
Proof.
  simpl. intros H. apply In_take in H. unfold contradictionCandidates in H.
  apply in_flat_map in H as (e & He & H).
  destruct (_ && _) eqn:C in H; [|destruct H]. destruct H as [<- | []].
  repeat (apply andb_true_iff in C as [C ?]).
  unfold isStr in *.
  repeat match goal with
         | H : bool_decide _ = true |- _ => apply bool_decide_eq_true in H
         | H : negb _ = true |- _ => apply negb_true_iff, String.eqb_neq in H
         end.
  destruct (e_dst e) as [l k] eqn:Ed. simpl in *. subst l.
  exists k. split; [apply rowString_existingId|].
  unfold candidate. repeat split; try assumption.
  exists e. repeat split; assumption.
Qed.

End StoreFacts.

(* ================================================================== *)
(** * The client of [graphdb.ts] and the write path [writeToGraph] *)
(* ================================================================== *)

Section ClientFacts.
Import Store Cypher GraphDb WriteToGraph.

Lemma sameStore_refl (w : World) : sameStore w w.
Proof. unfold sameStore. tauto. Qed.

Lemma mode_env (w w1 : World) :
  env_GRAPHRAG_MODE w1 = env_GRAPHRAG_MODE w ->
  getGraphRAGMode w1 = getGraphRAGMode w.
Proof. unfold getGraphRAGMode. intros ->. reflexivity. Qed.

Lemma getDriver_sameStore (w : World) : sameStore w (getDriver w).2.
Proof.
  unfold getDriver, bind, get, tryCatch, modify, connect, ret, throw.
  destruct (bool_decide (getGraphRAGMode w = OFF)); [apply sameStore_refl|].
  destruct (_driverInitAttempted w); [apply sameStore_refl|].
  simpl. destruct (constructs w (attempts w)), (reachable w (attempts w));
    simpl; try destruct (bool_decide (getGraphRAGMode w = REQUIRED));
    unfold sameStore; simpl; tauto.
Qed.

(** Once a connection attempt has been made [getDriver] hands back the
    stored driver and touches nothing: it never connects again. *)
Lemma getDriver_never_retries (w : World) :
  _driverInitAttempted w = true ->
  getDriver w
  = (Ok (_driver w && negb (bool_decide (getGraphRAGMode w = OFF))), w).
Proof.
  intros H. unfold getDriver, bind, get, ret. simpl.
  destruct (bool_decide (getGraphRAGMode w = OFF)).
  - rewrite andb_false_r. reflexivity.
  - rewrite H, andb_true_r. reflexivity.
Qed.

(** With mode OFF nothing reaches the store: queries return [null], the
    write path returns [false], and the world is untouched. *)
Lemma off_touches_nothing (w : World) :
  getGraphRAGMode w = OFF ->
  (forall prefix s, runWith prefix s w = (Ok None, w))
  /\ (forall input, writeToGraph input w = (Ok false, w)).
Proof.
  intros H. split.
  - intros prefix s. unfold runWith, getDriver, bind, get, ret. simpl.
    rewrite H. reflexivity.
  - intros input. unfold writeToGraph, bind, get, ret. simpl.
    rewrite H. reflexivity.
Qed.

(** With mode REQUIRED the first call of [runQuery] or [runWriteQuery]
    throws when the store cannot be reached, and so does a call whose
    statement the store rejects. *)
Lemma required_failures_throw (prefix : string) (s : Stmt) (w : World) :
  getGraphRAGMode w = REQUIRED ->
  (_driverInitAttempted w = false /\ reachable w (attempts w) = false)
  \/ (_driverInitAttempted w = true /\ _driver w = true
      /\ failing w (length (sent w)) = true) ->
  exists e, (runWith prefix s w).1 = Throw e.
Proof.
  intros H [[Hi Hr] | (Hi & Hd & Hf)];
    unfold runWith, getDriver, bind, get, tryCatch, modify, connect,
      sessionRun, ret, throw; rewrite H, Hi; simpl.
  - destruct (constructs w (attempts w)); simpl; rewrite ?Hr; simpl; eauto.
  - rewrite Hd. simpl. rewrite H, Hf. simpl. eauto.
Qed.

Lemma runWith_outcome (prefix : string) (s : Stmt) (w : World) :
  sendOutcome s w (runWith prefix s w).1 (runWith prefix s w).2.
Proof.
  unfold runWith, bind.
  pose proof (getDriver_sameStore w) as Hs.
  destruct (getDriver w) as [[d|e] w1]; simpl in Hs.
  - destruct d; simpl.
    + destruct Hs as (He & _ & _ & Hf & Hg & Hsent & Hnow & _).
      unfold get, tryCatch, sessionRun, ret, throw.
      rewrite Hf, Hsent, Hnow, Hg.
      destruct (failing w (length (sent w)) || refused s).
      * destruct (bool_decide _); simpl;
          (apply Rejected; simpl;
             [first [assumption | reflexivity].. | intros rows; discriminate]).
      * destruct (exec s (now w) (graph w)) as [g' rows] eqn:E. simpl.
        replace rows with (exec s (now w) (graph w)).2
          by (rewrite E; reflexivity).
        apply Executed; simpl; rewrite ?E; first [assumption | reflexivity].
    + apply NotSent; [exact Hs | intros; discriminate].
  - simpl. apply NotSent; [exact Hs | intros; discriminate].
Qed.

Lemma runWith_contradicts (prefix : string) (s : Stmt) (w : World) :
  contradictsCount (runWith prefix s w).2
  <= contradictsCount w + (if recordsContradiction s then 1 else 0).
Proof.
  unfold contradictsCount.
  destruct (runWith_outcome prefix s w)
    as [r w1 Hs _ | r w1 _ Hg _ _ | w1 _ Hg _].
  - destruct Hs as (_ & _ & _ & _ & Hg & _). rewrite Hg. lia.
  - rewrite Hg. lia.
  - rewrite Hg. apply exec_contradicts.
Qed.

Lemma runWith_rows (prefix : string) (s : Stmt) (w : World)
      (rows : list Props) :
  (runWith prefix s w).1 = Ok (Some rows) ->
  rows = (exec s (now w) (graph w)).2.
Proof.
  destruct (runWith_outcome prefix s w)
    as [r w1 _ Hn | r w1 _ _ _ Hn | w1 _ _ _].
  - intros H. destruct (Hn rows H).
  - intros H. destruct (Hn rows H).
  - intros H. congruence.
Qed.

Lemma runWith_sent (prefix : string) (s : Stmt) (w : World) :
  exists l, sent (runWith prefix s w).2 = (sent w ++ l)%list
            /\ (l = [] \/ l = [s]).
Proof.
  destruct (runWith_outcome prefix s w)
    as [r w1 Hs _ | r w1 _ _ Hsent _ | w1 _ _ Hsent].
  - exists []. destruct Hs as (_ & _ & _ & _ & _ & Hsent & _).
    rewrite Hsent, app_nil_r. auto.
  - exists [s]. auto.
  - exists [s]. auto.
Qed.

Lemma forEach_contradicts {A} (l : list A) (body : A -> M unit) (w : World) :
  (forall x w0, contradictsCount (body x w0).2 <= S (contradictsCount w0)) ->
  contradictsCount (forEach l body w).2 <= contradictsCount w + length l.
Proof.
  intros Hb. revert w. induction l as [|x l IH]; intros w; simpl; [lia|].
  unfold bind. specialize (Hb x w).
  destruct (body x w) as [[[]|e] w1]; simpl in *.
  - specialize (IH w1). lia.
  - lia.
Qed.

Lemma forEach_sent {A} (Q : A -> Stmt -> Prop) (xs : list A)
      (body : A -> M unit) (w : World) :
  (forall x w0, In x xs ->
     exists l, sent (body x w0).2 = (sent w0 ++ l)%list
               /\ length l <= 1 /\ Forall (Q x) l) ->
  exists l, sent (forEach xs body w).2 = (sent w ++ l)%list
            /\ length l <= length xs
            /\ Forall (fun s => exists x, In x xs /\ Q x s) l.
Proof.
  revert w. induction xs as [|x xs IH]; intros w Hb; simpl.
  - exists []. rewrite app_nil_r. split; [reflexivity|].
    split; [simpl; lia | constructor].
  - unfold bind. destruct (Hb x w (or_introl eq_refl)) as (l1 & E1 & L1 & F1).
    assert (F1' : Forall (fun s => exists y, In y (x :: xs) /\ Q y s) l1).
    { eapply List.Forall_impl; [|exact F1]. intros s Hq.
      exists x. split; [left; reflexivity | exact Hq]. }
    destruct (body x w) as [[[]|e] w1]; simpl in *.
    + destruct (IH w1) as (l2 & E2 & L2 & F2).
      { intros y w0 Hy. apply Hb. right. exact Hy. }
      exists (l1 ++ l2)%list. rewrite E2, E1, app_assoc. repeat split.
      * rewrite length_app. lia.
      * apply Forall_app. split; [exact F1'|].
        eapply List.Forall_impl; [|exact F2]. intros s (y & Hy & Hq).
        exists y. split; [right; exact Hy | exact Hq].
    + exists l1. repeat split; [exact E1 | lia | exact F1'].
Qed.

Lemma newlySent_app (w w' : World) (l : list Stmt) :
  sent w' = (sent w ++ l)%list -> newlySent w w' = l.
Proof. intros E. unfold newlySent. rewrite E. apply drop_app_length. Qed.

Lemma upsertStyleRule_bound (userId : string) (rule : ExtractedStyleRule)
      (extractionId : string) (w : World) :
  contradictsCount (upsertStyleRule userId rule extractionId w).2
  <= contradictsCount w + 5.
Proof.
  unfold upsertStyleRule, runWriteQuery. unfold bind at 1.
  pose proof (runWith_contradicts "[GraphRAG] Write query failed"
    (ContradictionCheck userId (category rule) (scopeName (scope rule)) (id rule)) w)
    as H1.
  pose proof (runWith_rows "[GraphRAG] Write query failed"
    (ContradictionCheck userId (category rule) (scopeName (scope rule)) (id rule)) w)
    as R1.
  destruct (runWith _ _ w) as [[existing|e] w1]; simpl in *; [|lia].
  unfold bind at 1.
  pose proof (runWith_contradicts "[GraphRAG] Write query failed"
    (UpsertStyleRule (id rule) (category rule) (content rule)
       (scopeName (scope rule)) (markerName (temporalMarker rule))
       userId extractionId) w1) as H2.
  destruct (runWith _ _ w1) as [[r2|e] w2]; simpl in *; [|lia].
  destruct existing as [rows|]; simpl; [|lia].
  specialize (R1 rows eq_refl).
  assert (Hlen : length rows <= 5)
    by (rewrite R1; simpl; rewrite length_take; lia).
  etransitivity.
  - apply forEach_contradicts. intros x w0. unfold bind.
    pose proof (runWith_contradicts "[GraphRAG] Write query failed"
      (RecordContradiction (id rule) (default "" (rowString x "existingId"))
                           extractionId) w0) as H3.
    destruct (runWith _ _ w0) as [[r3|e] w3]; simpl in *; lia.
  - lia.
Qed.

Lemma upsertStyleRule_sent (userId : string) (rule : ExtractedStyleRule)
      (extractionId : string) (w : World) :
  exists l, sent (upsertStyleRule userId rule extractionId w).2
            = (sent w ++ l)%list
            /\ length (List.filter recordsContradiction l) <= 5
            /\ Forall (recordedFor userId rule extractionId (graph w)) l.
Proof.
  unfold upsertStyleRule, runWriteQuery. unfold bind at 1.
  set (cc := ContradictionCheck userId (category rule)
               (scopeName (scope rule)) (id rule)).
  set (us := UpsertStyleRule (id rule) (category rule) (content rule)
       (scopeName (scope rule)) (markerName (temporalMarker rule))
       userId extractionId).
  destruct (runWith_sent "[GraphRAG] Write query failed" cc w) as (l1 & E1 & C1).
  pose proof (runWith_rows "[GraphRAG] Write query failed" cc w) as R1.
  assert (F1 : Forall (recordedFor userId rule extractionId (graph w)) l1
               /\ List.filter recordsContradiction l1 = []).
  { destruct C1 as [-> | ->]; split; try reflexivity; repeat constructor.
    intros H. discriminate H. }
  destruct F1 as [F1 N1].
  destruct (runWith _ cc w) as [[existing|e] w1]; simpl in *.
  2: { exists l1. rewrite N1. repeat split; [exact E1 | simpl; lia | exact F1]. }
  unfold bind at 1.
  destruct (runWith_sent "[GraphRAG] Write query failed" us w1) as (l2 & E2 & C2).
  assert (F2 : Forall (recordedFor userId rule extractionId (graph w)) l2
               /\ List.filter recordsContradiction l2 = []).
  { destruct C2 as [-> | ->]; split; try reflexivity; repeat constructor.
    intros H. discriminate H. }
  destruct F2 as [F2 N2].
  assert (F12 : Forall (recordedFor userId rule extractionId (graph w)) (l1 ++ l2))
    by (apply Forall_app; split; assumption).
  assert (N12 : List.filter recordsContradiction (l1 ++ l2) = [])
    by (rewrite List.filter_app, N1, N2; reflexivity).
  destruct (runWith _ us w1) as [[r2|e] w2]; simpl in *.
  2: { exists (l1 ++ l2)%list. rewrite N12, E2, E1, app_assoc.
       repeat split; [simpl; lia | exact F12]. }
  destruct existing as [rows|]; simpl.
  2: { exists (l1 ++ l2)%list. rewrite N12, E2, E1, app_assoc.
       repeat split; [simpl; lia | exact F12]. }
  specialize (R1 rows eq_refl).
  assert (Hlen : length rows <= 5)
    by (rewrite R1; simpl; rewrite length_take; lia).
  destruct (forEach_sent
              (fun x s => s = RecordContradiction (id rule)
                                (default "" (rowString x "existingId"))
                                extractionId)
              rows
              (fun existing =>
                 runWith "[GraphRAG] Write query failed"
                   (RecordContradiction (id rule)
                      (default "" (rowString existing "existingId"))
                      extractionId) ;;
                 ret tt)
              w2) as (l3 & E3 & L3 & F3).
  { intros x w0 _. unfold bind.
    destruct (runWith_sent "[GraphRAG] Write query failed"
                (RecordContradiction (id rule)
                   (default "" (rowString x "existingId")) extractionId) w0)
      as (l & E & C).
    destruct (runWith _ _ w0) as [[r|e] w3]; simpl in *; exists l;
      (destruct C as [-> | ->]; repeat split; simpl; try lia; try exact E;
       repeat constructor). }
  exists ((l1 ++ l2) ++ l3)%list. rewrite E3, E2, E1, !app_assoc. repeat split.
  - rewrite List.filter_app, N12. simpl.
    pose proof (List.filter_length_le recordsContradiction l3). lia.
  - apply Forall_app. split; [exact F12|].
    eapply List.Forall_impl; [|exact F3]. intros s (x & Hx & ->) _.
    rewrite R1 in Hx.
    apply (contradictionCheck_rows _ _ _ _ 0) in Hx as (k & Hk & Hc).
    exists k. rewrite Hk. split; [reflexivity | exact Hc].
Qed.

(** C10: whatever the state of the process and of the store, one call of
    [upsertStyleRule] asks the store to record at most five
    contradictions; every one of them is for an existing rule that the
    same user prefers, whose category and scope are those of the new
    rule, whose temporalMarker is [current] and whose id differs from the
    id of the new rule; and the number of [CONTRADICTS] relationships
    grows by at most five. *)
Theorem C10_at_most_five_contradictions
        (userId : string) (rule : ExtractedStyleRule) (extractionId : string)
        (w : World) :
  let w' := (upsertStyleRule userId rule extractionId w).2 in
  length (List.filter recordsContradiction (newlySent w w')) <= 5
  /\ Forall (recordedFor userId rule extractionId (graph w)) (newlySent w w')
  /\ countEdges CONTRADICTS (graph w') <= countEdges CONTRADICTS (graph w) + 5.
Proof.
  cbv zeta.
  destruct (upsertStyleRule_sent userId rule extractionId w) as (l & E & L & F).
  rewrite (newlySent_app _ _ _ E).
  split; [exact L|]. split; [exact F|].
  apply (upsertStyleRule_bound userId rule extractionId w).
Qed.

(** ** OPTIONAL mode never reports a failure *)

Lemma returns_ret {A} (P : A -> Prop) (a : A) : P a -> returns P (ret a).
Proof. intros Ha w H. exists a, w. repeat split; assumption. Qed.

Lemma degrades_ret {A} (a : A) : degrades (ret a).
Proof. apply returns_ret. exact I. Qed.

Lemma returns_bind {A B} (P : B -> Prop) (m : M A) (k : A -> M B) :
  degrades m -> (forall a, returns P (k a)) -> returns P (bind m k).
Proof.
  intros Hm Hk w H. destruct (Hm w H) as (a & w1 & E & H1 & _).
  destruct (Hk a w1 H1) as (b & w2 & E2 & H2 & Hb).
  exists b, w2. unfold bind. rewrite E. repeat split; assumption.
Qed.

Lemma degrades_bind {A B} (m : M A) (k : A -> M B) :
  degrades m -> (forall a, degrades (k a)) -> degrades (bind m k).
Proof. apply returns_bind. Qed.

Lemma degrades_forEach {A} (l : list A) (body : A -> M unit) :
  (forall x, degrades (body x)) -> degrades (forEach l body).
Proof.
  intros Hb. induction l as [|x l IH]; simpl.
  - apply degrades_ret.
  - apply degrades_bind; [apply Hb | intros _; exact IH].
Qed.

Lemma degrades_getDriver : degrades getDriver.
Proof.
  intros w H. unfold getDriver, bind, get, tryCatch, modify, connect, ret, throw.
  rewrite H. cbn [bool_decide decide_rel]. simpl.
  destruct (_driverInitAttempted w); [eexists _, _; eauto|].
  simpl. destruct (constructs w (attempts w)), (reachable w (attempts w));
    simpl;
    (eexists _, _; split; [reflexivity|]; split; [|exact I];
     erewrite mode_env; [exact H | reflexivity]).
Qed.

Lemma degrades_sessionRun (s : Stmt) :
  degrades (tryCatch (let* records := sessionRun s in ret (Some records))
                     (fun error => ret None)).
Proof.
  intros w H. unfold tryCatch, bind, sessionRun, ret.
  destruct (failing w (length (sent w)) || refused s); simpl.
  - eexists _, _. split; [reflexivity|]. split; [|exact I].
    erewrite mode_env; [exact H | reflexivity].
  - destruct (exec s (now w) (graph w)) as [g' rows]. simpl.
    eexists _, _. split; [reflexivity|]. split; [|exact I].
    erewrite mode_env; [exact H | reflexivity].
Qed.

Lemma degrades_runWith (prefix : string) (s : Stmt) : degrades (runWith prefix s).
Proof.
  unfold runWith. apply degrades_bind; [apply degrades_getDriver|].
  intros [|]; simpl; [|apply degrades_ret].
  intros w H. unfold bind at 1, get. rewrite H. simpl.
  apply degrades_sessionRun, H.
Qed.

Lemma degrades_upsertStyleRule (userId : string) (rule : ExtractedStyleRule)
      (extractionId : string) :
  degrades (upsertStyleRule userId rule extractionId).
Proof.
  unfold upsertStyleRule, runWriteQuery.
  apply degrades_bind; [apply degrades_runWith|]. intros existing.
  apply degrades_bind; [apply degrades_runWith|]. intros _.
  destruct existing as [rows|]; [|apply degrades_ret].
  apply degrades_forEach. intros x.
  apply degrades_bind; [apply degrades_runWith | intros; apply degrades_ret].
Qed.

(** In OPTIONAL mode [writeToGraph] returns [true] whatever the store
    does: the helpers swallow every failure, so the [catch] that would
    return [false] is never entered. *)
Lemma writeToGraph_optional_always_true (input : WritePathInput) (w : World) :
  getGraphRAGMode w = OPTIONAL -> (writeToGraph input w).1 = Ok true.
Proof.
  intros H.
  assert (D : returns (fun b => b = true)
    (let ex := extraction input in
       createExtractionNode ex (sessionId input) (artifactId input) ;;
       forEach (entities input)
         (fun entity => upsertConcept entity (extractionId ex)) ;;
       forEach (triples input)
         (fun triple => upsertRelation triple (extractionId ex)) ;;
       forEach (styleRules input)
         (fun rule => upsertStyleRule (userId input) rule (extractionId ex)) ;;
       ret true)).
  { cbv zeta.
    unfold createExtractionNode, upsertConcept, upsertRelation, runWriteQuery.
    repeat first
      [ apply returns_ret; reflexivity
      | apply degrades_ret | apply degrades_runWith
      | apply degrades_upsertStyleRule
      | apply degrades_forEach | apply degrades_bind | apply returns_bind
      | intro ]. }
  unfold writeToGraph, bind at 1, get. rewrite H.
  cbn [bool_decide decide_rel]. simpl.
  unfold tryCatch. destruct (D w H) as (a & w' & E & _ & ->).
  cbv zeta in E. rewrite E. reflexivity.
Qed.

(** C1, the failing input: mode OPTIONAL, the store cannot be reached.
    [writeToGraph] makes its one connection attempt, sends nothing, writes
    nothing, and returns [true], where the contract (and the function's
    own documentation) asks for [false]. In mode REQUIRED the first write
    throws, as the contract asks, but a second write after the failed
    attempt returns [true] as well. *)
Theorem C1_optional_write_reports_success :
  let r := writeToGraph sampleInput storeDown in
  let q := writeToGraph sampleInput storeDownRequired in
  (getGraphRAGMode storeDown = OPTIONAL
   /\ r.1 = Ok true
   /\ attempts r.2 = 1 /\ sent r.2 = [] /\ graph r.2 = emptyGraph)
  /\ (getGraphRAGMode storeDownRequired = REQUIRED
      /\ (exists e, q.1 = Throw e)
      /\ (writeToGraph sampleInput q.2).1 = Ok true
      /\ sent (writeToGraph sampleInput q.2).2 = []).
Proof. vm_compute. repeat split. eexists. reflexivity. Qed.

(** C9, the failing input: mode OPTIONAL, the first connection attempt
    fails and the store is reachable afterwards. The later [getDriver]
    returns [null] without a second attempt and [runQuery] returns
    [null], as the claim says; [closeDriver] changes nothing; but the
    later [writeToGraph] returns [true], not [false]. *)
Theorem C9_no_retry_but_write_reports_success :
  let w1 := (getDriver firstAttemptFails).2 in
  (getDriver firstAttemptFails).1 = Ok false
  /\ attempts w1 = 1
  /\ reachable w1 (attempts w1) = true
  /\ getDriver w1 = (Ok false, w1)
  /\ runQuery (Other "MATCH (n) RETURN n") w1 = (Ok None, w1)
  /\ closeDriver w1 = (Ok tt, w1)
  /\ (writeToGraph sampleInput w1).1 = Ok true
  /\ attempts (writeToGraph sampleInput w1).2 = 1.
Proof. vm_compute. repeat split. Qed.

(** C2, the failing input: an empty store that answers every call, and
    one write with the entity [Atlas] and one style rule for a user
    without a User node. The entity gets its [CREATED] pointer. The
    StyleRule node is created, but the [MATCH] of the User node that
    follows in the statement finds nothing, so the clauses behind it are
    not run: the rule exists without any [CREATED] or [ASSERTED] pointer
    from an Extraction. *)
Theorem C2_facts_without_provenance :
  let r := writeToGraph ruleInput (storeUp "OPTIONAL" emptyGraph) in
  let g := graph r.2 in
  r.1 = Ok true
  /\ (matchNode (LConcept, "atlas") g = true
      /\ hasProvenance g (LConcept, "atlas") = true)
  /\ matchNode (LUser, "user-1") g = false
  /\ (matchNode (LStyleRule, "rule-1") g = true
      /\ hasProvenance g (LStyleRule, "rule-1") = false).
Proof. vm_compute. repeat split. Qed.

(** C6, the failing input: the store holds the default local user; the
    same input, with the same extraction id, entity and style rule, is
    written twice. The second write creates no node, but it creates a
    second [PREFERS] relationship between the same user and the same
    rule, because the [MERGE] pattern of that relationship carries
    [since: datetime()]. *)
Theorem C6_second_write_duplicates_prefers :
  let w1 := (writeToGraph localInput (storeUp "OPTIONAL" seededGraph)).2 in
  let w2 := (writeToGraph localInput w1).2 in
  nodeCensus (graph w2) = nodeCensus (graph w1)
  /\ countEdges PREFERS (graph w1) = 1
  /\ countEdges PREFERS (graph w2) = 2
  /\ length (edges (graph w2)) = S (length (edges (graph w1))).
Proof. vm_compute. repeat split. Qed.

End ClientFacts.

(* ================================================================== *)
(** * The write path [extractAndWriteToGraph] *)
(* ================================================================== *)

Section ExtractAndWriteFacts.
Import Store Cypher ExtractAndWrite.

Lemma sessionRun_connected (s : Stmt) (w : World) :
  refused s = false ->
  connected w ->
  (sessionRun s w).1 = Ok (exec s (now w) (graph w)).2
  /\ connected (sessionRun s w).2
  /\ sent (sessionRun s w).2 = (sent w ++ [s])%list.
Proof.
  intros Hs (Hm & Hd & Hf). unfold sessionRun. rewrite Hf, Hs. cbn [orb].
  destruct (exec s (now w) (graph w)) as [g' rows]. simpl.
  repeat split; assumption.
Qed.

(** On a connected client every statement is sent and executed. *)
Lemma runQuery_connected (s : Stmt) (w : World) :
  refused s = false ->
  connected w ->
  GraphDbJs.runQuery s w
  = (Ok (Some (exec s (now w) (graph w)).2), (sessionRun s w).2).
Proof.
  intros Hs Hc. pose proof (sessionRun_connected s w Hs Hc) as (Hr & _ & _).
  destruct Hc as (Hm & Hd & Hf).
  unfold GraphDbJs.runQuery, GraphDbJs.runQueryVia, GraphDbJs.getDriver,
    bind, get, ret, tryCatch.
  apply String.eqb_neq in Hm. rewrite Hm, Hd. simpl.
  destruct (sessionRun s w) as [[rows|e] w1]; simpl in *;
    [congruence | discriminate].
Qed.

(** What the strict guard sends: when the existing rule of a record is
    strict and the heuristic flags a contradiction, the loop body sends
    the statement that records the contradiction and then the update
    [active=false, pendingConfirmation=true] for the new rule exactly
    when the configured strategy is not [user-confirmation]; under
    [user-confirmation] it sends no resolution statement. Under no
    strategy does it ask to deactivate the strict rule. *)
Lemma checkRecord_strict_statements
        (w : World) (newRuleId : string) (newRule : ExtractedStyleRule)
        (extractionId strategy : string) (record : Props)
        (existingRule : string) :
  connected w ->
  rowString record "rule" = Some existingRule ->
  truthyValue (record !! "strict") = true ->
  Contradiction.detectSimpleContradiction (sr_rule newRule) existingRule
    (markerName (sr_temporalMarker newRule)) = true ->
  let w' := (checkRecord newRuleId newRule extractionId strategy record w).2 in
  newlySent w w' =
    MergeContradicts newRuleId (default "" (rowString record "ruleId"))
      (reasonText (sr_rule newRule) existingRule) extractionId strategy
    :: (if String.eqb strategy "user-confirmation" then []
        else [MarkPending newRuleId]).
Proof.
  intros Hc Hrule Hstrict Hdet. unfold checkRecord.
  rewrite Hrule, Hstrict, Hdet. cbn [andb].
  set (mc := MergeContradicts _ _ _ _ _).
  unfold bind at 1. rewrite (runQuery_connected mc w eq_refl Hc).
  destruct (sessionRun_connected mc w eq_refl Hc) as (_ & Hc1 & Hs1).
  destruct (sessionRun mc w) as [r1 w1]. cbn [fst snd] in *.
  destruct (String.eqb strategy "user-confirmation") eqn:Es; cbn [negb].
  - apply String.eqb_eq in Es. subst strategy.
    change (String.eqb "user-confirmation" "most-recent-wins") with false.
    unfold ret. cbn [snd]. unfold newlySent. rewrite Hs1.
    apply drop_app_length.
  - unfold bind. rewrite (runQuery_connected (MarkPending newRuleId) _ eq_refl Hc1). unfold ret.
    destruct (sessionRun_connected (MarkPending newRuleId) _ eq_refl Hc1)
      as (_ & _ & Hs2).
    destruct (sessionRun (MarkPending newRuleId) w1) as [r2 w2].
    cbn [fst snd] in *.
    unfold newlySent. rewrite Hs2, Hs1, <- app_assoc. apply drop_app_length.
Qed.

(** The lemma at a connected process under [most-recent-wins], for the
    new rule [Use a casual tone] against the record of the strict rule
    [Always use a formal tone]. *)
Lemma checkRecord_strict_statements_sample :
  connected (connectedWorld "most-recent-wins")
  /\ newlySent (connectedWorld "most-recent-wins")
       (checkRecord "rule-new" casualRule "ex-2" "most-recent-wins"
          strictRecord (connectedWorld "most-recent-wins")).2
     = [ MergeContradicts "rule-new" "rule-old"
           (reasonText "Use a casual tone" "Always use a formal tone")
           "ex-2" "most-recent-wins";
         MarkPending "rule-new" ].
Proof.
  assert (Hc : connected (connectedWorld "most-recent-wins")).
  { split; [vm_compute; discriminate|].
    split; [reflexivity | intros n; reflexivity]. }
  split; [exact Hc|].
  apply (checkRecord_strict_statements (connectedWorld "most-recent-wins")
           "rule-new" casualRule "ex-2" "most-recent-wins" strictRecord
           "Always use a formal tone" Hc).
  - vm_compute. reflexivity.
  - vm_compute. reflexivity.
  - vm_compute. reflexivity.
Defined.

(** Under [user-confirmation] the guard is left out on purpose (both
    rules remain active until the user decides): with a strict active
    rule [Always use a formal tone] and the new rule [Use a casual tone]
    of the same user and scope, the contradiction is flagged, no
    resolution statement is sent, and the new rule ends up stored with
    [active=true] and without [pendingConfirmation]. *)
Lemma user_confirmation_not_pending :
  let w := strictThenCasual "user-confirmation" in
  let g := graph w in
  Contradiction.detectSimpleContradiction "Use a casual tone"
    "Always use a formal tone" "current" = true
  /\ rulesWithText g "Always use a formal tone" = [uuidOf 1]
  /\ prop g (LStyleRule, uuidOf 1) "strict" = VBool true
  /\ prop g (LStyleRule, uuidOf 1) "active" = VBool true
  /\ rulesWithText g "Use a casual tone" = [uuidOf 3]
  /\ ~ In (MarkPending (uuidOf 3)) (sent w)
  /\ prop g (LStyleRule, uuidOf 3) "active" = VBool true
  /\ prop g (LStyleRule, uuidOf 3) "pendingConfirmation" = VNull.
Proof.
  cbv zeta. repeat (split; [vm_compute; reflexivity|]).
  split; [|split; vm_compute; reflexivity].
  vm_compute. intros H.
  repeat (destruct H as [H | H]; [discriminate H|]). exact H.
Qed.

(** C4: the claim fails, against the comment of the code ([Mark new rule
    as pending]). Under [most-recent-wins], with the strict active rule
    [Always use a formal tone] of the same user and scope in the store,
    the new rule [Use a casual tone] is flagged as a contradiction and
    the write path sends the update [active=false,
    pendingConfirmation=true] for it. That update, like the statement
    that records the contradiction, is sent before the statement that
    creates the node of the new rule: it matches no node, and the
    insertion that follows sets [active=true]. The new rule ends up
    stored with [active=true] and without [pendingConfirmation], no
    [CONTRADICTS] relationship is stored, and the strict rule stays
    active. *)
Theorem C4_pending_mark_not_stored :
  let w := strictThenCasual "most-recent-wins" in
  let g := graph w in
  Contradiction.detectSimpleContradiction "Use a casual tone"
    "Always use a formal tone" "current" = true
  /\ rulesWithText g "Always use a formal tone" = [uuidOf 1]
  /\ prop g (LStyleRule, uuidOf 1) "strict" = VBool true
  /\ prop g (LStyleRule, uuidOf 1) "active" = VBool true
  /\ rulesWithText g "Use a casual tone" = [uuidOf 3]
  /\ drop (length (sent w) - 3) (sent w)
     = [ MergeContradicts (uuidOf 3) (uuidOf 1)
           (reasonText "Use a casual tone" "Always use a formal tone")
           (uuidOf 2) "most-recent-wins";
         MarkPending (uuidOf 3);
         InsertRule (uuidOf 3) "Use a casual tone" "global" "current"
           (7 # 10)%Q false "user-1" (uuidOf 2) ]
  /\ prop g (LStyleRule, uuidOf 3) "active" = VBool true
  /\ prop g (LStyleRule, uuidOf 3) "pendingConfirmation" = VNull
  /\ contradictsEdges g = [].
Proof. vm_compute. repeat split. Qed.

(** C3, as the specification has it, fails: after the two writes of the
    scenario the first rule is not inactive. *)
Lemma C3_scenario_not_flagged : ~ scenarioClaim (graph conciseThenDetailed).
Proof.
  intros (a & b & H1 & _ & H3 & _).
  vm_compute in H1. injection H1 as <-. vm_compute in H3. discriminate H3.
Qed.

(** C3, as the code has it: for [I always prefer concise responses.]
    written first and [I prefer detailed explanations.] written later by
    the same user under [most-recent-wins], the heuristic flags no
    contradiction (the later rule is not negated and no pair of the
    keyword table opposes [concise] to [detailed]); after the second
    write both rules are stored with [active=true], the first keeps
    [temporalMarker=current], and there is no [CONTRADICTS]
    relationship. *)
Theorem C3_scenario_outcome :
  let g := graph conciseThenDetailed in
  exists first second,
    rulesWithText g "always prefer concise responses." = [first]
    /\ rulesWithText g "I prefer detailed explanations." = [second]
    /\ prop g (LStyleRule, first) "active" = VBool true
    /\ prop g (LStyleRule, first) "temporalMarker" = VStr "current"
    /\ prop g (LStyleRule, second) "active" = VBool true
    /\ contradictsEdges g = []
    /\ Contradiction.detectSimpleContradiction
         "I prefer detailed explanations."
         "always prefer concise responses." "current" = false.
Proof.
  exists (uuidOf 1), (uuidOf 3). vm_compute. repeat split.
Qed.

(** What the amended statement of C3 leaves open. The statements that
    record and resolve a contradiction are sent before the new rule is
    inserted: they [MATCH] a rule node that does not exist yet, and the
    insertion that follows sets [active=true]. So a flagged contradiction
    deactivates the old rule under [most-recent-wins] but leaves no
    [CONTRADICTS] relationship. *)
Lemma resolution_precedes_insertion :
  let g := graph conciseThenVerbose in
  prop g (LStyleRule, uuidOf 1) "active" = VBool false
  /\ prop g (LStyleRule, uuidOf 1) "temporalMarker" = VStr "past"
  /\ prop g (LStyleRule, uuidOf 3) "active" = VBool true
  /\ contradictsEdges g = [].
Proof. vm_compute. repeat split. Qed.

End ExtractAndWriteFacts.


(* ================================================================== *)
(** * The context formatter *)
(* ================================================================== *)

Section FormatFacts.
Import GraphRagFormat.
Variable showNumber : Q -> string.
Variable showValue : Store.Value -> string.

Lemma join_starts (sep x : string) (r : list string) :
  x <> "" -> Js.join sep (x :: r) <> "".
Proof.
  intros Hx. destruct x as [|c x]; [congruence|].
  destruct r; simpl; [discriminate|]. rewrite append_cons. discriminate.
Qed.

Lemma open_tag_nonempty (tag : string) : tpl ["<"; tag; ">"] <> "".
Proof. unfold tpl. simpl. rewrite append_cons. discriminate. Qed.

Lemma sections_head (c : GraphContext) :
  (ctx_styleRules c = [] /\ ctx_entities c = [] /\ ctx_relations c = [])
  \/ exists tag r, sections showNumber showValue c = tpl ["<"; tag; ">"] :: r.
Proof.
  unfold sections.
  destruct (ctx_styleRules c) as [|x xs]; [|right; simpl; eauto].
  destruct (ctx_entities c) as [|y ys]; [|right; simpl; eauto].
  destruct (ctx_relations c) as [|z zs]; [left; tauto | right; simpl; eauto].
Qed.

(** X1: the formatted context is the empty string exactly when the
    context is [null] or has no style rule, no entity and no relation;
    the citations of the context are never printed: a context is
    formatted alike whatever citations are put in the place of its
    own. *)
Theorem formatGraphContextForPrompt_empty_iff (ctx : option GraphContext) :
  (formatGraphContextForPrompt showNumber showValue ctx = ""
   <-> match ctx with
       | None => True
       | Some c => ctx_styleRules c = [] /\ ctx_entities c = []
                   /\ ctx_relations c = []
       end)
  /\ (forall (c : GraphContext) (citations : list GraphCitation),
        formatGraphContextForPrompt showNumber showValue
          (Some (MkGraphContext (ctx_entities c) (ctx_relations c)
                                (ctx_styleRules c) citations))
        = formatGraphContextForPrompt showNumber showValue (Some c)).
Proof.
  split.
  - destruct ctx as [c|]; [|simpl; tauto].
    unfold formatGraphContextForPrompt. split.
    + intros H.
      destruct (sections_head c) as [Hc | (tag & r & E)]; [exact Hc|].
      exfalso. rewrite E in H. revert H. apply join_starts, open_tag_nonempty.
    + intros (E1 & E2 & E3). unfold sections. rewrite E1, E2, E3. reflexivity.
  - intros c citations. reflexivity.
Qed.

End FormatFacts.

(* ================================================================== *)
(** * The pure parts of the read path *)
(* ================================================================== *)

Section ReadPureFacts.
Import GraphRagRead.

Lemma existsb_seen (seen : list (string * GraphEntity)) (i : string) :
  existsb (fun kv => String.eqb kv.1 i) seen = true <-> In i (map fst seen).
Proof.
  rewrite existsb_exists, in_map_iff. split.
  - intros (kv & H & E). apply String.eqb_eq in E. eauto.
  - intros (kv & E & H). exists kv. split; [exact H|]. apply String.eqb_eq, E.
Qed.

Lemma firstWithId_snoc (p : list GraphEntity) (e x : GraphEntity) :
  firstWithId (p ++ [e]) x
  <-> firstWithId p x \/ (x = e /\ ~ In (ge_id e) (map ge_id p)).
Proof.
  unfold firstWithId. split.
  - intros (pre & post & E & Hn).
    destruct (exists_last (l := x :: post)) as (l' & a & El); [discriminate|].
    destruct post as [|y post].
    + apply app_inj_tail in E as [-> ->]. right. split; [reflexivity | exact Hn].
    + left. destruct (exists_last (l := y :: post)) as (q & z & Eq);
        [discriminate|].
      rewrite Eq in E.
      change (pre ++ x :: q ++ [z])%list with (pre ++ (x :: q) ++ [z])%list in E.
      rewrite app_assoc in E. apply app_inj_tail in E as [-> _].
      exists pre, q. split; [reflexivity | exact Hn].
  - intros [(pre & post & -> & Hn) | [-> Hn]].
    + exists pre, (post ++ [e])%list. split; [|exact Hn].
      rewrite <- app_assoc. reflexivity.
    + exists p, []. split; [reflexivity | exact Hn].
Qed.

Lemma firstWithId_ids (p : list GraphEntity) (i : string) :
  In i (map ge_id p) -> exists e, firstWithId p e /\ ge_id e = i.
Proof.
  induction p as [|a p IH] using rev_ind; [intros []|].
  rewrite map_app, in_app_iff. intros H.
  destruct (in_dec string_dec i (map ge_id p)) as [Hi | Hi].
  - destruct (IH Hi) as (e & He & Ee). exists e. split; [|exact Ee].
    apply firstWithId_snoc. left. exact He.
  - destruct H as [H | [H | []]]; [contradiction|]. exists a. split; [|exact H].
    apply firstWithId_snoc. right. split; [reflexivity|]. rewrite H. exact Hi.
Qed.

Lemma seenStep_inv (p : list GraphEntity) (seen : list (string * GraphEntity))
      (e : GraphEntity) :
  seenInv p seen -> seenInv (p ++ [e]) (seenStep seen e).
Proof.
  intros (H1 & H2 & H3 & H4). unfold seenStep.
  assert (Hids : forall i, In i (map fst seen) <-> In i (map ge_id p)).
  { intros i. split.
    - rewrite in_map_iff. intros (kv & E & Hkv).
      assert (Hf : firstWithId p kv.2)
        by (apply H3, in_map_iff; exists kv; split; [reflexivity | exact Hkv]).
      destruct Hf as (pre & post & -> & _).
      rewrite map_app, in_app_iff. right. left.
      rewrite <- E. symmetry. apply H1, Hkv.
    - rewrite in_map_iff. intros (x & E & Hx). rewrite <- E. apply H4, Hx. }
  destruct (existsb _ seen) eqn:Ex.
  - apply existsb_seen in Ex.
    split; [exact H1 | split; [exact H2 | split]].
    + intros x. rewrite firstWithId_snoc, H3. split; [tauto|].
      intros [H | [_ Hn]]; [exact H|]. exfalso. apply Hn, Hids, Ex.
    + intros x Hx. apply in_app_iff in Hx as [Hx | [<- | []]];
        [apply H4, Hx | exact Ex].
  - assert (Hn : ~ In (ge_id e) (map fst seen)).
    { intros H. apply existsb_seen in H. congruence. }
    split; [|split; [|split]].
    + intros kv Hkv. apply in_app_iff in Hkv as [Hkv | [<- | []]];
        [apply H1, Hkv | reflexivity].
    + rewrite map_app. simpl. apply NoDup_app.
      split; [exact H2 | split; [|apply NoDup_singleton]].
      intros x Hx Hx'. apply list_elem_of_In in Hx, Hx'.
      destruct Hx' as [<- | []]. contradiction.
    + intros x. rewrite map_app, in_app_iff, firstWithId_snoc, H3. simpl.
      split.
      * intros [H | [<- | []]]; [tauto|]. right. split; [reflexivity|].
        intros H. apply Hn, Hids, H.
      * intros [H | [-> _]]; tauto.
    + intros x Hx. rewrite map_app, in_app_iff. simpl.
      apply in_app_iff in Hx as [Hx | [<- | []]]; [left; apply H4, Hx | tauto].
Qed.

Lemma fold_seenStep_inv (l p : list GraphEntity)
      (seen : list (string * GraphEntity)) :
  seenInv p seen -> seenInv (p ++ l) (fold_left seenStep l seen).
Proof.
  revert p seen. induction l as [|e l IH]; intros p seen H; simpl.
  - rewrite app_nil_r. exact H.
  - change (p ++ e :: l)%list with (p ++ [e] ++ l)%list. rewrite app_assoc.
    apply IH, seenStep_inv, H.
Qed.

Lemma deduplicateEntities_inv (l : list GraphEntity) :
  seenInv l (fold_left seenStep l []).
Proof.
  apply (fold_seenStep_inv l [] []).
  split; [intros kv [] | split; [apply NoDup_nil_2 | split]].
  - intros e. simpl. split; [tauto|].
    intros (pre & post & E & _). destruct pre; discriminate.
  - intros e [].
Qed.

Lemma map_fst_ids (seen : list (string * GraphEntity)) :
  (forall kv, In kv seen -> kv.1 = ge_id kv.2) ->
  map ge_id (map snd seen) = map fst seen.
Proof.
  induction seen as [|kv seen IH]; intros H; simpl; [reflexivity|].
  rewrite IH by (intros; apply H; right; assumption).
  rewrite (H kv) by (left; reflexivity). reflexivity.
Qed.

(** X2: [deduplicateEntities] returns entities with pairwise distinct
    ids, and an entity is returned exactly when it is the first one of the
    input with its id: of two entities with one id the later one is
    dropped, and every id of the input is kept. *)
Theorem deduplicateEntities_first_occurrences (l : list GraphEntity) :
  NoDup (map ge_id (deduplicateEntities l))
  /\ (forall e, In e (deduplicateEntities l) <-> firstWithId l e)
  /\ (forall i, In i (map ge_id l) -> In i (map ge_id (deduplicateEntities l))).
Proof.
  destruct (deduplicateEntities_inv l) as (H1 & H2 & H3 & H4).
  unfold deduplicateEntities. rewrite map_fst_ids by exact H1.
  split; [exact H2 | split; [exact H3|]].
  intros i Hi. apply in_map_iff in Hi as (e & <- & He). apply H4, He.
Qed.

Lemma lowerChar_idem (c : ascii) : Js.lowerChar (Js.lowerChar c) = Js.lowerChar c.
Proof.
  destruct c as [[] [] [] [] [] [] [] []]; vm_compute; reflexivity.
Qed.

Lemma toLowerCase_idem (s : string) :
  Js.toLowerCase (Js.toLowerCase s) = Js.toLowerCase s.
Proof.
  induction s as [|c s IH]; simpl; [reflexivity|].
  rewrite lowerChar_idem, IH. reflexivity.
Qed.

Lemma toLowerCase_length (s : string) :
  String.length (Js.toLowerCase s) = String.length s.
Proof. induction s as [|c s IH]; simpl; [reflexivity | rewrite IH; reflexivity]. Qed.

Lemma setAdd_inv (names : list string) (x : string) :
  namesInv names -> lookupName x -> namesInv (setAdd names x).
Proof.
  intros [H1 H2] Hx. unfold setAdd.
  destruct (existsb _ names) eqn:E; [split; assumption|]. split.
  - apply NoDup_app. repeat split; [exact H1 | | apply NoDup_singleton].
    intros y Hy Hy'. apply list_elem_of_In in Hy, Hy'.
    destruct Hy' as [<- | []].
    assert (existsb (String.eqb x) names = true); [|congruence].
    apply existsb_exists. exists x. split; [exact Hy | apply String.eqb_refl].
  - apply Forall_app. split; [exact H2 | constructor; [exact Hx | constructor]].
Qed.

Lemma addNoun_inv (names : list string) (noun : string) :
  namesInv names -> namesInv (addNoun names noun).
Proof.
  intros H. unfold addNoun. destruct (2 <? _) eqn:E; simpl; [|exact H].
  destruct (negb _); [|exact H]. apply setAdd_inv; [exact H|].
  apply Nat.ltb_lt in E. split; [|apply toLowerCase_idem].
  rewrite toLowerCase_length. exact E.
Qed.

Lemma addDelimited_inv (q : ascii) (names : list string) (m : string) :
  namesInv names -> namesInv (addDelimited q names m).
Proof.
  intros H. unfold addDelimited. destruct (2 <? _) eqn:E; [|exact H].
  apply setAdd_inv; [exact H|]. apply Nat.ltb_lt in E.
  split; [exact E | apply toLowerCase_idem].
Qed.

Lemma fold_namesInv (f : list string -> string -> list string)
      (l names : list string) :
  (forall names x, namesInv names -> namesInv (f names x)) ->
  namesInv names -> namesInv (fold_left f l names).
Proof.
  intros Hf. revert names. induction l as [|x l IH]; intros names H; simpl;
    [exact H | apply IH, Hf, H].
Qed.

(** X3: the names that the read path extracts from the prompt and the
    artifact are at most twenty, pairwise distinct, longer than two
    characters and in lower case. *)
Theorem extractEntityNamesFromText_names (promptText : string)
        (artifactContent : option string) :
  let names := extractEntityNamesFromText promptText artifactContent in
  length names <= 20 /\ NoDup names /\ Forall lookupName names.
Proof.
  unfold extractEntityNamesFromText.
  set (names3 := fold_left _ _ (fold_left _ _ (fold_left _ _ _))).
  assert (H : namesInv names3).
  { unfold names3.
    apply fold_namesInv; [intros; apply addDelimited_inv; assumption|].
    apply fold_namesInv; [intros; apply addDelimited_inv; assumption|].
    apply fold_namesInv; [intros; apply addNoun_inv; assumption|].
    split; [apply NoDup_nil_2 | constructor]. }
  destruct H as [H1 H2]. simpl. repeat split.
  - rewrite length_take. lia.
  - apply (sublist_NoDup _ _ H1), sublist_take.
  - apply Forall_take, H2.
Qed.

End ReadPureFacts.


(* ================================================================== *)
(** * The shape of what the Extractor returns *)
(* ================================================================== *)

Section ExtractionShapeFacts.
Import Regex Extractor Contradiction.

Lemma detectMarker_not_future (ruleText : string) :
  detectMarker ruleText <> TmFuture.
Proof.
  unfold detectMarker.
  destruct (test negationCue ruleText); [discriminate|].
  destruct (test pastCue ruleText); discriminate.
Qed.

Lemma ruleOfMatch_shape (content : string) (m : mres) (r : ExtractedStyleRule) :
  In r (ruleOfMatch content m) -> ruleShape r.
Proof.
  destruct (ruleOfMatch_cases content m) as [(H1 & H2 & ->) | (_ & ->)];
    [|intros []].
  intros [<- | []]. unfold ruleShape, ruleFor. simpl.
  repeat split; auto using detectMarker_not_future.
Qed.

Lemma slice_length (n : nat) (s : string) : String.length (Js.slice 0 n s) <= n.
Proof.
  unfold Js.slice, Js.str, Js.chars.
  rewrite <- (string_of_list_ascii_of_string (string_of_list_ascii _)) at 1.
  rewrite list_ascii_of_string_of_list_ascii.
  rewrite <- chars_length. unfold Js.chars.
  rewrite list_ascii_of_string_of_list_ascii, length_firstn. lia.
Qed.

(** X4: every style rule that [extractFromMessages] returns is global,
    has confidence 0.7 and no strict flag, carries the marker computed
    from its own text, which is never [future], and has a text of 11 to
    199 characters; no relation is ever extracted, and the raw snippet
    has at most 500 characters. *)
Theorem extractFromMessages_rules_shape (params : WriteToGraphParams) :
  let result := extractFromMessages params in
  Forall ruleShape (ex_styleRules result)
  /\ ex_relations result = []
  /\ String.length (ex_rawSnippet result) <= 500.
Proof.
  unfold extractFromMessages. rewrite fold_step. simpl.
  split; [|split; [reflexivity | apply slice_length]].
  apply List.Forall_forall. intros r H.
  apply in_flat_map in H as (msg & _ & H).
  apply rulesOfContent_In in H as (m & _ & H).
  apply ruleOfMatch_shape in H. exact H.
Qed.

Lemma entityOfMatch_shape (content : string) (m : mres) (e : ExtractedEntity) :
  In e (entityOfMatch content m) -> conceptShape e.
Proof.
  unfold entityOfMatch.
  destruct (2 <? _) eqn:E1; simpl; [|intros []].
  destruct (_ <? 100) eqn:E2; simpl; [|intros []].
  destruct (isCommon _) eqn:E3; simpl; [intros []|].
  intros [<- | []]. unfold conceptShape. simpl.
  apply Nat.ltb_lt in E1, E2. apply bool_decide_eq_false in E3.
  split; [reflexivity|]. split; [exact E3|].
  eexists. split; [reflexivity|]. lia.
Qed.

Lemma entitiesOfContent_shape (c : string) :
  Forall conceptShape (entitiesOfContent c).
Proof.
  apply List.Forall_forall. intros e H. unfold entitiesOfContent in H.
  apply in_flat_map in H as (p & _ & H). apply in_flat_map in H as (m & _ & H).
  apply entityOfMatch_shape in H. exact H.
Qed.

Lemma mapSet_keys (name : string) (e : ExtractedEntity)
      (m : list (string * ExtractedEntity)) :
  map fst (mapSet name e m)
  = if existsb (String.eqb name) (map fst m) then map fst m
    else (map fst m ++ [name])%list.
Proof.
  induction m as [|[k v] m IH]; simpl; [reflexivity|].
  rewrite (String.eqb_sym name k).
  destruct (String.eqb k name) eqn:E; simpl; [reflexivity|].
  rewrite IH. destruct (existsb _ _); reflexivity.
Qed.

Lemma mapSet_values (name : string) (e : ExtractedEntity)
      (m : list (string * ExtractedEntity)) (kv : string * ExtractedEntity) :
  In kv (mapSet name e m) -> In kv m \/ kv = (name, e).
Proof.
  induction m as [|[k v] m IH]; simpl.
  - intros [<- | []]. tauto.
  - destruct (String.eqb k name) eqn:E.
    + apply String.eqb_eq in E. subst k. simpl. intros [<- | H]; tauto.
    + simpl. intros [<- | H]; [tauto|]. destruct (IH H); tauto.
Qed.

Lemma mapSet_keyed (e : ExtractedEntity) (m : list (string * ExtractedEntity)) :
  keyedByName m -> keyedByName (mapSet (ent_name e) e m).
Proof.
  intros [H1 H2]. split.
  - rewrite mapSet_keys. destruct (existsb _ _) eqn:E; [exact H1|].
    apply NoDup_app. split; [exact H1 | split; [|apply NoDup_singleton]].
    intros x Hx Hx'. apply list_elem_of_In in Hx, Hx'.
    destruct Hx' as [<- | []].
    assert (existsb (String.eqb (ent_name e)) (map fst m) = true);
      [|congruence].
    apply existsb_exists. exists (ent_name e).
    split; [exact Hx | apply String.eqb_refl].
  - intros kv H. apply mapSet_values in H as [H | ->];
      [apply H2, H | reflexivity].
Qed.

Lemma uniqueEntities_keyed (l : list ExtractedEntity)
      (m : list (string * ExtractedEntity)) :
  keyedByName m ->
  keyedByName (fold_left (fun m e => mapSet (ent_name e) e m) l m).
Proof.
  revert m. induction l as [|e l IH]; intros m H; simpl;
    [exact H | apply IH, mapSet_keyed, H].
Qed.

Lemma keyed_names (m : list (string * ExtractedEntity)) :
  keyedByName m -> map ent_name (map snd m) = map fst m.
Proof.
  intros [_ H]. induction m as [|kv m IH]; simpl; [reflexivity|].
  rewrite IH by (intros; apply H; right; assumption).
  rewrite (H kv) by (left; reflexivity). reflexivity.
Qed.

(** X5: the entities that [extractFromMessages] returns have pairwise
    distinct names, and each one is a Concept whose name is not a stop
    word and is the lower-case form of a captured span of 3 to 99 code
    units: the length is tested on the span, before it is put in lower
    case. *)
Theorem extractFromMessages_entities_shape (params : WriteToGraphParams) :
  let entities := ex_entities (extractFromMessages params) in
  NoDup (map ent_name entities) /\ Forall conceptShape entities.
Proof.
  unfold extractFromMessages. rewrite fold_step. simpl. split.
  - unfold uniqueEntities.
    assert (H : keyedByName
                  (fold_left (fun m e => mapSet (ent_name e) e m)
                     (flat_map (fun msg => entitiesOfContent (content msg))
                        (List.filter (fun msg => isHumanRole (role msg))
                                     (p_messages params))) []))
      by (apply uniqueEntities_keyed; split; [apply NoDup_nil_2 | intros kv []]).
    rewrite keyed_names by exact H. apply H.
  - apply List.Forall_forall. intros e H.
    assert (Hc : Forall conceptOnly
                   (flat_map (fun msg => entitiesOfContent (content msg))
                      (List.filter (fun msg => isHumanRole (role msg))
                                   (p_messages params)))).
    { apply List.Forall_forall. intros x Hx.
      apply in_flat_map in Hx as (msg & _ & Hx).
      revert x Hx. apply List.Forall_forall, entitiesOfContent_concept. }
    apply (proj1 (uniqueEntities_In _ e Hc)) in H.
    apply in_flat_map in H as (msg & _ & H).
    revert e H. apply List.Forall_forall, entitiesOfContent_shape.
Qed.

Lemma overlap_sym (words1 words2 : gset string) :
  (0 <? length (List.filter (fun w => bool_decide (w ∈ words2))
                            (elements words1)))
  = (0 <? length (List.filter (fun w => bool_decide (w ∈ words1))
                              (elements words2))).
Proof.
  apply eq_true_iff_eq. rewrite !overlap_spec.
  split; intros (w & H1 & H2); exists w; tauto.
Qed.

Lemma pairsLoop_sym (lower1 lower2 : string) (pairs : list (string * string)) :
  pairsLoop lower1 lower2 pairs = pairsLoop lower2 lower1 pairs.
Proof.
  induction pairs as [|[a b] rest IH]; simpl; [reflexivity|].
  rewrite IH.
  rewrite (andb_comm (Js.includes lower1 a)), (andb_comm (Js.includes lower1 b)).
  rewrite (orb_comm (_ && Js.includes lower1 a)). reflexivity.
Qed.

(** X6: the contradiction test does not depend on the order of the two
    rule texts: whatever the marker, [detectSimpleContradiction] gives
    the same answer when the new and the existing rule are exchanged. *)
Theorem detectSimpleContradiction_symmetric
        (newRule existingRule marker : string) :
  detectSimpleContradiction newRule existingRule marker
  = detectSimpleContradiction existingRule newRule marker.
Proof.
  unfold detectSimpleContradiction.
  rewrite (pairsLoop_sym (Js.toLowerCase newRule)).
  destruct (String.eqb marker "negated"); [|reflexivity].
  rewrite overlap_sym. reflexivity.
Qed.

End ExtractionShapeFacts.


(* ================================================================== *)
(** * What a statement can change *)
(* ================================================================== *)

Section StatementFacts.
Import Store Cypher.

Lemma graphGrows_refl (g : Graph) : graphGrows g g.
Proof. split; [auto | exists []; rewrite app_nil_r; reflexivity]. Qed.

Lemma graphGrows_trans (g1 g2 g3 : Graph) :
  graphGrows g1 g2 -> graphGrows g2 g3 -> graphGrows g1 g3.
Proof.
  intros [N1 (m1 & E1)] [N2 (m2 & E2)]. split; [auto|].
  exists (m1 ++ m2)%list. rewrite E2, E1, app_assoc. reflexivity.
Qed.

Lemma mergeNode_nodes (r : NodeRef) (onCreate onMatch : list (string * Value))
      (g : Graph) (x : NodeRef) :
  is_Some (nodes (mergeNode r onCreate onMatch g) !! x)
  <-> is_Some (nodes g !! x) \/ x = r.
Proof.
  unfold mergeNode. destruct (nodes g !! r) eqn:E; simpl.
  - destruct (decide (x = r)) as [-> | Hx].
    + rewrite lookup_insert_eq, E. split; eauto.
    + rewrite lookup_insert_ne by congruence. tauto.
  - destruct (decide (x = r)) as [-> | Hx].
    + rewrite lookup_insert_eq. split; eauto.
    + rewrite lookup_insert_ne by congruence. tauto.
Qed.

Lemma mergeNode_edges (r : NodeRef) (onCreate onMatch : list (string * Value))
      (g : Graph) :
  edges (mergeNode r onCreate onMatch g) = edges g.
Proof. unfold mergeNode. destruct (nodes g !! r); reflexivity. Qed.

Lemma setNode_nodes (r : NodeRef) (kvs : list (string * Value)) (g : Graph)
      (x : NodeRef) :
  is_Some (nodes (setNode r kvs g) !! x) <-> is_Some (nodes g !! x).
Proof.
  unfold setNode. destruct (nodes g !! r) eqn:E; simpl; [|tauto].
  destruct (decide (x = r)) as [-> | Hx].
  - rewrite lookup_insert_eq, E. split; eauto.
  - rewrite lookup_insert_ne by congruence. tauto.
Qed.

Lemma setNode_edges (r : NodeRef) (kvs : list (string * Value)) (g : Graph) :
  edges (setNode r kvs g) = edges g.
Proof. unfold setNode. destruct (nodes g !! r); reflexivity. Qed.

Lemma mergeEdge_nodes (ty : EdgeType) (src dst : NodeRef)
      (pat onCreate always : list (string * Value)) (g : Graph) :
  nodes (mergeEdge ty src dst pat onCreate always g) = nodes g.
Proof. unfold mergeEdge. destruct (existsb _ _); reflexivity. Qed.

Lemma mergeEdge_ends (ty : EdgeType) (src dst : NodeRef)
      (pat onCreate always : list (string * Value)) (g : Graph) :
  exists more,
    map edgeEnds (edges (mergeEdge ty src dst pat onCreate always g))
    = (map edgeEnds (edges g) ++ more)%list.
Proof.
  unfold mergeEdge. destruct (existsb _ _); simpl.
  - exists []. rewrite app_nil_r, map_map. apply map_ext.
    intros e. destruct (edgeMatches _ _ _ _ e); reflexivity.
  - exists [(ty, src, dst)]. rewrite map_app. reflexivity.
Qed.

Lemma mergeNode_grows (r : NodeRef) (onCreate onMatch : list (string * Value))
      (g : Graph) :
  graphGrows g (mergeNode r onCreate onMatch g).
Proof.
  split.
  - intros x H. apply mergeNode_nodes. left. exact H.
  - exists []. rewrite mergeNode_edges, app_nil_r. reflexivity.
Qed.

Lemma setNode_grows (r : NodeRef) (kvs : list (string * Value)) (g : Graph) :
  graphGrows g (setNode r kvs g).
Proof.
  split.
  - intros x H. apply setNode_nodes. exact H.
  - exists []. rewrite setNode_edges, app_nil_r. reflexivity.
Qed.

Lemma mergeEdge_grows (ty : EdgeType) (src dst : NodeRef)
      (pat onCreate always : list (string * Value)) (g : Graph) :
  graphGrows g (mergeEdge ty src dst pat onCreate always g).
Proof.
  split; [rewrite mergeEdge_nodes; auto | apply mergeEdge_ends].
Qed.

Lemma whenMatch_grows (r : NodeRef) (rest : Graph -> Graph) (g : Graph) :
  (forall g', graphGrows g' (rest g')) -> graphGrows g (whenMatch r rest g).
Proof.
  intros H. unfold whenMatch. destruct (matchNode r g);
    [apply H | apply graphGrows_refl].
Qed.

Lemma whenMatch_nodes (r : NodeRef) (rest : Graph -> Graph) (g : Graph) :
  (forall g', nodes (rest g') = nodes g') -> nodes (whenMatch r rest g) = nodes g.
Proof.
  intros H. unfold whenMatch. destruct (matchNode r g); [apply H | reflexivity].
Qed.

End StatementFacts.

Ltac grows_step :=
  first [ apply graphGrows_refl
        | apply mergeNode_grows
        | apply setNode_grows
        | apply mergeEdge_grows
        | apply whenMatch_grows; intros ?
        | eapply graphGrows_trans; [|apply mergeEdge_grows]
        | eapply graphGrows_trans; [|apply mergeNode_grows]
        | eapply graphGrows_trans; [|apply whenMatch_grows; intros ?] ].

Ltac nodes_step :=
  first [ rewrite mergeEdge_nodes
        | rewrite whenMatch_nodes by (intros; repeat nodes_step; reflexivity)
        | rewrite mergeNode_nodes
        | rewrite setNode_nodes ].

Section ExecFacts.
Import Store Cypher.

Lemma exec_grows (s : Stmt) (t : nat) (g : Graph) :
  graphGrows g (exec s t g).1.
Proof.
  destruct s; simpl; try apply graphGrows_refl;
    try (repeat grows_step; fail).
  destruct sessionId, artifactId; repeat grows_step.
Qed.

Lemma whenMatch_new (r : NodeRef) (rest : Graph -> Graph) (g : Graph)
      (P : NodeRef -> Prop) (x : NodeRef) :
  (forall g', is_Some (nodes (rest g') !! x) -> is_Some (nodes g' !! x) \/ P x) ->
  is_Some (nodes (whenMatch r rest g) !! x) -> is_Some (nodes g !! x) \/ P x.
Proof.
  intros H. unfold whenMatch. destruct (matchNode r g); [apply H | tauto].
Qed.

Lemma exec_nodes (s : Stmt) (t : nat) (g : Graph) (x : NodeRef) :
  is_Some (nodes (exec s t g).1 !! x) ->
  is_Some (nodes g !! x) \/ In x (mergedNodes s).
Proof.
  destruct s; simpl; repeat nodes_step; try (intuition congruence).
  - destruct sessionId, artifactId; simpl; repeat nodes_step;
      intuition congruence.
  - apply (whenMatch_new _ _ _ (fun x => (LArtifact, artifactId) = x \/ False)).
    intros g'. repeat nodes_step. intuition congruence.
Qed.

(** X7: no statement of the write paths removes anything, and the nodes
    it adds are named by the statement itself. After any statement, run
    at any time on any graph, every node of the graph is still there,
    every relationship is still there between the same two nodes, and a
    node that is there was there before or is one of the nodes that the
    statement merges. *)
Theorem exec_never_deletes (s : Stmt) (t : nat) (g : Graph) :
  graphGrows g (exec s t g).1
  /\ forall x, is_Some (nodes (exec s t g).1 !! x)
               -> is_Some (nodes g !! x) \/ In x (mergedNodes s).
Proof. split; [apply exec_grows | apply exec_nodes]. Qed.

End ExecFacts.


(* ================================================================== *)
(** * What a run can change *)
(* ================================================================== *)

(** ** Relations kept by every step of a program *)

Section Keeps.
Variable R : World -> World -> Prop.
Hypothesis R_refl : forall w, R w w.
Hypothesis R_trans : forall w1 w2 w3, R w1 w2 -> R w2 w3 -> R w1 w3.

Lemma keeps_ret {A} (a : A) : keeps R (ret a).
Proof. intros w. apply R_refl. Qed.

Lemma keeps_throw {A} (e : Err) : keeps R (@throw A e).
Proof. intros w. apply R_refl. Qed.

Lemma keeps_get : keeps R get.
Proof. intros w. apply R_refl. Qed.

Lemma keeps_bind {A B} (m : M A) (k : A -> M B) :
  keeps R m -> (forall a, keeps R (k a)) -> keeps R (bind m k).
Proof.
  intros Hm Hk w. unfold bind. specialize (Hm w).
  destruct (m w) as [[a | e] w1]; simpl in *; [|exact Hm].
  eapply R_trans; [exact Hm | apply Hk].
Qed.

Lemma keeps_tryCatch {A} (m : M A) (h : Err -> M A) :
  keeps R m -> (forall e, keeps R (h e)) -> keeps R (tryCatch m h).
Proof.
  intros Hm Hh w. unfold tryCatch. specialize (Hm w).
  destruct (m w) as [[a | e] w1]; simpl in *; [exact Hm|].
  eapply R_trans; [exact Hm | apply Hh].
Qed.

Lemma keeps_forEach {A} (l : list A) (body : A -> M unit) :
  (forall x, In x l -> keeps R (body x)) -> keeps R (forEach l body).
Proof.
  induction l as [|x l IH]; intros H; simpl; [apply keeps_ret|].
  apply keeps_bind; [apply H; left; reflexivity|].
  intros _. apply IH. intros y Hy. apply H. right. exact Hy.
Qed.

Lemma keeps_get_bind {A} (k : World -> M A) :
  (forall w0, keepsFrom (fun w => w = w0) R (k w0)) -> keeps R (bind get k).
Proof. intros H w. unfold bind, get. apply (H w w eq_refl). Qed.

Lemma keepsFrom_keeps {A} (P : World -> Prop) (m : M A) :
  keeps R m -> keepsFrom P R m.
Proof. intros H w _. apply H. Qed.

Lemma keepsFrom_bind {A B} (P : World -> Prop) (m : M A) (k : A -> M B) :
  keepsFrom P R m -> (forall a, keeps R (k a)) -> keepsFrom P R (bind m k).
Proof.
  intros Hm Hk w Hw. unfold bind. specialize (Hm w Hw).
  destruct (m w) as [[a | e] w1]; simpl in *; [|exact Hm].
  eapply R_trans; [exact Hm | apply Hk].
Qed.

Lemma keepsFrom_tryCatch {A} (P : World -> Prop) (m : M A) (h : Err -> M A) :
  keepsFrom P R m -> (forall e, keeps R (h e)) -> keepsFrom P R (tryCatch m h).
Proof.
  intros Hm Hh w Hw. unfold tryCatch. specialize (Hm w Hw).
  destruct (m w) as [[a | e] w1]; simpl in *; [exact Hm|].
  eapply R_trans; [exact Hm | apply Hh].
Qed.

End Keeps.

(** The structure of a program is walked through; [prim] closes the
    calls of the client. *)
Ltac keeps_walk refl trans prim :=
  repeat first
    [ apply (keeps_ret _ refl)
    | apply (keeps_throw _ refl)
    | apply (keeps_get _ refl)
    | prim
    | apply (keeps_bind _ trans); [|intros ?]
    | apply (keeps_tryCatch _ trans); [|intros ?]
    | apply (keeps_forEach _ refl trans); intros ? ?
    | match goal with
      | |- keeps _ (if ?b then _ else _) => destruct b
      | |- keeps _ (match ?x with _ => _ end) => destruct x
      end ].

(** ** The world only grows *)


Lemma worldGrows_client (w w1 : World) :
  env_GRAPHRAG_MODE w1 = env_GRAPHRAG_MODE w ->
  env_GRAPHRAG_CONTRADICTION_STRATEGY w1
  = env_GRAPHRAG_CONTRADICTION_STRATEGY w ->
  reachable w1 = reachable w -> failing w1 = failing w ->
  graph w1 = graph w -> sent w1 = sent w -> now w1 = now w ->
  attempts w <= attempts w1 -> uuids w <= uuids w1 ->
  worldGrows w w1.
Proof.
  intros H1 H2 H3 H4 H5 H6 H7 H8 H9. unfold worldGrows.
  rewrite H5, H6, H7.
  split; [exact H1|]. split; [exact H2|]. split; [exact H3|].
  split; [exact H4|]. split; [apply graphGrows_refl|].
  split; [exists []; rewrite app_nil_r; reflexivity|]. lia.
Qed.

Lemma worldGrows_refl (w : World) : worldGrows w w.
Proof.
  apply worldGrows_client; reflexivity.
Qed.

Lemma worldGrows_trans (w1 w2 w3 : World) :
  worldGrows w1 w2 -> worldGrows w2 w3 -> worldGrows w1 w3.
Proof.
  intros (A1 & A2 & A3 & A4 & A5 & (m1 & A6) & A7 & A8 & A9)
         (B1 & B2 & B3 & B4 & B5 & (m2 & B6) & B7 & B8 & B9).
  unfold worldGrows.
  split; [congruence|]. split; [congruence|]. split; [congruence|].
  split; [congruence|]. split; [eapply graphGrows_trans; eassumption|].
  split; [exists (m1 ++ m2)%list; rewrite B6, A6, app_assoc; reflexivity|].
  lia.
Qed.

Lemma grows_modify (f : World -> World) :
  (forall w, worldGrows w (f w)) -> keeps worldGrows (modify f).
Proof. intros H w. apply H. Qed.

Lemma grows_setDriver (b : bool) : keeps worldGrows (modify (setDriver b)).
Proof. intros w. apply worldGrows_client; simpl; auto. Qed.

Lemma grows_setDriverInitAttempted (b : bool) :
  keeps worldGrows (modify (setDriverInitAttempted b)).
Proof. intros w. apply worldGrows_client; simpl; auto. Qed.

Lemma grows_setConfig (c : option GraphDBConfig) :
  keeps worldGrows (modify (setConfig c)).
Proof. intros w. apply worldGrows_client; simpl; auto. Qed.

Lemma grows_setSchemaInitialized (b : bool) :
  keeps worldGrows (modify (setSchemaInitialized b)).
Proof. intros w. apply worldGrows_client; simpl; auto. Qed.

Lemma grows_connect : keeps worldGrows connect.
Proof.
  intros w. unfold connect.
  destruct (constructs w (attempts w)), (reachable w (attempts w));
    apply worldGrows_client; simpl; auto.
Qed.

Lemma grows_randomUUID : keeps worldGrows randomUUID.
Proof. intros w. apply worldGrows_client; simpl; auto. Qed.

Lemma grows_sessionRun (s : Cypher.Stmt) : keeps worldGrows (sessionRun s).
Proof.
  intros w. unfold sessionRun.
  destruct (failing w (length (sent w)) || Cypher.refused s).
  - simpl. unfold worldGrows. simpl.
    repeat (split; [reflexivity|]).
    split; [apply graphGrows_refl|]. split; [eauto|]. lia.
  - pose proof (exec_grows s (now w) (graph w)) as H.
    destruct (Cypher.exec s (now w) (graph w)) as [g rows]. simpl in *.
    unfold worldGrows. simpl.
    repeat (split; [reflexivity|]).
    split; [exact H|]. split; [eauto|]. lia.
Qed.

Ltac grows_prim :=
  first [ apply grows_connect | apply grows_randomUUID | apply grows_sessionRun
        | apply grows_setDriver | apply grows_setDriverInitAttempted
        | apply grows_setConfig | apply grows_setSchemaInitialized ].

Ltac grows_walk := keeps_walk worldGrows_refl worldGrows_trans grows_prim.

Lemma grows_getDriver : keeps worldGrows GraphDb.getDriver.
Proof. unfold GraphDb.getDriver. grows_walk. Qed.

Lemma grows_runWith (prefix : string) (s : Cypher.Stmt) :
  keeps worldGrows (GraphDb.runWith prefix s).
Proof.
  unfold GraphDb.runWith.
  keeps_walk worldGrows_refl worldGrows_trans
             ltac:(first [apply grows_getDriver | grows_prim]).
Qed.

Lemma grows_runQueryVia (getDriver : M bool) (s : Cypher.Stmt) :
  keeps worldGrows getDriver ->
  keeps worldGrows (GraphDbJs.runQueryVia getDriver s).
Proof.
  intros H. unfold GraphDbJs.runQueryVia.
  keeps_walk worldGrows_refl worldGrows_trans
             ltac:(first [apply H | grows_prim]).
Qed.

Lemma grows_getDriverNested : keeps worldGrows GraphDbJs.getDriverNested.
Proof. unfold GraphDbJs.getDriverNested. grows_walk. Qed.

Lemma grows_getDriverJs : keeps worldGrows GraphDbJs.getDriver.
Proof.
  unfold GraphDbJs.getDriver, GraphDbJs.ensureGraphSchema.
  keeps_walk worldGrows_refl worldGrows_trans
             ltac:(first [ apply grows_runQueryVia, grows_getDriverNested
                         | grows_prim ]).
Qed.

Lemma grows_runQueryJs (s : Cypher.Stmt) : keeps worldGrows (GraphDbJs.runQuery s).
Proof. apply grows_runQueryVia, grows_getDriverJs. Qed.

Ltac grows_v1 :=
  keeps_walk worldGrows_refl worldGrows_trans
             ltac:(first [ apply grows_runWith | apply grows_getDriver
                         | grows_prim ]).

Ltac grows_v2 :=
  keeps_walk worldGrows_refl worldGrows_trans
             ltac:(first [ apply grows_runQueryJs | apply grows_getDriverJs
                         | grows_prim ]).

Lemma grows_writeToGraph (input : WriteToGraph.WritePathInput) :
  keeps worldGrows (WriteToGraph.writeToGraph input).
Proof.
  unfold WriteToGraph.writeToGraph, WriteToGraph.createExtractionNode,
    WriteToGraph.upsertConcept, WriteToGraph.upsertRelation,
    WriteToGraph.upsertStyleRule, GraphDb.runWriteQuery.
  grows_v1.
Qed.

Lemma grows_extractAndWriteToGraph (params : WriteToGraphParams) :
  keeps worldGrows (ExtractAndWrite.extractAndWriteToGraph params).
Proof.
  unfold ExtractAndWrite.extractAndWriteToGraph,
    ExtractAndWrite.ensureSessionArtifactNodes,
    ExtractAndWrite.writeExtractionToGraph, ExtractAndWrite.writeRule,
    ExtractAndWrite.detectAndRecordContradictions, ExtractAndWrite.checkRecord.
  grows_v2.
Qed.

(** X8: whatever the input, the mode and the behaviour of the store,
    and whether it returns or throws, [writeToGraph] removes no node and
    no relationship, withdraws no statement from the log and leaves the
    environment alone. *)
Theorem writeToGraph_only_adds (input : WriteToGraph.WritePathInput)
        (w : World) :
  worldGrows w (WriteToGraph.writeToGraph input w).2.
Proof. apply grows_writeToGraph. Qed.

(** X9: the same for the write path over the extractor: whatever the
    messages, the mode and the behaviour of the store,
    [extractAndWriteToGraph] removes no node and no relationship, so that
    a rule that loses against a newer one is kept as an inactive node. *)
Theorem extractAndWriteToGraph_only_adds (params : WriteToGraphParams)
        (w : World) :
  worldGrows w (ExtractAndWrite.extractAndWriteToGraph params w).2.
Proof. apply grows_extractAndWriteToGraph. Qed.



(* ================================================================== *)
(** * Connection attempts *)
(* ================================================================== *)

Section AttemptFacts.
Import Store Cypher.

Lemma withinBudget_refl (w : World) : withinBudget w w.
Proof. unfold withinBudget. lia. Qed.

Lemma withinBudget_trans (w1 w2 w3 : World) :
  withinBudget w1 w2 -> withinBudget w2 w3 -> withinBudget w1 w3.
Proof. unfold withinBudget. lia. Qed.

Lemma budget_sessionRun (s : Stmt) : keeps withinBudget (sessionRun s).
Proof.
  intros w. unfold sessionRun, withinBudget, attemptBudget.
  destruct (failing w (length (sent w)) || refused s); [simpl; lia|].
  destruct (exec s (now w) (graph w)). simpl. lia.
Qed.

Lemma budget_getDriver : keeps withinBudget GraphDb.getDriver.
Proof.
  intros w.
  unfold GraphDb.getDriver, withinBudget, attemptBudget, bind, get, modify,
    tryCatch, connect, ret, throw.
  destruct (bool_decide (GraphDb.getGraphRAGMode w = OFF)); simpl; [lia|].
  destruct (_driverInitAttempted w) eqn:E; simpl; [rewrite E; lia|].
  destruct (constructs w (attempts w)), (reachable w (attempts w)); simpl;
    try lia; destruct (bool_decide _); simpl; lia.
Qed.

Ltac budget_v1 :=
  keeps_walk withinBudget_refl withinBudget_trans
             ltac:(first [apply budget_getDriver | apply budget_sessionRun]).

Lemma budget_runWith (prefix : string) (s : Stmt) :
  keeps withinBudget (GraphDb.runWith prefix s).
Proof. unfold GraphDb.runWith. budget_v1. Qed.

Lemma budget_writeToGraph (input : WriteToGraph.WritePathInput) :
  keeps withinBudget (WriteToGraph.writeToGraph input).
Proof.
  unfold WriteToGraph.writeToGraph, WriteToGraph.createExtractionNode,
    WriteToGraph.upsertConcept, WriteToGraph.upsertRelation,
    WriteToGraph.upsertStyleRule, GraphDb.runWriteQuery.
  keeps_walk withinBudget_refl withinBudget_trans
             ltac:(apply budget_runWith).
Qed.

(** X10: a call of [writeToGraph] makes at most one connection attempt,
    however many statements it sends and whatever fails, and none at all
    once the client of [graphdb.ts] has tried to connect before. *)
Theorem writeToGraph_connects_at_most_once
        (input : WriteToGraph.WritePathInput) (w : World) :
  let w1 := (WriteToGraph.writeToGraph input w).2 in
  attempts w1 <= attempts w + 1
  /\ (_driverInitAttempted w = true -> attempts w1 = attempts w).
Proof.
  pose proof (budget_writeToGraph input w) as H.
  pose proof (grows_writeToGraph input w) as G.
  destruct G as (_ & _ & _ & _ & _ & _ & _ & G & _).
  unfold withinBudget, attemptBudget in H. cbv zeta.
  set (w1 := (WriteToGraph.writeToGraph input w).2) in *.
  destruct (_driverInitAttempted w), (_driverInitAttempted w1);
    (split; [lia | intros E; try discriminate E; lia]).
Qed.

(** The client of [graphdb.js]. *)

Lemma withinBudgetJs_refl (w : World) : withinBudgetJs w w.
Proof. split; [reflexivity | intros _; lia]. Qed.

Lemma withinBudgetJs_trans (w1 w2 w3 : World) :
  withinBudgetJs w1 w2 -> withinBudgetJs w2 w3 -> withinBudgetJs w1 w3.
Proof.
  intros [A1 A2] [B1 B2]. split; [congruence|]. intros H.
  specialize (A2 H). rewrite A1 in B2. specialize (B2 H). lia.
Qed.

Lemma budgetJs_sessionRun (s : Stmt) : keeps withinBudgetJs (sessionRun s).
Proof.
  intros w. unfold sessionRun, withinBudgetJs, attemptBudgetJs.
  destruct (failing w (length (sent w)) || refused s);
    [simpl; split; [reflexivity | intros _; lia]|].
  destruct (exec s (now w) (graph w)). simpl.
  split; [reflexivity | intros _; lia].
Qed.

Lemma budgetJs_randomUUID : keeps withinBudgetJs randomUUID.
Proof.
  intros w. unfold withinBudgetJs, attemptBudgetJs. simpl.
  split; [reflexivity | intros _; lia].
Qed.

Lemma budgetJs_setConfig (c : option GraphDBConfig) :
  keeps withinBudgetJs (modify (setConfig c)).
Proof.
  intros w. unfold withinBudgetJs, attemptBudgetJs. simpl.
  split; [reflexivity | intros _; lia].
Qed.

Lemma budgetJs_setSchemaInitialized (b : bool) :
  keeps withinBudgetJs (modify (setSchemaInitialized b)).
Proof.
  intros w. unfold withinBudgetJs, attemptBudgetJs. simpl.
  split; [reflexivity | intros _; lia].
Qed.

Ltac budgetJs_prim :=
  first [ apply budgetJs_sessionRun | apply budgetJs_randomUUID
        | apply budgetJs_setConfig | apply budgetJs_setSchemaInitialized ].

Lemma budgetJs_getDriverNested : keeps withinBudgetJs GraphDbJs.getDriverNested.
Proof.
  unfold GraphDbJs.getDriverNested.
  keeps_walk withinBudgetJs_refl withinBudgetJs_trans budgetJs_prim.
Qed.

Lemma budgetJs_runQueryVia (getDriver : M bool) (s : Stmt) :
  keeps withinBudgetJs getDriver ->
  keeps withinBudgetJs (GraphDbJs.runQueryVia getDriver s).
Proof.
  intros H. unfold GraphDbJs.runQueryVia.
  keeps_walk withinBudgetJs_refl withinBudgetJs_trans
             ltac:(first [apply H | budgetJs_prim]).
Qed.

(** A connection attempt that gets its driver object leaves the client
    with a driver, whether the store answers or not. *)
Lemma budgetJs_connect :
  keepsFrom (fun w => _driver w = false) withinBudgetJs connect.
Proof.
  intros w Hw. unfold connect, withinBudgetJs, attemptBudgetJs. rewrite Hw.
  destruct (constructs w (attempts w)) eqn:Ec; simpl.
  - destruct (reachable w (attempts w)); simpl;
      (split; [reflexivity | intros _; lia]).
  - split; [reflexivity|]. intros H. rewrite H in Ec. discriminate Ec.
Qed.

Lemma budgetJs_getDriver : keeps withinBudgetJs GraphDbJs.getDriver.
Proof.
  unfold GraphDbJs.getDriver.
  apply (keeps_get_bind _). intros w0.
  destruct (String.eqb _ "OFF");
    [apply keepsFrom_keeps, (keeps_ret _ withinBudgetJs_refl)|].
  destruct (_driver w0) eqn:E;
    [apply keepsFrom_keeps, (keeps_ret _ withinBudgetJs_refl)|].
  apply (keepsFrom_tryCatch _ withinBudgetJs_trans).
  - apply (keepsFrom_bind _ withinBudgetJs_trans).
    + intros w ->. apply budgetJs_connect, E.
    + intros _. unfold GraphDbJs.ensureGraphSchema.
      keeps_walk withinBudgetJs_refl withinBudgetJs_trans
                 ltac:(first [ apply budgetJs_runQueryVia,
                                 budgetJs_getDriverNested
                             | budgetJs_prim ]).
  - intros e.
    keeps_walk withinBudgetJs_refl withinBudgetJs_trans budgetJs_prim.
Qed.

Lemma budgetJs_runQuery (s : Stmt) : keeps withinBudgetJs (GraphDbJs.runQuery s).
Proof. apply budgetJs_runQueryVia, budgetJs_getDriver. Qed.

Lemma budgetJs_extractAndWriteToGraph (params : WriteToGraphParams) :
  keeps withinBudgetJs (ExtractAndWrite.extractAndWriteToGraph params).
Proof.
  unfold ExtractAndWrite.extractAndWriteToGraph,
    ExtractAndWrite.ensureSessionArtifactNodes,
    ExtractAndWrite.writeExtractionToGraph, ExtractAndWrite.writeRule,
    ExtractAndWrite.detectAndRecordContradictions, ExtractAndWrite.checkRecord.
  keeps_walk withinBudgetJs_refl withinBudgetJs_trans
             ltac:(first [apply budgetJs_runQuery | budgetJs_prim]).
Qed.

(** X11: while every connection attempt gets its driver object (the
    driver module loads and [driver(...)] returns), a call of
    [extractAndWriteToGraph] makes at most one connection attempt, and
    none once the client of [graphdb.js] holds a driver object; it holds
    one after such an attempt even when the store did not answer, so
    that this failed connection is never tried again. *)
Theorem extractAndWriteToGraph_connects_at_most_once
        (params : WriteToGraphParams) (w : World) :
  (forall n, constructs w n = true) ->
  let w1 := (ExtractAndWrite.extractAndWriteToGraph params w).2 in
  attempts w1 <= attempts w + 1
  /\ (_driver w = true -> attempts w1 = attempts w)
  /\ (attempts w1 = attempts w + 1 -> _driver w1 = true).
Proof.
  intros Hc.
  pose proof (budgetJs_extractAndWriteToGraph params w) as [_ H].
  specialize (H Hc).
  pose proof (grows_extractAndWriteToGraph params w) as G.
  destruct G as (_ & _ & _ & _ & _ & _ & _ & G & _).
  unfold attemptBudgetJs in H. cbv zeta.
  set (w1 := (ExtractAndWrite.extractAndWriteToGraph params w).2) in *.
  destruct (_driver w), (_driver w1);
    (split; [lia | split; intros E; try discriminate E; try reflexivity; lia]).
Qed.

(** The theorem for a message of a user while the store is down: the
    one connection attempt of the call fails and leaves a driver
    object. *)
Lemma extractAndWriteToGraph_connects_at_most_once_witness :
  (forall n, constructs storeDown n = true)
  /\ attempts (ExtractAndWrite.extractAndWriteToGraph formalAtlas storeDown).2
     = 1
  /\ _driver (ExtractAndWrite.extractAndWriteToGraph formalAtlas storeDown).2
     = true.
Proof.
  split; [intros n; reflexivity|].
  destruct (extractAndWriteToGraph_connects_at_most_once formalAtlas storeDown
              (fun n => eq_refl)) as (_ & _ & H).
  assert (E : attempts
                (ExtractAndWrite.extractAndWriteToGraph formalAtlas storeDown).2
              = 1) by (vm_compute; reflexivity).
  split; [exact E | apply H; rewrite E; reflexivity].
Defined.

(** Without the driver module the client of [graphdb.js] never holds a
    driver object, and every call of [runQuery] in a mode other than OFF
    makes a connection attempt of its own. *)
Lemma runQuery_retries (s : Stmt) (w : World) :
  GraphDbJs.getGraphRAGMode w <> "OFF" ->
  _driver w = false ->
  constructs w (attempts w) = false ->
  let r := GraphDbJs.runQuery s w in
  attempts r.2 = attempts w + 1
  /\ _driver r.2 = false
  /\ constructs r.2 = constructs w
  /\ sent r.2 = sent w
  /\ (GraphDbJs.getGraphRAGMode w <> "REQUIRED" -> r.1 = Ok None).
Proof.
  intros Hm Hd Hc. cbv zeta.
  unfold GraphDbJs.runQuery, GraphDbJs.runQueryVia, GraphDbJs.getDriver,
    bind, get, ret, throw, tryCatch, connect.
  apply String.eqb_neq in Hm. rewrite Hm, Hd, Hc. cbn [negb].
  destruct (String.eqb (GraphDbJs.getGraphRAGMode w) "REQUIRED") eqn:Er;
    cbn.
  - split; [lia|]. split; [exact Hd|]. split; [reflexivity|].
    split; [reflexivity|]. intros H. apply String.eqb_eq in Er. contradiction.
  - split; [lia|]. split; [exact Hd|]. split; [reflexivity|].
    split; [reflexivity|]. intros _. reflexivity.
Qed.

(** X23: while the driver module cannot be loaded, every call of
    [runQuery] of [graphdb.js] in a mode other than OFF and REQUIRED
    makes one more connection attempt, returns [null] and sends nothing:
    the client never holds a driver object, and a failure of this kind
    is tried again at every statement. *)
Theorem runQuery_retries_without_driver_module (s : Stmt) (w : World) :
  GraphDbJs.getGraphRAGMode w <> "OFF" ->
  GraphDbJs.getGraphRAGMode w <> "REQUIRED" ->
  _driver w = false ->
  (forall n, constructs w n = false) ->
  let r := GraphDbJs.runQuery s w in
  r.1 = Ok None
  /\ attempts r.2 = attempts w + 1
  /\ sent r.2 = sent w
  /\ _driver r.2 = false
  /\ (forall n, constructs r.2 n = false).
Proof.
  intros Hm Hr Hd Hc.
  destruct (runQuery_retries s w Hm Hd (Hc _)) as (H1 & H2 & H3 & H4 & H5).
  cbv zeta. split; [apply H5, Hr|]. split; [exact H1|]. split; [exact H4|].
  split; [exact H2|]. intros n. rewrite H3. apply Hc.
Qed.

Lemma runQuery_retries_without_driver_module_witness :
  (forall n, constructs noDriverModule n = false)
  /\ (let r := GraphDbJs.runQuery (MergeUser "user-1") noDriverModule in
      r.1 = Ok None
      /\ attempts r.2 = attempts noDriverModule + 1
      /\ sent r.2 = sent noDriverModule
      /\ _driver r.2 = false
      /\ (forall n, constructs r.2 n = false)).
Proof.
  split; [intros n; reflexivity|].
  apply (runQuery_retries_without_driver_module (MergeUser "user-1")
           noDriverModule).
  - vm_compute. discriminate.
  - vm_compute. discriminate.
  - reflexivity.
  - intros n. reflexivity.
Defined.

(** A call for one human message in such a process: seven statements
    are due, each of them makes a connection attempt of its own, and
    none is sent. *)
Lemma extractAndWriteToGraph_retries_without_driver_module :
  let r := ExtractAndWrite.extractAndWriteToGraph formalAtlas noDriverModule in
  r.1 = Ok tt /\ attempts r.2 = 7 /\ sent r.2 = [] /\ _driver r.2 = false.
Proof. vm_compute. repeat split. Qed.

End AttemptFacts.


(* ================================================================== *)
(** * The nodes that a write path can create *)
(* ================================================================== *)

Section NewNodeFacts.
Import Store Cypher.
Variable P : NodeRef -> Prop.

Lemma onlyNew_refl (w : World) : onlyNew P w w.
Proof. intros r H. left. exact H. Qed.

Lemma onlyNew_trans (w1 w2 w3 : World) :
  onlyNew P w1 w2 -> onlyNew P w2 w3 -> onlyNew P w1 w3.
Proof.
  intros H1 H2 r H. destruct (H2 r H) as [H' | H']; [apply H1, H' | tauto].
Qed.

Lemma onlyNew_same (w w1 : World) : graph w1 = graph w -> onlyNew P w w1.
Proof. intros E r H. left. rewrite <- E. exact H. Qed.

Lemma new_sessionRun (s : Stmt) :
  Forall P (mergedNodes s) -> keeps (onlyNew P) (sessionRun s).
Proof.
  intros Hs w. unfold sessionRun.
  destruct (failing w (length (sent w)) || refused s).
  - apply onlyNew_same. reflexivity.
  - pose proof (exec_nodes s (now w) (graph w)) as H.
    destruct (exec s (now w) (graph w)) as [g rows]. simpl in *.
    intros r Hr. simpl in Hr. destruct (H r Hr) as [H' | H']; [tauto|].
    right. exact (proj1 (List.Forall_forall P (mergedNodes s)) Hs r H').
Qed.

Lemma new_getDriver : keeps (onlyNew P) GraphDb.getDriver.
Proof.
  intros w. apply onlyNew_same.
  destruct (getDriver_sameStore w) as (_ & _ & _ & _ & H & _). exact H.
Qed.

Lemma new_runWith (prefix : string) (s : Stmt) :
  Forall P (mergedNodes s) -> keeps (onlyNew P) (GraphDb.runWith prefix s).
Proof.
  intros Hs. unfold GraphDb.runWith.
  keeps_walk onlyNew_refl onlyNew_trans
             ltac:(first [apply new_getDriver | apply new_sessionRun, Hs]).
Qed.

Lemma new_client (f : World -> World) :
  (forall w, graph (f w) = graph w) -> keeps (onlyNew P) (modify f).
Proof. intros H w. apply onlyNew_same, H. Qed.

Lemma new_connect : keeps (onlyNew P) connect.
Proof.
  intros w. apply onlyNew_same. unfold connect.
  destruct (constructs w (attempts w)), (reachable w (attempts w));
    reflexivity.
Qed.

Lemma new_randomUUID : keeps (onlyNew P) randomUUID.
Proof. intros w. apply onlyNew_same. reflexivity. Qed.

Lemma new_runQueryVia (getDriver : M bool) (s : Stmt) :
  keeps (onlyNew P) getDriver -> Forall P (mergedNodes s) ->
  keeps (onlyNew P) (GraphDbJs.runQueryVia getDriver s).
Proof.
  intros H Hs. unfold GraphDbJs.runQueryVia.
  keeps_walk onlyNew_refl onlyNew_trans
             ltac:(first [apply H | apply new_sessionRun, Hs]).
Qed.

Lemma new_getDriverJs : keeps (onlyNew P) GraphDbJs.getDriver.
Proof.
  unfold GraphDbJs.getDriver, GraphDbJs.ensureGraphSchema,
    GraphDbJs.getDriverNested.
  keeps_walk onlyNew_refl onlyNew_trans
             ltac:(first [ apply new_connect
                         | apply new_client; reflexivity
                         | apply new_runQueryVia; [|constructor] ]).
Qed.

Lemma new_runQueryJs (s : Stmt) :
  Forall P (mergedNodes s) -> keeps (onlyNew P) (GraphDbJs.runQuery s).
Proof. apply new_runQueryVia, new_getDriverJs. Qed.

End NewNodeFacts.

Section NoUserFacts.
Import Store Cypher.

Lemma mergedNodes_notUser (s : Stmt) :
  (forall userId, s <> MergeUser userId) -> Forall notUser (mergedNodes s).
Proof.
  intros H. destruct s; simpl; repeat constructor; try discriminate.
  - destruct sessionId, artifactId; simpl; repeat constructor; discriminate.
  - exfalso. eapply H. reflexivity.
Qed.

Lemma noUser_writeToGraph (input : WriteToGraph.WritePathInput) :
  keeps (onlyNew notUser) (WriteToGraph.writeToGraph input).
Proof.
  unfold WriteToGraph.writeToGraph, WriteToGraph.createExtractionNode,
    WriteToGraph.upsertConcept, WriteToGraph.upsertRelation,
    WriteToGraph.upsertStyleRule, GraphDb.runWriteQuery.
  keeps_walk (onlyNew_refl notUser) (onlyNew_trans notUser)
             ltac:(apply new_runWith, mergedNodes_notUser; discriminate).
Qed.

(** X12: [writeToGraph] never creates a User node: whatever the input
    and the behaviour of the store, a User node that is in the graph
    after the call was there before. *)
Theorem writeToGraph_creates_no_user (input : WriteToGraph.WritePathInput)
        (w : World) (userId : string) :
  matchNode (LUser, userId) (graph (WriteToGraph.writeToGraph input w).2) = true ->
  matchNode (LUser, userId) (graph w) = true.
Proof.
  unfold matchNode. rewrite !bool_decide_eq_true. intros H.
  destruct (noUser_writeToGraph input w _ H) as [H' | H'];
    [exact H' | exfalso; apply H'; reflexivity].
Qed.

Lemma writeToGraph_creates_no_user_witness :
  matchNode (LUser, localUser)
    (graph (WriteToGraph.writeToGraph localInput
              (storeUp "OPTIONAL" seededGraph)).2) = true
  /\ matchNode (LUser, localUser) (graph (storeUp "OPTIONAL" seededGraph)) = true.
Proof.
  split; [vm_compute; reflexivity|].
  apply (writeToGraph_creates_no_user localInput). vm_compute. reflexivity.
Defined.

End NoUserFacts.


(* ================================================================== *)
(** * Runs on a store that answers *)
(* ================================================================== *)

Section SucceedsFacts.

Lemma succeeds_ret {A} (P : World -> Prop) (a : A) (Q : A -> World -> Prop) :
  (forall w, P w -> Q a w) -> succeeds P (ret a) Q.
Proof. intros H w Hw. exists a, w. split; [reflexivity | apply H, Hw]. Qed.

Lemma succeeds_bind {A B} (P : World -> Prop) (m : M A)
      (Q : A -> World -> Prop) (k : A -> M B) (Q' : B -> World -> Prop) :
  succeeds P m Q -> (forall a, succeeds (Q a) (k a) Q') ->
  succeeds P (bind m k) Q'.
Proof.
  intros Hm Hk w Hw. destruct (Hm w Hw) as (a & w1 & E & Ha).
  destruct (Hk a w1 Ha) as (b & w2 & E2 & Hb).
  exists b, w2. unfold bind. rewrite E. split; assumption.
Qed.

Lemma succeeds_tryCatch {A} (P : World -> Prop) (m : M A) (h : Err -> M A)
      (Q : A -> World -> Prop) :
  succeeds P m Q -> succeeds P (tryCatch m h) Q.
Proof.
  intros Hm w Hw. destruct (Hm w Hw) as (a & w1 & E & Ha).
  exists a, w1. unfold tryCatch. rewrite E. split; [reflexivity | exact Ha].
Qed.

Lemma succeeds_weaken {A} (P P' : World -> Prop) (m : M A)
      (Q Q' : A -> World -> Prop) :
  succeeds P m Q -> (forall w, P' w -> P w) -> (forall a w, Q a w -> Q' a w) ->
  succeeds P' m Q'.
Proof.
  intros Hm HP HQ w Hw. destruct (Hm w (HP w Hw)) as (a & w1 & E & Ha).
  exists a, w1. split; [exact E | apply HQ, Ha].
Qed.

(** A run that succeeds from [P] also keeps what the world had before,
    when that can only grow. *)
Lemma succeeds_frame {A} (P : World -> Prop) (m : M A)
      (Q : A -> World -> Prop) (F : World -> Prop) :
  succeeds P m Q -> keeps worldGrows m ->
  (forall w w1, F w -> worldGrows w w1 -> F w1) ->
  succeeds (fun w => P w /\ F w) m (fun a w => Q a w /\ F w).
Proof.
  intros Hm Hk HF w [Hw Fw]. destruct (Hm w Hw) as (a & w1 & E & Ha).
  exists a, w1. split; [exact E|]. split; [exact Ha|].
  apply (HF w); [exact Fw|]. specialize (Hk w). rewrite E in Hk. exact Hk.
Qed.

(** A loop whose body establishes [T x] for its element [x], where
    [T x] holds on once it holds. *)
Lemma succeeds_forEach {A} (I : World -> Prop) (T : A -> World -> Prop)
      (l : list A) (body : A -> M unit) :
  (forall x w w1, T x w -> worldGrows w w1 -> T x w1) ->
  (forall x, keeps worldGrows (body x)) ->
  (forall x, In x l -> succeeds I (body x) (fun _ w => I w /\ T x w)) ->
  succeeds I (forEach l body) (fun _ w => I w /\ forall x, In x l -> T x w).
Proof.
  intros HT Hk. induction l as [|x l IH]; intros Hb; simpl.
  - apply succeeds_ret. intros w Hw. split; [exact Hw | intros x []].
  - eapply succeeds_bind; [apply Hb; left; reflexivity|]. intros u0.
    assert (Hl : succeeds I (forEach l body)
                   (fun _ w => I w /\ forall y, In y l -> T y w))
      by (apply IH; intros y Hy; apply Hb; right; exact Hy).
    pose proof (succeeds_frame _ _ _ (T x) Hl
                  (keeps_forEach _ worldGrows_refl worldGrows_trans l body
                     (fun y _ => Hk y))
                  (HT x)) as H.
    eapply succeeds_weaken; [exact H | tauto|].
    intros u w [[Hi Hy] Hx]. split; [exact Hi|].
    intros y [<- | Hin]; [exact Hx | apply Hy, Hin].
Qed.

End SucceedsFacts.

Section HealthyFacts.
Import Store Cypher GraphDb WriteToGraph.

Lemma healthy_getDriver (w : World) :
  healthy w ->
  exists w1, getDriver w = (Ok true, w1) /\ healthy w1
             /\ _driverInitAttempted w1 = true
             /\ graph w1 = graph w /\ now w1 = now w /\ sent w1 = sent w.
Proof.
  intros (Hm & Hf & Hd).
  unfold getDriver, bind, get, tryCatch, modify, connect, ret, throw.
  rewrite bool_decide_eq_false_2 by exact Hm.
  destruct (_driverInitAttempted w) eqn:E.
  - rewrite Hd. exists w. unfold healthy. rewrite E. tauto.
  - destruct Hd as [Hc Hd]. simpl. rewrite Hc, Hd. simpl.
    eexists. split; [reflexivity|].
    unfold healthy. simpl.
    split; [|tauto]. split; [|tauto].
    erewrite mode_env; [exact Hm | reflexivity].
Qed.

Lemma healthy_runWith (prefix : string) (s : Stmt) (w : World) :
  refused s = false ->
  healthy w ->
  exists w1, runWith prefix s w = (Ok (Some (exec s (now w) (graph w)).2), w1)
             /\ healthy w1
             /\ graph w1 = (exec s (now w) (graph w)).1.
Proof.
  intros Hs H.
  destruct (healthy_getDriver w H) as (w1 & E & H1 & Hi & Hg & Hn & _).
  unfold runWith, bind. rewrite E. simpl.
  unfold get, tryCatch, bind, sessionRun, ret.
  destruct H1 as (Hm & Hf & Hd). rewrite Hf, Hs, Hg, Hn. cbn [orb].
  destruct (exec s (now w) (graph w)) as [g rows]. simpl.
  eexists. split; [reflexivity|]. split; [|reflexivity].
  split; [erewrite mode_env; [exact Hm | reflexivity]|].
  split; [exact Hf|]. simpl. rewrite Hi in *. exact Hd.
Qed.

(** One statement on a healthy store: what holds of the graph before
    and is carried by the statement holds after. *)
Lemma succeeds_runWith (prefix : string) (s : Stmt) (G G' : Graph -> Prop) :
  refused s = false ->
  (forall t g, G g -> G' (exec s t g).1) ->
  succeeds (fun w => healthy w /\ G (graph w)) (runWith prefix s)
           (fun _ w => healthy w /\ G' (graph w)).
Proof.
  intros Hs HG w [H Hg].
  destruct (healthy_runWith prefix s w Hs H) as (w1 & E & H1 & Eg).
  eexists _, w1. split; [exact E|]. split; [exact H1|].
  rewrite Eg. apply HG, Hg.
Qed.

(** A statement that the store refuses, in OPTIONAL mode: [null] comes
    back and nothing is written. *)
Lemma healthy_refused (prefix : string) (s : Stmt) (w : World) :
  refused s = true -> getGraphRAGMode w = OPTIONAL -> healthy w ->
  exists w1, runWith prefix s w = (Ok None, w1)
             /\ healthy w1 /\ graph w1 = graph w
             /\ getGraphRAGMode w1 = OPTIONAL.
Proof.
  intros Hs Ho H.
  destruct (healthy_getDriver w H) as (w1 & E & H1 & Hi & Hg & Hn & _).
  assert (Ho1 : getGraphRAGMode w1 = OPTIONAL).
  { rewrite <- Ho. apply mode_env.
    pose proof (getDriver_sameStore w) as S. rewrite E in S.
    destruct S as [S _]. exact S. }
  unfold runWith, bind. rewrite E. simpl.
  unfold get, tryCatch, bind, sessionRun, ret.
  destruct H1 as (Hm & Hf & Hd). rewrite Hf, Hs. cbn [orb].
  rewrite Ho1. rewrite bool_decide_eq_false_2 by discriminate.
  eexists. split; [reflexivity|].
  split; [|split; [exact Hg | erewrite mode_env; [exact Ho1 | reflexivity]]].
  split; [erewrite mode_env; [exact Hm | reflexivity]|].
  split; [exact Hf|]. simpl. rewrite Hi in *. exact Hd.
Qed.

(** A run that succeeds leaves the mode as it is. *)
Lemma succeeds_sameMode {A} (m0 : GraphRAGMode) (P : World -> Prop) (m : M A)
      (Q : A -> World -> Prop) :
  succeeds P m Q -> keeps worldGrows m ->
  succeeds (fun w => P w /\ getGraphRAGMode w = m0) m
           (fun a w => Q a w /\ getGraphRAGMode w = m0).
Proof.
  intros Hm Hk.
  apply (succeeds_frame P m Q (fun w => getGraphRAGMode w = m0) Hm Hk).
  intros w w1 H (E & _). rewrite <- H. apply mode_env, E.
Qed.

Lemma ends_grow (g g1 : Graph) (x : EdgeType * NodeRef * NodeRef) :
  graphGrows g g1 -> In x (map edgeEnds (edges g)) -> In x (map edgeEnds (edges g1)).
Proof.
  intros [_ (more & E)] H. rewrite E. apply in_app_iff. left. exact H.
Qed.

Lemma hasProvenance_ends (g : Graph) (r : NodeRef) :
  hasProvenance g r = true
  <-> exists ty x, (ty = CREATED \/ ty = ASSERTED)
                   /\ In (ty, (LExtraction, x), r) (map edgeEnds (edges g)).
Proof.
  unfold hasProvenance. rewrite existsb_exists. split.
  - intros (e & He & H). apply andb_true_iff in H as [H H3].
    apply andb_true_iff in H as [H1 H2].
    apply bool_decide_eq_true in H2, H3. apply orb_true_iff in H1.
    exists (e_type e), (e_src e).2. split.
    + destruct H1 as [H1 | H1]; apply bool_decide_eq_true in H1; tauto.
    + apply in_map_iff. exists e. split; [|exact He]. unfold edgeEnds.
      rewrite <- H3. destruct (e_src e) as [l k]. simpl in *. subst l.
      reflexivity.
  - intros (ty & x & Hty & H). apply in_map_iff in H as (e & E & He).
    exists e. split; [exact He|]. unfold edgeEnds in E.
    injection E as E1 E2 E3. rewrite E1, E2, E3. simpl.
    rewrite !andb_true_iff, orb_true_iff, !bool_decide_eq_true. tauto.
Qed.

Lemma provenanced_grows (r : NodeRef) (g g1 : Graph) :
  provenanced r g -> graphGrows g g1 -> provenanced r g1.
Proof.
  unfold provenanced. rewrite !hasProvenance_ends.
  intros (ty & x & Hty & H) Hg. exists ty, x. split; [exact Hty|].
  eapply ends_grow; eassumption.
Qed.

Lemma nodeExists_grows (r : NodeRef) (g g1 : Graph) :
  nodeExists r g -> graphGrows g g1 -> nodeExists r g1.
Proof. intros H [Hn _]. apply Hn, H. Qed.

Lemma mergeEdge_has (ty : EdgeType) (src dst : NodeRef)
      (pat onCreate always : list (string * Value)) (g : Graph) :
  In (ty, src, dst)
     (map edgeEnds (edges (mergeEdge ty src dst pat onCreate always g))).
Proof.
  unfold mergeEdge. destruct (existsb _ _) eqn:E; simpl.
  - apply existsb_exists in E as (e & He & Hm).
    apply in_map_iff. eexists. split; [|apply in_map, He].
    rewrite Hm. unfold edgeMatches in Hm.
    rewrite !andb_true_iff, !bool_decide_eq_true in Hm.
    destruct Hm as [[[H1 H2] H3] _]. unfold edgeEnds. simpl. congruence.
  - rewrite map_app, in_app_iff. right. left. reflexivity.
Qed.

Lemma whenMatch_found (r : NodeRef) (rest : Graph -> Graph) (g : Graph) :
  nodeExists r g -> whenMatch r rest g = rest g.
Proof.
  intros H. unfold whenMatch, matchNode.
  rewrite bool_decide_eq_true_2 by exact H. reflexivity.
Qed.

Lemma mergeNode_exists (r x : NodeRef) (onCreate onMatch : list (string * Value))
      (g : Graph) :
  nodeExists x g \/ x = r -> nodeExists x (mergeNode r onCreate onMatch g).
Proof. intros H. apply mergeNode_nodes, H. Qed.

Lemma created_provenanced (ty : EdgeType) (x : string) (r : NodeRef)
      (g g1 : Graph) :
  ty = CREATED \/ ty = ASSERTED ->
  graphGrows (mergeEdge ty (LExtraction, x) r [] [] [] g) g1 ->
  provenanced r g1.
Proof.
  intros Hty Hg. apply hasProvenance_ends. exists ty, x. split; [exact Hty|].
  eapply ends_grow; [exact Hg | apply mergeEdge_has].
Qed.

Lemma exec_createExtraction (ex : ExtractionRecord)
      (sessionId artifactId : option string) (t : nat) (g : Graph) :
  nodeExists (LExtraction, extractionId ex)
    (exec (CreateExtractionNode ex sessionId artifactId) t g).1.
Proof.
  unfold nodeExists. simpl.
  destruct sessionId, artifactId; repeat nodes_step; tauto.
Qed.

Lemma exec_keeps_node (r : NodeRef) (s : Stmt) (t : nat) (g : Graph) :
  nodeExists r g -> nodeExists r (exec s t g).1.
Proof. intros H. eapply nodeExists_grows; [exact H | apply exec_grows]. Qed.

Lemma exec_upsertConcept (name exId : string) (t : nat) (g : Graph) :
  nodeExists (LExtraction, exId) g ->
  provenanced (LConcept, name) (exec (UpsertConcept name exId) t g).1.
Proof.
  intros E. simpl. rewrite whenMatch_found by (apply mergeNode_exists; tauto).
  eapply created_provenanced; [left; reflexivity | apply graphGrows_refl].
Qed.

Lemma exec_upsertStyleRule (ruleId category content scope temporalMarker
                            userId exId : string) (t : nat) (g : Graph) :
  nodeExists (LExtraction, exId) g -> nodeExists (LUser, userId) g ->
  provenanced (LStyleRule, ruleId)
    (exec (UpsertStyleRule ruleId category content scope temporalMarker
                           userId exId) t g).1.
Proof.
  intros E U. simpl.
  rewrite whenMatch_found by (apply mergeNode_exists; tauto).
  rewrite whenMatch_found.
  - eapply created_provenanced; [left; reflexivity | apply graphGrows_refl].
  - unfold nodeExists. rewrite mergeEdge_nodes.
    apply mergeNode_exists. left. exact E.
Qed.

Lemma anchored_exec (exId userId : string) (userKnown : Prop) (s : Stmt)
      (t : nat) (g : Graph) :
  anchored exId userId userKnown g ->
  anchored exId userId userKnown (exec s t g).1.
Proof.
  intros [E U]. split; [apply exec_keeps_node, E|].
  intros c. apply exec_keeps_node, U, c.
Qed.

Lemma provenanced_worldGrows (r : NodeRef) (w w1 : World) :
  provenanced r (graph w) -> worldGrows w w1 -> provenanced r (graph w1).
Proof.
  intros H (_ & _ & _ & _ & Hg & _). eapply provenanced_grows; eassumption.
Qed.

Section OneCall.
Variable exId userId : string.
Variable userKnown : Prop.

Local Abbreviation steady := (steadyCall exId userId userKnown).

(** One statement of the call: it keeps the invariant and establishes
    [T] when the anchored graph makes it do so. *)
Lemma steady_runWith (prefix : string) (s : Stmt) (T : Graph -> Prop) :
  refused s = false ->
  (forall t g, anchored exId userId userKnown g -> T (exec s t g).1) ->
  succeeds steady (runWith prefix s ;; ret tt)
           (fun _ w => steady w /\ T (graph w)).
Proof.
  intros Hs HT. eapply succeeds_bind.
  - apply (succeeds_runWith prefix s (anchored exId userId userKnown)
             (fun g => anchored exId userId userKnown g /\ T g) Hs).
    intros t g H. split; [apply anchored_exec, H | apply HT, H].
  - intros u. apply succeeds_ret. unfold steadyCall. tauto.
Qed.

(** A statement that the store refuses, in OPTIONAL mode: the call goes
    on and the graph is as before. *)
Lemma steady_refused (prefix : string) (s : Stmt) :
  refused s = true ->
  succeeds (fun w => steady w /\ getGraphRAGMode w = OPTIONAL)
           (runWith prefix s ;; ret tt)
           (fun _ w => steady w /\ getGraphRAGMode w = OPTIONAL).
Proof.
  intros Hs w [[H A] Ho].
  destruct (healthy_refused prefix s w Hs Ho H) as (w1 & E & H1 & Eg & Ho1).
  exists tt, w1. unfold bind. rewrite E. split; [reflexivity|].
  split; [split; [exact H1 | rewrite Eg; exact A] | exact Ho1].
Qed.

Lemma steady_upsertStyleRule (rule : ExtractedStyleRule) :
  succeeds steady (upsertStyleRule userId rule exId)
    (fun _ w => steady w
                /\ (userKnown -> provenanced (LStyleRule, id rule) (graph w))).
Proof.
  unfold upsertStyleRule, runWriteQuery.
  eapply succeeds_bind.
  { apply (succeeds_runWith _ _ (anchored exId userId userKnown)
             (anchored exId userId userKnown)); [reflexivity|].
    intros t g H. apply anchored_exec, H. }
  intros existingRules. eapply succeeds_bind.
  { apply (succeeds_runWith _ _ (anchored exId userId userKnown)
             (fun g => anchored exId userId userKnown g
                       /\ (userKnown
                           -> provenanced (LStyleRule, id rule) g)));
      [reflexivity|].
    intros t g H. split; [apply anchored_exec, H|].
    intros c. destruct H as [E U]. apply exec_upsertStyleRule; auto. }
  intros u.
  assert (Hloop : forall rows,
    succeeds steady
      (forEach rows
         (fun existing =>
            runWith "[GraphRAG] Write query failed"
              (RecordContradiction (id rule)
                 (default "" (rowString existing "existingId")) exId) ;;
            ret tt))
      (fun _ w => steady w)).
  { intros rows.
    eapply succeeds_weaken;
      [apply (succeeds_forEach steady (fun _ _ => True))
      | auto | intros a v [Hs _]; exact Hs].
    - auto.
    - intros x. grows_v1.
    - intros x _. apply (steady_runWith _ _ (fun _ => True)); auto. }
  assert (Hk : forall rows, keeps worldGrows
      (forEach rows
         (fun existing =>
            runWith "[GraphRAG] Write query failed"
              (RecordContradiction (id rule)
                 (default "" (rowString existing "existingId")) exId) ;;
            ret tt))) by (intros rows; grows_v1).
  destruct existingRules as [rows|].
  - eapply succeeds_weaken.
    + apply (succeeds_frame _ _ _
               (fun w => userKnown
                         -> provenanced (LStyleRule, id rule) (graph w))
               (Hloop rows) (Hk rows)).
      intros w w1 H Hg c. eapply provenanced_worldGrows; [apply H, c | exact Hg].
    + intros v [Hh [Ha Hp]]. split; [split; assumption | exact Hp].
    + intros a v [Hs Hp]. split; assumption.
  - apply succeeds_ret. intros v [Hh [Ha Hp]].
    split; [split; assumption | exact Hp].
Qed.

End OneCall.

Lemma writeToGraph_healthy (input : WritePathInput) (w : World) :
  healthy w ->
  getGraphRAGMode w = OPTIONAL \/ triples input = [] ->
  exists w1,
    writeToGraph input w = (Ok true, w1)
    /\ healthy w1
    /\ (forall entity, In entity (entities input) ->
          hasProvenance (graph w1) (LConcept, Js.toLowerCase entity) = true)
    /\ (matchNode (LUser, userId input) (graph w) = true ->
        forall rule, In rule (styleRules input) ->
          hasProvenance (graph w1) (LStyleRule, id rule) = true).
Proof.
  intros H Hmode.
  set (exId := extractionId (extraction input)).
  set (known := matchNode (LUser, userId input) (graph w) = true).
  set (m0 := getGraphRAGMode w) in Hmode.
  set (St := fun v : World =>
               steadyCall exId (userId input) known v
               /\ getGraphRAGMode v = m0).
  set (T1 := fun w1 : World =>
               forall entity, In entity (entities input) ->
                 provenanced (LConcept, Js.toLowerCase entity) (graph w1)).
  set (T3 := fun w1 : World =>
               forall rule, In rule (styleRules input) ->
                 known -> provenanced (LStyleRule, id rule) (graph w1)).
  assert (S1 : forall w w1, T1 w -> worldGrows w w1 -> T1 w1).
  { intros v v1 Hv Hg e He. eapply provenanced_worldGrows; [apply Hv, He | exact Hg]. }
  assert (L1 : succeeds St
                 (forEach (entities input)
                    (fun entity => upsertConcept entity exId))
                 (fun _ v => St v /\ T1 v)).
  { apply (succeeds_forEach St
             (fun e v => provenanced (LConcept, Js.toLowerCase e) (graph v))).
    - intros x v v1. apply provenanced_worldGrows.
    - intros x. unfold upsertConcept, runWriteQuery. grows_v1.
    - intros x _. unfold upsertConcept, runWriteQuery.
      eapply succeeds_weaken.
      + apply (succeeds_sameMode m0).
        * apply (steady_runWith exId (userId input) known _ _
                   (fun g => provenanced (LConcept, Js.toLowerCase x) g));
            [reflexivity|].
          intros t g [E _]. apply exec_upsertConcept, E.
        * grows_v1.
      + intros v Hv. exact Hv.
      + intros a v [[A B] C]. split; [split; assumption | exact B]. }
  assert (L2 : succeeds St
                 (forEach (triples input)
                    (fun triple => upsertRelation triple exId))
                 (fun _ v => St v)).
  { destruct Hmode as [Ho | Et].
    - eapply succeeds_weaken;
        [apply (succeeds_forEach St (fun _ _ => True))
        | auto | intros a v [Hs _]; exact Hs].
      + auto.
      + intros x. unfold upsertRelation, runWriteQuery. grows_v1.
      + intros x _. unfold upsertRelation, runWriteQuery.
        eapply succeeds_weaken;
          [apply (steady_refused exId (userId input) known); reflexivity | |].
        * intros v [A B]. split; [exact A | rewrite B; exact Ho].
        * intros a v [A B].
          split; [split; [exact A | rewrite B; symmetry; exact Ho] | exact I].
    - rewrite Et. apply succeeds_ret. auto. }
  assert (L3 : succeeds St
                 (forEach (styleRules input)
                    (fun rule => upsertStyleRule (userId input) rule exId))
                 (fun _ v => St v /\ T3 v)).
  { apply (succeeds_forEach St
             (fun r v => known -> provenanced (LStyleRule, id r) (graph v))).
    - intros x v v1 Hv Hg c. eapply provenanced_worldGrows; [apply Hv, c | exact Hg].
    - intros x. unfold upsertStyleRule, runWriteQuery. grows_v1.
    - intros x _. eapply succeeds_weaken.
      + apply (succeeds_sameMode m0); [apply steady_upsertStyleRule|].
        unfold upsertStyleRule, runWriteQuery. grows_v1.
      + intros v Hv. exact Hv.
      + intros a v [[A B] C]. split; [split; assumption | exact B]. }
  assert (K2 : keeps worldGrows
                 (forEach (triples input)
                    (fun triple => upsertRelation triple exId)))
    by (unfold upsertRelation, runWriteQuery; grows_v1).
  assert (K3 : keeps worldGrows
                 (forEach (styleRules input)
                    (fun rule => upsertStyleRule (userId input) rule exId)))
    by (unfold upsertStyleRule, runWriteQuery; grows_v1).
  assert (B : succeeds
                (fun v => (healthy v
                           /\ (known -> nodeExists (LUser, userId input) (graph v)))
                          /\ getGraphRAGMode v = m0)
                (createExtractionNode (extraction input) (sessionId input)
                                      (artifactId input) ;;
                 forEach (entities input)
                   (fun entity => upsertConcept entity exId) ;;
                 forEach (triples input)
                   (fun triple => upsertRelation triple exId) ;;
                 forEach (styleRules input)
                   (fun rule => upsertStyleRule (userId input) rule exId) ;;
                 ret true)
                (fun b v => b = true /\ healthy v /\ T1 v /\ T3 v)).
  { eapply (succeeds_bind _ _ (fun _ v => St v)).
    { unfold createExtractionNode, runWriteQuery. eapply succeeds_bind.
      - apply (succeeds_sameMode m0).
        + apply (succeeds_runWith _ _
                   (fun g => known -> nodeExists (LUser, userId input) g)
                   (anchored exId (userId input) known)); [reflexivity|].
          intros t g U. split; [apply exec_createExtraction|].
          intros c. apply exec_keeps_node, U, c.
        + grows_v1.
      - intros u. apply succeeds_ret. intros v Hv. exact Hv. }
    intros u1. eapply succeeds_bind; [exact L1|].
    intros u2. eapply succeeds_bind.
    { apply (succeeds_frame _ _ _ T1 L2 K2 S1). }
    intros u3. eapply succeeds_bind.
    { apply (succeeds_frame _ _ _ T1 L3 K3 S1). }
    intros u4. apply succeeds_ret. intros v [[[[A0 _] _] A3] A1]. tauto. }
  destruct H as (Hm & Hf & Hd).
  destruct (B w) as (b & w1 & E & -> & A0 & A1 & A3).
  { split; [|reflexivity]. split; [unfold healthy; tauto|].
    intros c. unfold known, matchNode in c.
    apply bool_decide_eq_true in c. exact c. }
  exists w1. unfold writeToGraph, bind at 1, get.
  rewrite bool_decide_eq_false_2 by exact Hm.
  unfold tryCatch. fold exId. rewrite E.
  split; [reflexivity|]. split; [exact A0|]. split; [exact A1|].
  intros c rule Hr. apply A3; assumption.
Qed.



(** In REQUIRED mode the refused statement of a triple ends the call:
    [writeToGraph] throws after the Extraction node and the concepts
    have been written, and no style rule of the input is stored. *)
Lemma writeToGraph_required_triple_throws :
  let r := writeToGraph localTripleInput (storeUp "REQUIRED" seededGraph) in
  healthy (storeUp "REQUIRED" seededGraph)
  /\ (exists e, r.1 = Throw e)
  /\ matchNode (LConcept, "atlas") (graph r.2) = true
  /\ matchNode (LStyleRule, "rule-1") (graph r.2) = false.
Proof.
  cbv zeta. split.
  - split; [vm_compute; discriminate|].
    split; [intros n; reflexivity | split; reflexivity].
  - split; [eexists; vm_compute; reflexivity|].
    split; vm_compute; reflexivity.
Qed.

End HealthyFacts.

(* ================================================================== *)
(** * Relations between concepts *)
(* ================================================================== *)

Section RelationFacts.
Import Store Cypher.

Lemma countEdges_ends (ty : EdgeType) (g : Graph) :
  countEdges ty g
  = length (List.filter
              (fun x : EdgeType * NodeRef * NodeRef => bool_decide (x.1.1 = ty))
              (map edgeEnds (edges g))).
Proof.
  unfold countEdges, edgesOfType.
  induction (edges g) as [|e l IH]; simpl; [reflexivity|].
  destruct (bool_decide (e_type e = ty)); simpl; rewrite IH; reflexivity.
Qed.

Lemma countEdges_grows (ty : EdgeType) (g g1 : Graph) :
  graphGrows g g1 -> countEdges ty g <= countEdges ty g1.
Proof.
  intros [_ (more & E)].
  rewrite !countEdges_ends, E, List.filter_app, length_app. lia.
Qed.

Lemma noNewRelation_refl (w : World) : noNewRelation w w.
Proof. unfold noNewRelation. lia. Qed.

Lemma noNewRelation_trans (w1 w2 w3 : World) :
  noNewRelation w1 w2 -> noNewRelation w2 w3 -> noNewRelation w1 w3.
Proof. unfold noNewRelation. lia. Qed.

Lemma relation_runWith (prefix : string) (s : Stmt) :
  mergesRelation s = false -> keeps noNewRelation (GraphDb.runWith prefix s).
Proof.
  intros Hs w. unfold noNewRelation.
  pose proof (exec_relatedTo s (now w) (graph w)) as B.
  rewrite Hs, Nat.add_0_r in B.
  destruct (runWith_outcome prefix s w)
    as [r w1 H _ | r w1 _ Hg _ _ | w1 _ Hg _].
  - destruct H as (_ & _ & _ & _ & Hg & _). rewrite Hg. lia.
  - rewrite Hg. lia.
  - rewrite Hg. exact B.
Qed.

Lemma relation_writeToGraph (input : WriteToGraph.WritePathInput) :
  keeps noNewRelation (WriteToGraph.writeToGraph input).
Proof.
  unfold WriteToGraph.writeToGraph, WriteToGraph.createExtractionNode,
    WriteToGraph.upsertConcept, WriteToGraph.upsertRelation,
    WriteToGraph.upsertStyleRule, GraphDb.runWriteQuery.
  keeps_walk noNewRelation_refl noNewRelation_trans
             ltac:(apply relation_runWith; reflexivity).
Qed.

(** X24: [writeToGraph] stores no [RELATED_TO] relationship, whatever
    the triples of its input, the mode and the behaviour of the store:
    the number of these relationships is the same after the call as
    before. The only statement of this write path that merges one is the
    statement of [upsertRelation], and the store refuses it. *)
Theorem writeToGraph_stores_no_relation (input : WriteToGraph.WritePathInput)
        (w : World) :
  countEdges RELATED_TO (graph (WriteToGraph.writeToGraph input w).2)
  = countEdges RELATED_TO (graph w).
Proof.
  apply Nat.le_antisymm; [apply relation_writeToGraph|].
  apply countEdges_grows.
  destruct (grows_writeToGraph input w) as (_ & _ & _ & _ & G & _). exact G.
Qed.

End RelationFacts.


(* ================================================================== *)
(** * Schema initialization *)
(* ================================================================== *)

Section SchemaFacts.
Import Store Cypher GraphDb GraphRagSchema.

Lemma getDriver_optional (w : World) :
  getGraphRAGMode w = OPTIONAL ->
  exists w1, getDriver w = (Ok (driverAvailable w), w1)
             /\ getGraphRAGMode w1 = OPTIONAL.
Proof.
  intros H. unfold getDriver, driverAvailable, bind, get, tryCatch, modify,
              connect, ret, throw.
  rewrite H. cbn [bool_decide decide_rel]. simpl.
  destruct (_driverInitAttempted w); [eauto|].
  simpl. destruct (constructs w (attempts w)), (reachable w (attempts w));
    simpl; (eexists; split; [reflexivity|]);
    (erewrite mode_env; [exact H | reflexivity]).
Qed.

Lemma degrades_runDefaultUserStatement : degrades runDefaultUserStatement.
Proof.
  unfold runDefaultUserStatement, runWriteQuery.
  apply degrades_bind; [apply degrades_runWith|].
  intros [rows|]; [|apply degrades_ret].
  apply degrades_bind; [|intros; apply degrades_ret].
  intros w H. eexists tt, _. split; [reflexivity|]. split; [|exact I].
  erewrite mode_env; [exact H | reflexivity].
Qed.

Lemma schema_body_optional :
  returns (fun r => r = (true, true))
    (forEach constraintAndIndexStatements
       (fun statement => runWriteQuery (Schema statement) ;; ret tt) ;;
     runDefaultUserStatement ;;
     ret (true, true)).
Proof.
  apply returns_bind.
  - apply degrades_forEach. intros x. unfold runWriteQuery.
    apply degrades_bind; [apply degrades_runWith | intros; apply degrades_ret].
  - intros _. apply returns_bind; [apply degrades_runDefaultUserStatement|].
    intros _. apply returns_ret. reflexivity.
Qed.

(** X14: in OPTIONAL mode the first call of [initGraphRAGSchema] returns
    whether a driver could be obtained, and nothing else: rejected schema
    statements are not reported, since [runWriteQuery] swallows them.
    Whatever it returned, the call sets [_initialized], so that the next
    call returns [true] without touching the store. *)
Theorem initGraphRAGSchema_optional (w : World) :
  getGraphRAGMode w = OPTIONAL ->
  exists w1,
    initGraphRAGSchema false w = (Ok (driverAvailable w, true), w1)
    /\ initGraphRAGSchema true w1 = (Ok (true, true), w1).
Proof.
  intros H. destruct (getDriver_optional w H) as (w1 & E & H1).
  unfold initGraphRAGSchema. unfold bind at 1, get. rewrite H.
  rewrite (bool_decide_eq_false_2 (OPTIONAL = OFF)) by discriminate.
  rewrite (bool_decide_eq_false_2 (OPTIONAL = REQUIRED)) by discriminate.
  unfold bind at 1. rewrite E.
  destruct (driverAvailable w); cbv beta iota; cbn [negb].
  - destruct (schema_body_optional w1 H1) as (r & w2 & E2 & _ & ->).
    exists w2. unfold tryCatch. rewrite E2. split; reflexivity.
  - exists w1. split; reflexivity.
Qed.

Lemma initGraphRAGSchema_optional_witness :
  getGraphRAGMode storeDown = OPTIONAL
  /\ exists w1,
       initGraphRAGSchema false storeDown
       = (Ok (driverAvailable storeDown, true), w1)
       /\ initGraphRAGSchema true w1 = (Ok (true, true), w1).
Proof.
  split; [reflexivity|]. apply (initGraphRAGSchema_optional storeDown).
  reflexivity.
Defined.

Lemma healthy_step (prefix : string) (s : Stmt) :
  refused s = false ->
  succeeds healthy (runWith prefix s)
           (fun r v => healthy v /\ exists rows, r = Some rows).
Proof.
  intros Hs w H.
  destruct (healthy_runWith prefix s w Hs H) as (w1 & E & H1 & _).
  eexists _, w1. split; [exact E|]. split; [exact H1 | eauto].
Qed.

Lemma schema_body_healthy :
  succeeds healthy
    (forEach constraintAndIndexStatements
       (fun statement => runWriteQuery (Schema statement) ;; ret tt) ;;
     runDefaultUserStatement ;;
     ret (true, true))
    (fun r v => r = (true, true) /\ healthy v
                /\ nodeExists (LUser, localUser) (graph v)).
Proof.
  eapply (succeeds_bind _ _ (fun _ v => healthy v)).
  { eapply succeeds_weaken;
      [apply (succeeds_forEach healthy (fun _ _ => True))
      | auto | intros a v [Hs _]; exact Hs].
    - auto.
    - intros x. unfold runWriteQuery. grows_v1.
    - intros x _. unfold runWriteQuery.
      eapply succeeds_bind; [apply healthy_step; reflexivity|].
      intros r. apply succeeds_ret. tauto. }
  intros u. eapply (succeeds_bind _ _
                      (fun _ v => healthy v
                                  /\ nodeExists (LUser, localUser) (graph v))).
  { unfold runDefaultUserStatement, runWriteQuery.
    eapply succeeds_bind; [apply healthy_step; reflexivity|].
    intros r w [H (rows & ->)].
    eexists _, _. split; [reflexivity|]. split; [exact H|].
    simpl. apply mergeNode_exists. right. reflexivity. }
  intros r. apply succeeds_ret. tauto.
Qed.

Lemma initGraphRAGSchema_healthy (w : World) :
  healthy w ->
  exists w1,
    initGraphRAGSchema false w = (Ok (true, true), w1)
    /\ healthy w1 /\ nodeExists (LUser, localUser) (graph w1).
Proof.
  intros H. destruct (healthy_getDriver w H) as (w1 & E & H1 & _).
  destruct (schema_body_healthy w1 H1) as (r & w2 & E2 & -> & H2 & U).
  exists w2. unfold initGraphRAGSchema. unfold bind at 1, get.
  destruct H as (Hm & _). rewrite (bool_decide_eq_false_2 _ Hm).
  unfold bind at 1. rewrite E. cbv beta iota. cbn [negb].
  unfold tryCatch. rewrite E2. tauto.
Qed.

Lemma initGraphRAGSchema_sameMode (w : World) :
  getGraphRAGMode (initGraphRAGSchema false w).2 = getGraphRAGMode w.
Proof.
  set (R := fun v v1 : World => env_GRAPHRAG_MODE v1 = env_GRAPHRAG_MODE v).
  assert (Rr : forall v, R v v) by reflexivity.
  assert (Rt : forall v1 v2 v3, R v1 v2 -> R v2 v3 -> R v1 v3)
    by (unfold R; congruence).
  assert (Kd : keeps R getDriver).
  { intros v. destruct (getDriver_sameStore v) as [E _]. exact E. }
  assert (Kr : forall prefix s, keeps R (runWith prefix s)).
  { intros prefix s v. destruct (grows_runWith prefix s v) as [E _]. exact E. }
  assert (Km : keeps R (modify (fun v => setGraph
                                  (mergeDefaultUser (now v - 1) (graph v)) v))).
  { intros v. reflexivity. }
  assert (K : keeps R (initGraphRAGSchema false)).
  { unfold initGraphRAGSchema, runDefaultUserStatement, runWriteQuery.
    keeps_walk Rr Rt ltac:(first [apply Kd | apply Kr | apply Km]). }
  apply mode_env, K.
Qed.



(** In REQUIRED mode with a triple in the input the same sequence ends
    differently: the schema is initialized, and [writeToGraph] throws at
    the statement of the triple, before any style rule is written. *)
Lemma schema_then_write_required_throws :
  let r1 := initGraphRAGSchema false (storeUp "REQUIRED" emptyGraph) in
  let r2 := WriteToGraph.writeToGraph localTripleInput r1.2 in
  healthy (storeUp "REQUIRED" emptyGraph)
  /\ WriteToGraph.userId localTripleInput = localUser
  /\ r1.1 = Ok (true, true)
  /\ (exists e, r2.1 = Throw e)
  /\ hasProvenance (graph r2.2) (LStyleRule, "rule-1") = false.
Proof.
  cbv zeta. split.
  - split; [vm_compute; discriminate|].
    split; [intros n; reflexivity | split; reflexivity].
  - split; [reflexivity|]. split; [vm_compute; reflexivity|].
    split; [eexists; vm_compute; reflexivity | vm_compute; reflexivity].
Qed.

End SchemaFacts.


(* ================================================================== *)
(** * The read path *)
(* ================================================================== *)

Section ResultsFacts.

Lemma results_ret {A} (a : A) (Q : A -> Prop) : Q a -> results (ret a) Q.
Proof. intros H w a' w1 E. injection E as <- _. exact H. Qed.

Lemma results_throw {A} (e : Err) (Q : A -> Prop) : results (throw e) Q.
Proof. intros w a w1 E. discriminate E. Qed.

Lemma results_bind {A B} (m : M A) (k : A -> M B) (Q : B -> Prop) :
  (forall a, results (k a) Q) -> results (bind m k) Q.
Proof.
  intros Hk w b w1. unfold bind. destruct (m w) as [[a | e] w0]; [|discriminate].
  apply Hk.
Qed.

Lemma results_tryCatch {A} (m : M A) (h : Err -> M A) (Q : A -> Prop) :
  results m Q -> (forall e, results (h e) Q) -> results (tryCatch m h) Q.
Proof.
  intros Hm Hh w a w1. unfold tryCatch. specialize (Hm w).
  destruct (m w) as [[a0 | e] w0].
  - intros E. injection E as <- <-. eapply Hm. reflexivity.
  - apply Hh.
Qed.

End ResultsFacts.

Section ReadFacts.
Import Store Cypher GraphDbJs GraphRagRead.

Lemma sliceTo_length {A} (finish : Z) (l : list A) :
  (0 <= finish)%Z -> (Z.of_nat (length (sliceTo finish l)) <= finish)%Z.
Proof.
  intros H. unfold sliceTo.
  destruct (finish <? 0)%Z eqn:E; [apply Z.ltb_lt in E; lia|].
  rewrite length_take. lia.
Qed.

Lemma sliceTo_sublist {A} (finish : Z) (l : list A) :
  sliceTo finish l `sublist_of` l.
Proof. unfold sliceTo. apply sublist_take. Qed.

Lemma sliceTo_nil {A} (finish : Z) : sliceTo finish (@nil A) = [].
Proof. unfold sliceTo. apply take_nil. Qed.

Lemma dedup_sliced_ids (finish : Z) (l : list GraphEntity) :
  NoDup (map ge_id (sliceTo finish (deduplicateEntities l))).
Proof.
  destruct (deduplicateEntities_inv l) as (H1 & H2 & _).
  apply (sublist_NoDup _ (map ge_id (deduplicateEntities l))).
  - unfold deduplicateEntities. rewrite map_fst_ids by exact H1. exact H2.
  - unfold sliceTo. rewrite <- firstn_map. apply sublist_take.
Qed.

Lemma buildGraphContext_results (answers : Answers) (config : Limits)
      (params : BuildGraphContextParams) :
  results (buildGraphContext answers config params)
          (boundedContext (nodeLimit config params) (edgeLimit config params)).
Proof.
  unfold buildGraphContext.
  apply results_bind. intros w0.
  destruct (String.eqb _ "OFF"); [apply results_ret; exact I|].
  apply results_tryCatch.
  - destruct (length _ =? 0).
    + apply results_bind. intros rules.
      destruct (length rules =? 0); apply results_ret; [exact I|].
      simpl. split; [apply NoDup_nil_2 | split; intros; lia].
    + apply results_bind. intros entities.
      apply results_bind. intros neighborhood.
      apply results_bind. intros rules.
      apply results_bind. intros citations.
      apply results_ret. simpl.
      split; [apply dedup_sliced_ids|].
      split; intros H; apply sliceTo_length, H.
  - intros e. destruct (String.eqb _ "REQUIRED");
      [apply results_throw | apply results_ret; exact I].
Qed.

(** X16: whatever the store answers, a context that [buildGraphContext]
    returns has no two entities with the same id, and when the limits in
    force are not negative it has at most [maxNodes] entities and at most
    [maxEdges] relations. *)
Theorem buildGraphContext_within_limits (answers : Answers) (config : Limits)
        (params : BuildGraphContextParams) (w w1 : World) (c : GraphContext) :
  buildGraphContext answers config params w = (Ok (Some c), w1) ->
  NoDup (map ge_id (ctx_entities c))
  /\ ((0 <= nodeLimit config params)%Z ->
      (Z.of_nat (length (ctx_entities c)) <= nodeLimit config params)%Z)
  /\ ((0 <= edgeLimit config params)%Z ->
      (Z.of_nat (length (ctx_relations c)) <= edgeLimit config params)%Z).
Proof.
  intros E. exact (buildGraphContext_results answers config params w _ w1 E).
Qed.

Lemma buildGraphContext_within_limits_witness :
  let r := buildGraphContext sampleAnswers sampleLimits sampleRead
             (storeUp "OPTIONAL" emptyGraph) in
  let c := MkGraphContext
             [ MkGraphEntity "id1" "Concept" ∅; MkGraphEntity "id2" "Concept" ∅ ]
             [ MkGraphRelation "id1" "id2" "RELATED_TO" ∅ "";
               MkGraphRelation "id1" "id3" "MENTIONS" ∅ "" ] [] [] in
  r.1 = Ok (Some c)
  /\ NoDup (map ge_id (ctx_entities c))
  /\ ((0 <= nodeLimit sampleLimits sampleRead)%Z ->
      (Z.of_nat (length (ctx_entities c)) <= nodeLimit sampleLimits sampleRead)%Z)
  /\ ((0 <= edgeLimit sampleLimits sampleRead)%Z ->
      (Z.of_nat (length (ctx_relations c)) <= edgeLimit sampleLimits sampleRead)%Z).
Proof.
  intros r c.
  assert (E : r = (Ok (Some c), r.2)) by (vm_compute; reflexivity).
  split; [rewrite E; reflexivity|].
  apply (buildGraphContext_within_limits sampleAnswers sampleLimits sampleRead
           (storeUp "OPTIONAL" emptyGraph) r.2 c E).
Defined.

(** ** A store that rejects every statement *)

Lemma rejecting_same (w w1 : World) :
  env_GRAPHRAG_MODE w1 = env_GRAPHRAG_MODE w ->
  failing w1 = failing w ->
  (forall c, _config w1 = Some c ->
             _config w = Some c \/ cfg_mode c <> "REQUIRED") ->
  rejecting w -> rejecting w1.
Proof.
  intros E1 E2 E3 (H1 & H2 & H3 & H4). unfold rejecting, getGraphRAGMode in *.
  rewrite E1, E2. repeat split; try assumption.
  intros c Hc. destruct (E3 c Hc) as [E | E]; [apply H4, E | exact E].
Qed.

Lemma rejecting_get : succeeds rejecting get (fun _ v => rejecting v).
Proof. intros w H. exists w, w. split; [reflexivity | exact H]. Qed.

Lemma rejecting_setConfig (cfg : GraphDBConfig) :
  cfg_mode cfg <> "REQUIRED" ->
  succeeds rejecting (modify (setConfig (Some cfg))) (fun _ v => rejecting v).
Proof.
  intros Hc w H. eexists tt, _. split; [reflexivity|].
  eapply rejecting_same; [| | |exact H]; simpl; auto.
  intros c E. injection E as <-. right. exact Hc.
Qed.

Lemma rejecting_setSchemaInitialized (b : bool) :
  succeeds rejecting (modify (setSchemaInitialized b))
           (fun _ v => rejecting v).
Proof.
  intros w H. eexists tt, _. split; [reflexivity|].
  eapply rejecting_same; [| | |exact H]; simpl; auto.
Qed.

Lemma rejecting_sessionRun (s : Stmt) (w : World) :
  rejecting w ->
  exists w1,
    tryCatch (let* result := sessionRun s in ret (Some result))
      (fun err =>
         if String.eqb (cfg_mode (default (getGraphDBConfig w) (_config w)))
                       "REQUIRED"
         then throw err else ret None) w
    = (Ok None, w1)
    /\ rejecting w1 /\ _driver w1 = _driver w.
Proof.
  intros H. pose proof H as (H1 & H2 & H3 & H4).
  unfold tryCatch, bind, sessionRun. rewrite H3.
  assert (E : String.eqb (cfg_mode (default (getGraphDBConfig w) (_config w)))
                         "REQUIRED" = false).
  { apply String.eqb_neq. destruct (_config w) as [c|] eqn:Ec; simpl;
      [apply H4; reflexivity | exact H2]. }
  rewrite E. eexists. split; [reflexivity|].
  split; [|reflexivity]. eapply rejecting_same; [| | |exact H]; simpl; auto.
Qed.

Lemma rejecting_runQueryVia (getDriver : M bool) (s : Stmt) :
  succeeds rejecting getDriver (fun _ v => rejecting v) ->
  succeeds rejecting (runQueryVia getDriver s)
           (fun r v => r = None /\ rejecting v).
Proof.
  intros Hd w H. destruct (Hd w H) as (b & w1 & E & H1).
  unfold runQueryVia. unfold bind at 1. rewrite E.
  destruct b; cbv beta iota; cbn [negb].
  - unfold bind at 1, get.
    destruct (rejecting_sessionRun s w1 H1) as (w2 & E2 & H2 & _).
    exists None, w2. split; [exact E2 | tauto].
  - exists None, w1. split; [reflexivity | tauto].
Qed.

Lemma rejecting_getDriverNested :
  succeeds rejecting getDriverNested (fun _ v => rejecting v).
Proof.
  intros w H. unfold getDriverNested, bind, get.
  destruct (String.eqb _ "OFF"); eexists _, w; split; try reflexivity; exact H.
Qed.

Lemma rejecting_ensureGraphSchema :
  succeeds rejecting ensureGraphSchema (fun _ v => rejecting v).
Proof.
  unfold ensureGraphSchema.
  eapply succeeds_weaken;
    [apply (succeeds_forEach rejecting (fun _ _ => True))
    | auto | intros a v [Hs _]; exact Hs].
  - auto.
  - intros x.
    keeps_walk worldGrows_refl worldGrows_trans
               ltac:(first [ apply grows_runQueryVia, grows_getDriverNested
                           | grows_prim ]).
  - intros x _. eapply succeeds_bind.
    + apply rejecting_runQueryVia, rejecting_getDriverNested.
    + intros r. apply succeeds_ret. tauto.
Qed.

Lemma rejecting_afterConnect (cfg : GraphDBConfig) :
  cfg_mode cfg <> "REQUIRED" ->
  succeeds rejecting
    (modify (setConfig (Some cfg)) ;;
     let* w1 := get in
     (if negb (_schemaInitialized w1)
      then ensureGraphSchema ;; modify (setSchemaInitialized true)
      else ret tt) ;;
     ret true)
    (fun _ v => rejecting v).
Proof.
  intros Hc.
  eapply succeeds_bind; [apply rejecting_setConfig, Hc|]. intros u.
  eapply succeeds_bind; [apply rejecting_get|]. intros w1.
  eapply (succeeds_bind _ _ (fun _ v => rejecting v)).
  - destruct (negb (_schemaInitialized w1)).
    + eapply succeeds_bind; [apply rejecting_ensureGraphSchema|].
      intros u1. apply rejecting_setSchemaInitialized.
    + apply succeeds_ret. auto.
  - intros u2. apply succeeds_ret. auto.
Qed.

Lemma rejecting_getDriver :
  succeeds rejecting getDriver (fun _ v => rejecting v).
Proof.
  intros w H. pose proof H as (H1 & H2 & H3 & H4).
  unfold getDriver. unfold bind at 1. unfold get at 1.
  rewrite (proj2 (String.eqb_neq _ _) H1).
  destruct (_driver w); [exists true, w; split; [reflexivity | exact H]|].
  rewrite (proj2 (String.eqb_neq _ _) H2).
  cbv zeta. unfold tryCatch. unfold bind at 1. unfold connect at 1.
  destruct (constructs w (attempts w)); cbn [negb];
    [destruct (reachable w (attempts w))|]; cbv beta iota zeta.
  - match goal with
    | |- context [bind (modify (setConfig (Some ?c))) ?k ?v] =>
        assert (R : rejecting v)
          by (eapply rejecting_same; [| | |exact H]; simpl; auto);
        destruct (rejecting_afterConnect c H2 v R) as (b & w1 & E & R1)
    end.
    rewrite E. exists b, w1. split; [reflexivity | exact R1].
  - eexists false, _. split; [reflexivity|].
    eapply rejecting_same; [| | |exact H]; simpl; auto.
  - eexists false, _. split; [reflexivity|].
    eapply rejecting_same; [| | |exact H]; simpl; auto.
Qed.

Lemma rejecting_runQuery (s : Stmt) :
  succeeds rejecting (runQuery s) (fun r v => r = None /\ rejecting v).
Proof. apply rejecting_runQueryVia, rejecting_getDriver. Qed.

Lemma rejecting_queryRows {R} (rowsAt : nat -> list R) (cypher : string) :
  succeeds rejecting (queryRows rowsAt cypher)
           (fun r v => r = None /\ rejecting v).
Proof.
  unfold queryRows.
  eapply succeeds_bind; [apply rejecting_runQuery|].
  intros r w [-> H]. eexists _, w. split; [reflexivity | tauto].
Qed.

Lemma rejecting_rules (answers : Answers) (userId : string) :
  succeeds rejecting (retrieveActiveStyleRules answers userId)
           (fun r v => r = [] /\ rejecting v).
Proof.
  unfold retrieveActiveStyleRules.
  eapply succeeds_bind; [apply rejecting_queryRows|].
  intros r w [-> H]. eexists _, w. split; [reflexivity | tauto].
Qed.

Lemma rejecting_concepts (answers : Answers) (names : list string) (mn : Z) :
  succeeds rejecting (resolveConceptNodes answers names mn)
           (fun r v => r = [] /\ rejecting v).
Proof.
  unfold resolveConceptNodes.
  destruct (length names =? 0); [apply succeeds_ret; tauto|].
  eapply succeeds_bind; [apply rejecting_queryRows|].
  intros r w [-> H]. eexists _, w. split; [reflexivity | tauto].
Qed.

Lemma rejecting_neighborhood (answers : Answers) (names : list string) (me : Z) :
  succeeds rejecting (traverseNeighborhood answers names me)
           (fun r v => r = ([], []) /\ rejecting v).
Proof.
  unfold traverseNeighborhood.
  destruct (length names =? 0); [apply succeeds_ret; tauto|].
  eapply succeeds_bind; [apply rejecting_queryRows|].
  intros r w [-> H]. eexists _, w. split; [reflexivity | tauto].
Qed.

Lemma buildGraphContext_rejecting (answers : Answers) (config : Limits)
      (params : BuildGraphContextParams) (w : World) :
  rejecting w ->
  exists w1,
    buildGraphContext answers config params w
    = (Ok (degradedContext (b_promptText params) (b_artifactContent params)),
       w1)
    /\ rejecting w1.
Proof.
  intros H. pose proof H as (H1 & H2 & _).
  unfold buildGraphContext, degradedContext. unfold bind at 1, get.
  rewrite (proj2 (String.eqb_neq _ _) H1).
  destruct (length _ =? 0).
  - destruct (rejecting_rules answers (b_userId params) w H)
      as (r & w1 & E & -> & R).
    exists w1. unfold tryCatch, bind. rewrite E. split; [reflexivity | exact R].
  - destruct (rejecting_concepts answers
                (extractEntityNamesFromText (b_promptText params)
                                            (b_artifactContent params))
                (default (maxNodes config) (b_maxNodes params)) w H)
      as (r1 & w1 & E1 & -> & R1).
    destruct (rejecting_neighborhood answers
                (extractEntityNamesFromText (b_promptText params)
                                            (b_artifactContent params))
                (default (maxEdges config) (b_maxEdges params)) w1 R1)
      as (r2 & w2 & E2 & -> & R2).
    destruct (rejecting_rules answers (b_userId params) w2 R2)
      as (r3 & w3 & E3 & -> & R3).
    exists w3. unfold tryCatch. unfold bind at 1. rewrite E1.
    unfold bind at 1. rewrite E2. unfold bind at 1. rewrite E3.
    split; [|exact R3]. unfold bind, gatherCitations, deduplicateEntities.
    simpl. rewrite ?sliceTo_nil. reflexivity.
Qed.

(** X17: in a mode other than OFF and REQUIRED, over a store that
    rejects every statement, [buildGraphContext] returns [null] only when
    it finds no entity name in the prompt and the artifact; when it finds
    one it returns a context that is not [null] and holds nothing. It
    never throws there. *)
Theorem buildGraphContext_store_down (answers : Answers) (config : Limits)
        (params : BuildGraphContextParams) (w : World) :
  rejecting w ->
  (buildGraphContext answers config params w).1
  = Ok (if length (extractEntityNamesFromText (b_promptText params)
                                              (b_artifactContent params)) =? 0
        then None else Some emptyContext).
Proof.
  intros H.
  destruct (buildGraphContext_rejecting answers config params w H)
    as (w1 & E & _).
  rewrite E. reflexivity.
Qed.

Lemma buildGraphContext_store_down_witness :
  rejecting storeDown
  /\ (buildGraphContext sampleAnswers sampleLimits sampleRead storeDown).1
     = Ok (if length (extractEntityNamesFromText (b_promptText sampleRead)
                        (b_artifactContent sampleRead)) =? 0
           then None else Some emptyContext).
Proof.
  assert (H : rejecting storeDown).
  { split; [vm_compute; discriminate|]. split; [vm_compute; discriminate|].
    split; [intros n; reflexivity | intros c E; discriminate E]. }
  split; [exact H|].
  apply (buildGraphContext_store_down sampleAnswers sampleLimits sampleRead
           storeDown H).
Defined.

End ReadFacts.

Section GenerationFacts.
Import Store Cypher GraphDbJs GraphRagRead GraphRagContext.
Variable showNumber : Q -> string.
Variable showValue : Store.Value -> string.

Lemma format_degraded (promptText : string) (artifactContent : option string) :
  GraphRagFormat.formatGraphContextForPrompt showNumber showValue
    (degradedContext promptText artifactContent) = "".
Proof. unfold degradedContext. destruct (_ =? 0); reflexivity. Qed.

(** X18: in a mode other than OFF and REQUIRED, over a store that
    rejects every statement, [getGraphContextForGeneration] returns the
    empty prompt; the context it returns beside it is [null] only when
    the last message and the artifact name no entity, and is an empty
    context otherwise. *)
Theorem getGraphContextForGeneration_store_down
        (answers : Answers) (limits : Limits) (messages : list MessageContent)
        (artifactContent : option string) (configurable : option Configurable)
        (w : World) :
  rejecting w ->
  (getGraphContextForGeneration showNumber showValue answers limits messages
     artifactContent configurable w).1
  = Ok (MkGenerationContext
          (degradedContext (promptTextOf messages) artifactContent) "").
Proof.
  intros H. pose proof H as (H1 & _).
  unfold getGraphContextForGeneration. unfold bind at 1, get.
  rewrite (proj2 (String.eqb_neq _ _) H1).
  destruct (buildGraphContext_rejecting answers limits
              (MkBuildParams (userIdOf configurable) (sessionIdOf configurable)
                             (promptTextOf messages) artifactContent None None)
              w H) as (w1 & E & _).
  unfold tryCatch, bind. rewrite E. simpl. rewrite format_degraded. reflexivity.
Qed.

End GenerationFacts.

Lemma getGraphContextForGeneration_store_down_witness :
  rejecting storeDown
  /\ (GraphRagContext.getGraphContextForGeneration plain plain sampleAnswers
        sampleLimits [GraphRagContext.TextContent "About Mars"] None None
        storeDown).1
     = Ok (GraphRagContext.MkGenerationContext
             (degradedContext
                (GraphRagContext.promptTextOf
                   [GraphRagContext.TextContent "About Mars"]) None) "").
Proof.
  assert (H : rejecting storeDown).
  { split; [vm_compute; discriminate|]. split; [vm_compute; discriminate|].
    split; [intros n; reflexivity | intros c E; discriminate E]. }
  split; [exact H|].
  apply (getGraphContextForGeneration_store_down plain plain sampleAnswers
           sampleLimits [GraphRagContext.TextContent "About Mars"] None None
           storeDown H).
Defined.


(* ================================================================== *)
(** * A write without extracted facts, and the mode of the client *)
(* ================================================================== *)

Section StructuralFacts.
Import Store Cypher.

Lemma structural_extractAndWriteToGraph (params : WriteToGraphParams) :
  ex_entities (Extractor.extractFromMessages params) = [] ->
  ex_styleRules (Extractor.extractFromMessages params) = [] ->
  keeps (onlyNew (fun r => ~ factNode r))
        (ExtractAndWrite.extractAndWriteToGraph params).
Proof.
  intros He Hr.
  unfold ExtractAndWrite.extractAndWriteToGraph,
    ExtractAndWrite.ensureSessionArtifactNodes.
  rewrite He, Hr. cbn [length Nat.eqb andb].
  keeps_walk (onlyNew_refl (fun r => ~ factNode r))
             (onlyNew_trans (fun r => ~ factNode r))
             ltac:(apply new_runQueryJs; simpl; repeat constructor;
                   unfold factNode; simpl; intuition discriminate).
Qed.

(** X19: when the extractor finds no entity and no style rule in the
    messages, [extractAndWriteToGraph] creates no Extraction, Concept or
    StyleRule node, whatever the mode and the store: of such nodes, those
    in the graph after the call were there before. *)
Theorem extractAndWriteToGraph_nothing_extracted (params : WriteToGraphParams)
        (w : World) (r : NodeRef) :
  ex_entities (Extractor.extractFromMessages params) = [] ->
  ex_styleRules (Extractor.extractFromMessages params) = [] ->
  factNode r ->
  matchNode r (graph (ExtractAndWrite.extractAndWriteToGraph params w).2) = true ->
  matchNode r (graph w) = true.
Proof.
  intros He Hr Hf. unfold matchNode. rewrite !bool_decide_eq_true. intros H.
  destruct (structural_extractAndWriteToGraph params He Hr w r H) as [H' | H'];
    [exact H' | contradiction].
Qed.

Lemma extractAndWriteToGraph_nothing_extracted_witness :
  let w := storeUp "OPTIONAL" (mergeNode (LExtraction, "ex-1") [] [] emptyGraph) in
  ex_entities (Extractor.extractFromMessages assistantOnly) = []
  /\ ex_styleRules (Extractor.extractFromMessages assistantOnly) = []
  /\ factNode (LExtraction, "ex-1")
  /\ matchNode (LExtraction, "ex-1")
       (graph (ExtractAndWrite.extractAndWriteToGraph assistantOnly w).2) = true
  /\ matchNode (LExtraction, "ex-1") (graph w) = true.
Proof.
  intros w.
  split; [reflexivity|]. split; [reflexivity|].
  split; [right; right; reflexivity|].
  split; [vm_compute; reflexivity|].
  apply (extractAndWriteToGraph_nothing_extracted assistantOnly w
           (LExtraction, "ex-1"));
    [reflexivity | reflexivity | right; right; reflexivity
    | vm_compute; reflexivity].
Defined.

End StructuralFacts.

Section ModeFacts.

Lemma upper_lower_char (c : ascii) :
  GraphDb.upperChar (Js.lowerChar c) = GraphDb.upperChar c.
Proof. destruct c as [[] [] [] [] [] [] [] []]; vm_compute; reflexivity. Qed.

Lemma toUpperCase_toLowerCase (s : string) :
  GraphDb.toUpperCase (Js.toLowerCase s) = GraphDb.toUpperCase s.
Proof.
  induction s as [|c s IH]; simpl; [reflexivity|].
  rewrite upper_lower_char, IH. reflexivity.
Qed.

Lemma truthy_toLowerCase (s : string) :
  Js.truthy (Js.toLowerCase s) = Js.truthy s.
Proof. destruct s; reflexivity. Qed.

(** X20: the mode of the client of [graphdb.ts] does not depend on the
    letter case of GRAPHRAG_MODE: the variable and its lower-case form
    give the same mode, in every process. *)
Theorem getGraphRAGMode_ignores_case (value : string) (w : World) :
  GraphDb.getGraphRAGMode (withMode (Some (Js.toLowerCase value)) w)
  = GraphDb.getGraphRAGMode (withMode (Some value) w).
Proof.
  unfold GraphDb.getGraphRAGMode, withMode, Js.orDefault. simpl.
  rewrite truthy_toLowerCase. destruct (Js.truthy value); [|reflexivity].
  rewrite toUpperCase_toLowerCase. reflexivity.
Qed.

End ModeFacts.


(* ================================================================== *)
(** * Active rules keep their texts *)
(* ================================================================== *)

Section TextedFacts.
Import Store Cypher.

Lemma texted_same (g g1 : Graph) :
  (forall id, nodes g1 !! (LStyleRule, id) = nodes g !! (LStyleRule, id)) ->
  texted g -> texted g1.
Proof. intros E H id ps. rewrite E. apply H. Qed.

Lemma texted_mergeEdge (ty : EdgeType) (src dst : NodeRef)
      (pat onCreate always : list (string * Value)) (g : Graph) :
  texted g -> texted (mergeEdge ty src dst pat onCreate always g).
Proof. apply texted_same. intros id. rewrite mergeEdge_nodes. reflexivity. Qed.

Lemma texted_whenMatch (r : NodeRef) (rest : Graph -> Graph) (g : Graph) :
  (forall g', texted g' -> texted (rest g')) ->
  texted g -> texted (whenMatch r rest g).
Proof. intros H Hg. unfold whenMatch. destruct (matchNode r g); auto. Qed.

Lemma texted_mergeNode_other (r : NodeRef)
      (onCreate onMatch : list (string * Value)) (g : Graph) :
  r.1 <> LStyleRule -> texted g -> texted (mergeNode r onCreate onMatch g).
Proof.
  intros Hr. apply texted_same. intros id. unfold mergeNode.
  destruct (nodes g !! r); simpl; apply lookup_insert_ne;
    intros ->; apply Hr; reflexivity.
Qed.

(** What a change of the properties of a rule node must respect. *)
Lemma texted_update (id0 : string) (f : Props -> Props) (g : Graph) :
  (forall ps, (ps !! "active" = Some (VBool true) ->
               exists text, ps !! "rule" = Some (VStr text)) ->
              f ps !! "active" = Some (VBool true) ->
              exists text, f ps !! "rule" = Some (VStr text)) ->
  texted g ->
  forall ps0, nodes g !! (LStyleRule, id0) = Some ps0 ->
  texted (MkGraph (<[(LStyleRule, id0) := f ps0]> (nodes g)) (edges g)).
Proof.
  intros Hf Hg ps0 E id ps. simpl.
  destruct (decide (id = id0)) as [-> | Hne].
  - rewrite lookup_insert_eq. intros [= <-]. apply Hf. apply (Hg id0 ps0 E).
  - rewrite lookup_insert_ne by congruence. apply Hg.
Qed.

Lemma texted_create (id0 : string) (ps1 : Props) (g : Graph) :
  (ps1 !! "active" = Some (VBool true) ->
   exists text, ps1 !! "rule" = Some (VStr text)) ->
  texted g ->
  texted (MkGraph (<[(LStyleRule, id0) := ps1]> (nodes g)) (edges g)).
Proof.
  intros H1 Hg id ps. simpl.
  destruct (decide (id = id0)) as [-> | Hne].
  - rewrite lookup_insert_eq. intros [= <-]. exact H1.
  - rewrite lookup_insert_ne by congruence. apply Hg.
Qed.

Lemma setProp_other (ps : Props) (k k' : string) (v : Value) :
  k' <> k -> setProp ps (k, v) !! k' = ps !! k'.
Proof.
  intros H. unfold setProp. simpl. destruct v;
    first [apply lookup_delete_ne | apply lookup_insert_ne]; congruence.
Qed.

Lemma setProp_same (ps : Props) (k : string) (v : Value) :
  v <> VNull -> setProp ps (k, v) !! k = Some v.
Proof.
  intros H. unfold setProp. simpl. destruct v; try congruence;
    apply lookup_insert_eq.
Qed.

Ltac props_step :=
  first [ rewrite setProp_other by discriminate
        | rewrite setProp_same by discriminate
        | rewrite lookup_empty ].

Lemma exec_texted (s : Stmt) (t : nat) (g : Graph) :
  texted g -> texted (exec s t g).1.
Proof.
  intros H. destruct s; simpl; try exact H;
    repeat first
      [ exact H
      | apply texted_mergeEdge
      | apply texted_whenMatch; [intros ? ?|]
      | apply texted_mergeNode_other; [discriminate|]
      | assumption ].
  - (* CreateExtractionNode *)
    repeat match goal with
           | |- context [match ?x with Some _ => _ | None => _ end] =>
               destruct x
           end;
      repeat first [ apply texted_mergeEdge
                   | apply texted_mergeNode_other; [discriminate|]
                   | exact H ].
  - (* UpsertStyleRule *)
    match goal with
    | |- texted (mergeNode (LStyleRule, ?id) ?oc ?om g) =>
        unfold mergeNode; destruct (nodes g !! (LStyleRule, id)) eqn:E;
          [apply (texted_update id (setProps om)); [|exact H | exact E]
          |apply texted_create; [|exact H]]
    end.
    + intros ps Hps. unfold setProps. simpl. repeat props_step. exact Hps.
    + unfold setProps. simpl. repeat props_step. discriminate.
  - (* MarkPending *)
    match goal with
    | |- texted (setNode (LStyleRule, ?id) ?kvs g) =>
        unfold setNode; destruct (nodes g !! (LStyleRule, id)) eqn:E;
          [apply (texted_update id (setProps kvs)); [|exact H | exact E]
          |exact H]
    end.
    intros ps _. unfold setProps. simpl. repeat props_step. discriminate.
  - (* Deactivate *)
    match goal with
    | |- texted (setNode (LStyleRule, ?id) ?kvs g) =>
        unfold setNode; destruct (nodes g !! (LStyleRule, id)) eqn:E;
          [apply (texted_update id (setProps kvs)); [|exact H | exact E]
          |exact H]
    end.
    intros ps _. unfold setProps. simpl. repeat props_step. discriminate.
  - (* InsertRule *)
    match goal with
    | |- texted (mergeNode (LStyleRule, ?id) ?oc ?om g) =>
        unfold mergeNode; destruct (nodes g !! (LStyleRule, id)) eqn:E;
          [apply (texted_update id (setProps om)); [|exact H | exact E]
          |apply texted_create; [|exact H]]
    end.
    + intros ps _ _. unfold setProps. simpl. repeat props_step. eauto.
    + intros _. unfold setProps. simpl. repeat props_step. eauto.
Qed.

Lemma activeRules_texted (userId scope : string) (g : Graph) :
  texted g -> Forall hasRuleText (activeRules userId scope g).
Proof.
  intros H. apply List.Forall_forall. intros row Hrow.
  unfold activeRules in Hrow. apply in_flat_map in Hrow as (e & _ & Hrow).
  destruct (_ && _) eqn:C in Hrow; [|destruct Hrow].
  destruct Hrow as [<- | []].
  rewrite !andb_true_iff, !bool_decide_eq_true in C.
  destruct C as [[[[[_ _] Hl] Hm] _] Ha].
  destruct (e_dst e) as [l id]. simpl in Hl. subst l.
  unfold matchNode in Hm. apply bool_decide_eq_true in Hm as [ps Eps].
  unfold prop in *. rewrite Eps in *.
  destruct (ps !! "active") as [v|] eqn:Ea; simpl in Ha; [|discriminate].
  subst v. destruct (H id ps Eps Ea) as (text & Et).
  exists text. unfold rowString. rewrite Et. simpl.
  rewrite lookup_insert_ne by discriminate.
  rewrite lookup_insert_eq. reflexivity.
Qed.

Lemma texted_empty : texted emptyGraph.
Proof. intros id ps E. simpl in E. rewrite lookup_empty in E. discriminate. Qed.

(** X21: an active StyleRule node always has its rule text. When that
    holds of a graph it holds after every statement of the write paths,
    and every row of the query of [detectAndRecordContradictions] for the
    active rules carries a text, so that the contradiction test can read
    [existingRule] of every row. *)
Theorem active_rules_keep_texts (s : Stmt) (t : nat) (userId scope : string)
        (g : Graph) :
  texted g ->
  texted (exec s t g).1
  /\ Forall hasRuleText (exec (FindActiveRules userId scope) t g).2.
Proof.
  intros H. split; [apply exec_texted, H | apply activeRules_texted, H].
Qed.

(** The theorem at a graph with one active rule that the user prefers:
    the query returns its row, with the text of the rule, and the
    statement that marks the rule as pending keeps the texts. *)
Lemma active_rules_keep_texts_witness :
  texted ruledGraph
  /\ map (fun record => rowString record "rule")
         (exec (FindActiveRules "user-1" "global") 3 ruledGraph).2
     = [Some "use a formal tone"]
  /\ texted (exec (MarkPending "rule-1") 3 ruledGraph).1
  /\ Forall hasRuleText (exec (FindActiveRules "user-1" "global") 3 ruledGraph).2.
Proof.
  assert (H : texted ruledGraph).
  { unfold ruledGraph. apply exec_texted, exec_texted, exec_texted.
    exact texted_empty. }
  split; [exact H|]. split; [vm_compute; reflexivity|].
  apply (active_rules_keep_texts (MarkPending "rule-1") 3 "user-1" "global"
           ruledGraph H).
Defined.

End TextedFacts.


(* ================================================================== *)
(** * The write path over the extractor on a store that answers *)
(* ================================================================== *)

Section SteadyWriteFacts.
Import Store Cypher GraphDbJs ExtractAndWrite.

Lemma sessionRun_graph (s : Stmt) (w : World) :
  refused s = false ->
  connected w -> graph (sessionRun s w).2 = (exec s (now w) (graph w)).1.
Proof.
  intros Hr (_ & _ & Hf). unfold sessionRun. rewrite Hf, Hr. cbn [orb].
  destruct (exec s (now w) (graph w)). reflexivity.
Qed.

(** One statement on a connected client. *)
Lemma steady_step (s : Stmt) (G G' : Graph -> Prop) (V : list Props -> Prop) :
  (forall t g, texted g -> G g -> G' (exec s t g).1 /\ V (exec s t g).2) ->
  refused s = false ->
  succeeds (fun w => steadyJs w /\ G (graph w)) (runQuery s)
    (fun r v => (steadyJs v /\ G' (graph v))
                /\ (exists rows, r = Some rows /\ V rows)
                /\ In s (sent v)).
Proof.
  intros HG Hr w [[Hc Ht] Hg].
  pose proof (sessionRun_connected s w Hr Hc) as (_ & Hc1 & Hs).
  pose proof (sessionRun_graph s w Hr Hc) as Eg.
  destruct (HG (now w) (graph w) Ht Hg) as [Hg' Hv].
  eexists _, _. split; [apply runQuery_connected; assumption|].
  rewrite Eg. split; [|split].
  - split; [split; [exact Hc1 | rewrite Eg; apply exec_texted, Ht] | exact Hg'].
  - eauto.
  - rewrite Hs. apply in_app_iff. right. left. reflexivity.
Qed.

Lemma steady_randomUUID (P : Graph -> Prop) :
  succeeds (fun w => steadyJs w /\ P (graph w)) randomUUID
           (fun _ v => steadyJs v /\ P (graph v)).
Proof. intros w H. eexists _, _. split; [reflexivity | exact H]. Qed.

Section OneWrite.
Variable userId exId : string.

Local Abbreviation Inv := (steadyWrite userId exId).

Lemma steadyWrite_split (w : World) :
  Inv w <-> steadyJs w /\ (nodeExists (LUser, userId) (graph w)
                           /\ nodeExists (LExtraction, exId) (graph w)).
Proof. unfold steadyWrite. tauto. Qed.

(** A statement that keeps the invariant and establishes [T]. *)
Lemma write_query (s : Stmt) (T : Graph -> Prop) :
  (forall t g, nodeExists (LUser, userId) g ->
               nodeExists (LExtraction, exId) g -> T (exec s t g).1) ->
  refused s = false ->
  succeeds Inv (runQuery s)
           (fun _ v => Inv v /\ T (graph v) /\ In s (sent v)).
Proof.
  intros HT Hr. eapply succeeds_weaken.
  - apply (steady_step s
             (fun g => nodeExists (LUser, userId) g
                       /\ nodeExists (LExtraction, exId) g)
             (fun g => (nodeExists (LUser, userId) g
                        /\ nodeExists (LExtraction, exId) g) /\ T g)
             (fun _ => True)); [|exact Hr].
    intros t g _ [U E]. split; [|exact I].
    split; [split; apply exec_keeps_node; assumption | apply HT; assumption].
  - intros w H. apply steadyWrite_split, H.
  - intros a w [[Hs [[U E] HTg]] [_ Hin]]. unfold steadyWrite. tauto.
Qed.

Lemma write_step (s : Stmt) (T : Graph -> Prop) :
  (forall t g, nodeExists (LUser, userId) g ->
               nodeExists (LExtraction, exId) g -> T (exec s t g).1) ->
  refused s = false ->
  succeeds Inv (runQuery s ;; ret tt)
           (fun _ v => Inv v /\ T (graph v) /\ In s (sent v)).
Proof.
  intros HT Hr. eapply succeeds_bind; [apply (write_query s T HT Hr)|].
  intros r. apply succeeds_ret. auto.
Qed.

Lemma write_keep (s : Stmt) :
  refused s = false ->
  succeeds Inv (runQuery s ;; ret tt) (fun _ v => Inv v).
Proof.
  intros Hr. eapply succeeds_weaken;
    [apply (write_step s (fun _ => True)); auto
    | auto | intros a v [H _]; exact H].
Qed.

Lemma write_checkRecord (newRuleId : string) (newRule : ExtractedStyleRule)
      (strategy : string) (record : Props) :
  hasRuleText record ->
  succeeds Inv (checkRecord newRuleId newRule exId strategy record)
           (fun _ v => Inv v).
Proof.
  intros (text & Et). unfold checkRecord. rewrite Et.
  destruct (Contradiction.detectSimpleContradiction _ _ _);
    [|apply succeeds_ret; auto].
  eapply (succeeds_bind _ _ (fun _ v => Inv v)).
  { eapply succeeds_weaken;
      [apply (steady_step _
                (fun g => nodeExists (LUser, userId) g
                          /\ nodeExists (LExtraction, exId) g)
                (fun g => nodeExists (LUser, userId) g
                          /\ nodeExists (LExtraction, exId) g)
                (fun _ => True)); [|reflexivity]
      | intros w H; apply steadyWrite_split, H
      | intros a w [H _]; apply steadyWrite_split, H].
    intros t g _ [U E]. split; [|exact I].
    split; apply exec_keeps_node; assumption. }
  intros r.
  destruct (_ && _); [apply write_keep; reflexivity|].
  destruct (String.eqb strategy "most-recent-wins");
    [apply write_keep; reflexivity | apply succeeds_ret; auto].
Qed.

Lemma write_detect (newRuleId : string) (newRule : ExtractedStyleRule)
      (strategy : string) :
  succeeds Inv
    (detectAndRecordContradictions userId newRuleId newRule exId strategy)
    (fun _ v => Inv v).
Proof.
  unfold detectAndRecordContradictions.
  eapply succeeds_bind.
  { eapply succeeds_weaken;
      [apply (steady_step (FindActiveRules userId (scopeName (sr_scope newRule)))
                (fun g => nodeExists (LUser, userId) g
                          /\ nodeExists (LExtraction, exId) g)
                (fun g => nodeExists (LUser, userId) g
                          /\ nodeExists (LExtraction, exId) g)
                (Forall hasRuleText)); [|reflexivity]
      | intros w H; apply steadyWrite_split, H
      | intros a w H; exact H].
    intros t g Ht [U E]. split; [split; assumption|].
    apply activeRules_texted, Ht. }
  intros r w [H [(rows & -> & Hrows) _]].
  apply steadyWrite_split in H. revert w H.
  eapply succeeds_weaken;
    [apply (succeeds_forEach Inv (fun _ _ => True))
    | auto | intros a v [Hs _]; exact Hs].
  - auto.
  - intros x. unfold checkRecord. grows_v2.
  - intros x Hx. eapply succeeds_weaken;
      [apply write_checkRecord | auto | intros a v Hv; split; [exact Hv | exact I]].
    exact (proj1 (List.Forall_forall _ _) Hrows x Hx).
Qed.

Lemma write_randomUUID : succeeds Inv randomUUID (fun _ v => Inv v).
Proof. intros w H. eexists _, _. split; [reflexivity | exact H]. Qed.

Lemma exec_mergeConcept (name : string) (t : nat) (g : Graph) :
  nodeExists (LExtraction, exId) g ->
  provenanced (LConcept, name) (exec (MergeConcept name exId) t g).1.
Proof.
  intros E. simpl. rewrite whenMatch_found by (apply mergeNode_exists; tauto).
  eapply created_provenanced; [left; reflexivity | apply graphGrows_refl].
Qed.

Lemma exec_insertRule (ruleId rule scope temporalMarker : string)
      (confidence : Q) (strict : bool) (t : nat) (g : Graph) :
  nodeExists (LUser, userId) g -> nodeExists (LExtraction, exId) g ->
  provenanced (LStyleRule, ruleId)
    (exec (InsertRule ruleId rule scope temporalMarker confidence strict
                      userId exId) t g).1.
Proof.
  intros U E. simpl.
  rewrite whenMatch_found by (apply mergeNode_exists; tauto).
  rewrite whenMatch_found.
  - eapply created_provenanced; [left; reflexivity | apply graphGrows_refl].
  - unfold nodeExists. rewrite mergeEdge_nodes.
    apply mergeNode_exists. left. exact E.
Qed.

Lemma ruleStored_grows (rule : ExtractedStyleRule) (w w1 : World) :
  ruleStored userId rule w -> worldGrows w w1 -> ruleStored userId rule w1.
Proof.
  intros (x & i & Hin & Hp) Hg. exists x, i. split.
  - destruct Hg as (_ & _ & _ & _ & _ & (more & ->) & _).
    apply in_app_iff. left. exact Hin.
  - eapply provenanced_worldGrows; eassumption.
Qed.

Lemma write_writeRule (params : WriteToGraphParams) (config : GraphDBConfig)
      (rule : ExtractedStyleRule) :
  p_userId params = userId ->
  succeeds Inv (writeRule params exId config rule)
           (fun _ v => Inv v /\ ruleStored userId rule v).
Proof.
  intros Eu. unfold writeRule. rewrite Eu.
  eapply succeeds_bind; [apply write_randomUUID|]. intros ruleId.
  eapply succeeds_bind; [apply write_detect|]. intros u.
  eapply succeeds_weaken;
    [apply (write_step _ (provenanced (LStyleRule, ruleId)));
       [|reflexivity] | auto |].
  - intros t g U E. apply exec_insertRule; assumption.
  - intros a v (Hv & Hp & Hin). split; [exact Hv|].
    exists exId, ruleId. split; [exact Hin | exact Hp].
Qed.

Lemma write_entity (artifactId : option string) (entity : ExtractedEntity) :
  succeeds Inv
    (runQuery (MergeConcept (ent_name entity) exId) ;;
     match artifactId with
     | Some a => runQuery (LinkMention a (ent_name entity)) ;; ret tt
     | None => ret tt
     end)
    (fun _ v => Inv v /\ provenanced (LConcept, ent_name entity) (graph v)).
Proof.
  eapply succeeds_bind.
  { eapply succeeds_weaken;
      [apply (write_query _ (provenanced (LConcept, ent_name entity)));
         [|reflexivity]
      | auto | intros a v H; exact H].
    intros t g _ E. apply exec_mergeConcept, E. }
  intros r. destruct artifactId as [a|].
  - eapply succeeds_weaken.
    + apply (succeeds_frame _ _ _
               (fun v => provenanced (LConcept, ent_name entity) (graph v))
               (write_keep (LinkMention a (ent_name entity)) eq_refl)).
      * grows_v2.
      * intros v v1. apply provenanced_worldGrows.
    + intros v (Hv & Hp & _). split; assumption.
    + intros u v H. exact H.
  - apply succeeds_ret. intros v (Hv & Hp & _). split; assumption.
Qed.

End OneWrite.

Lemma write_ensureSessionArtifactNodes (params : WriteToGraphParams) :
  succeeds steadyJs (ensureSessionArtifactNodes params)
    (fun _ v => steadyJs v /\ nodeExists (LUser, p_userId params) (graph v)).
Proof.
  unfold ensureSessionArtifactNodes.
  assert (K : forall s, refused s = false ->
    succeeds (fun w => steadyJs w /\ nodeExists (LUser, p_userId params) (graph w))
      (runQuery s)
      (fun _ v => steadyJs v /\ nodeExists (LUser, p_userId params) (graph v))).
  { intros s Hr. eapply succeeds_weaken;
      [apply (steady_step s (nodeExists (LUser, p_userId params))
                (nodeExists (LUser, p_userId params)) (fun _ => True));
         [|exact Hr]
      | auto | intros a v [H _]; exact H].
    intros t g _ U. split; [apply exec_keeps_node, U | exact I]. }
  eapply succeeds_bind.
  { eapply succeeds_weaken;
      [apply (steady_step (MergeUser (p_userId params)) (fun _ => True)
                (nodeExists (LUser, p_userId params)) (fun _ => True));
         [|reflexivity]
      | intros w H; split; [exact H | exact I]
      | intros a v [H _]; exact H].
    intros t g _ _. split; [|exact I]. simpl.
    apply mergeNode_exists. right. reflexivity. }
  intros r1. eapply succeeds_bind; [apply K; reflexivity|]. intros r2.
  destruct (WriteToGraph.present (p_artifactId params)).
  - eapply succeeds_bind; [apply K; reflexivity|]. intros r3.
    apply succeeds_ret. auto.
  - apply succeeds_ret. auto.
Qed.

Lemma write_writeExtractionToGraph (params : WriteToGraphParams)
      (extraction : ExtractionResult) :
  succeeds (fun w => steadyJs w /\ nodeExists (LUser, p_userId params) (graph w))
    (writeExtractionToGraph params extraction)
    (fun _ v =>
       steadyJs v
       /\ (forall e, In e (ex_entities extraction) ->
             provenanced (LConcept, ent_name e) (graph v))
       /\ (forall r, In r (ex_styleRules extraction) ->
             ruleStored (p_userId params) r v)).
Proof.
  unfold writeExtractionToGraph.
  eapply succeeds_bind; [apply steady_randomUUID|]. intros exId.
  set (Inv := steadyWrite (p_userId params) exId).
  set (T1 := fun v : World =>
               forall e, In e (ex_entities extraction) ->
                 provenanced (LConcept, ent_name e) (graph v)).
  assert (S1 : forall w w1, T1 w -> worldGrows w w1 -> T1 w1).
  { intros v v1 Hv Hg e He.
    eapply provenanced_worldGrows; [apply Hv, He | exact Hg]. }
  eapply (succeeds_bind _ _ (fun _ v => Inv v)).
  { eapply succeeds_weaken;
      [apply (steady_step _ (nodeExists (LUser, p_userId params))
                (fun g => nodeExists (LUser, p_userId params) g
                          /\ nodeExists (LExtraction, exId) g)
                (fun _ => True)); [|reflexivity]
      | auto | intros a v [H _]; apply steadyWrite_split, H].
    intros t g _ U. split; [|exact I].
    split; [apply exec_keeps_node, U|]. simpl.
    apply mergeNode_exists. right. reflexivity. }
  intros r1.
  eapply (succeeds_bind _ _ (fun _ v => Inv v)).
  { eapply succeeds_weaken;
      [apply (write_query (p_userId params) exId _ (fun _ => True)); auto
      | auto | intros a v [H _]; exact H]. }
  intros r2.
  eapply (succeeds_bind _ _ (fun _ v => Inv v)).
  { destruct (WriteToGraph.present (p_artifactId params));
      [apply (write_keep (p_userId params) exId); reflexivity
      | apply succeeds_ret; auto]. }
  intros u3.
  eapply (succeeds_bind _ _ (fun _ v => Inv v /\ T1 v)).
  { apply (succeeds_forEach Inv
             (fun e v => provenanced (LConcept, ent_name e) (graph v))).
    - intros x v v1. apply provenanced_worldGrows.
    - intros x. grows_v2.
    - intros x _. apply (write_entity (p_userId params) exId). }
  intros u4.
  eapply (succeeds_bind _ _ (fun _ v => Inv v /\ T1 v)).
  { apply succeeds_frame; [| grows_v2 | exact S1].
    eapply succeeds_weaken;
      [apply (succeeds_forEach Inv (fun _ _ => True))
      | auto | intros a v [Hs _]; exact Hs].
    - auto.
    - intros x. grows_v2.
    - intros x _. eapply succeeds_weaken;
        [apply (write_keep (p_userId params) exId); reflexivity
        | auto | intros a v Hv; split; [exact Hv | exact I]]. }
  intros u5.
  eapply (succeeds_bind _ _ (fun _ v => Inv v /\ T1 v)).
  { intros w H. exists w, w. split; [reflexivity | exact H]. }
  intros w0.
  eapply succeeds_weaken.
  - apply (succeeds_frame _ _ _ T1
             (succeeds_forEach Inv
                (fun r v => ruleStored (p_userId params) r v)
                (ex_styleRules extraction)
                (writeRule params exId (getGraphDBConfig w0))
                (fun x v v1 => ruleStored_grows (p_userId params) x v v1)
                (fun x => ltac:(unfold writeRule, detectAndRecordContradictions,
                                  checkRecord; grows_v2))
                (fun x _ => write_writeRule (p_userId params) exId params
                              (getGraphDBConfig w0) x eq_refl))).
    + unfold writeRule, detectAndRecordContradictions, checkRecord. grows_v2.
    + exact S1.
  - auto.
  - intros a v [[Hv H3] H1]. destruct Hv as [Hv _]. tauto.
Qed.

Lemma nothing_to_write {A B} (l : list A) (l' : list B) :
  (length l =? 0) && (length l' =? 0) = true -> l = [] /\ l' = [].
Proof. destruct l, l'; simpl; intros H; try discriminate H. tauto. Qed.

Lemma extractAndWriteToGraph_steady (params : WriteToGraphParams) (w : World) :
  steadyJs w ->
  exists w1,
    extractAndWriteToGraph params w = (Ok tt, w1)
    /\ steadyJs w1
    /\ nodeExists (LUser, p_userId params) (graph w1)
    /\ (forall e, In e (ex_entities (Extractor.extractFromMessages params)) ->
          provenanced (LConcept, ent_name e) (graph w1))
    /\ (forall r, In r (ex_styleRules (Extractor.extractFromMessages params)) ->
          ruleStored (p_userId params) r w1).
Proof.
  intros H.
  set (extraction := Extractor.extractFromMessages params).
  assert (B : succeeds steadyJs
                (ensureSessionArtifactNodes params ;;
                 if (length (ex_entities extraction) =? 0)
                    && (length (ex_styleRules extraction) =? 0)
                 then ret tt
                 else writeExtractionToGraph params extraction)
                (fun _ v =>
                   steadyJs v
                   /\ nodeExists (LUser, p_userId params) (graph v)
                   /\ (forall e, In e (ex_entities extraction) ->
                         provenanced (LConcept, ent_name e) (graph v))
                   /\ (forall r, In r (ex_styleRules extraction) ->
                         ruleStored (p_userId params) r v))).
  { eapply succeeds_bind; [apply write_ensureSessionArtifactNodes|].
    intros u. destruct (_ && _) eqn:C.
    - apply nothing_to_write in C as [-> ->].
      apply succeeds_ret. intros v [Hv U].
      split; [exact Hv|]. split; [exact U|]. split; intros x [].
    - eapply succeeds_weaken.
      + apply (succeeds_frame _ _ _
                 (fun v => nodeExists (LUser, p_userId params) (graph v))
                 (write_writeExtractionToGraph params extraction)).
        * unfold writeExtractionToGraph, writeRule,
            detectAndRecordContradictions, checkRecord. grows_v2.
        * intros v v1 U (_ & _ & _ & _ & Hg & _).
          eapply nodeExists_grows; eassumption.
      + intros v [Hv U]. tauto.
      + intros a v [(Hv & H1 & H3) U]. tauto. }
  destruct (B w H) as (u & w1 & E & R). destruct u.
  exists w1. split; [|exact R].
  destruct H as [(Hm & _) _].
  unfold extractAndWriteToGraph. unfold bind at 1, get.
  rewrite (proj2 (String.eqb_neq _ _) Hm).
  unfold tryCatch. fold extraction. rewrite E. reflexivity.
Qed.

(** X22: when the client of [graphdb.js] holds a driver over a store
    that accepts every statement, and every active rule of the graph has
    its text, [extractAndWriteToGraph] returns normally; afterwards the
    User node exists, every extracted entity has a provenance pointer
    from an Extraction node, and for every extracted style rule the
    statement that inserts it has been sent and the rule node it names
    has a provenance pointer. *)
Theorem extractAndWriteToGraph_healthy_provenance
        (params : WriteToGraphParams) (w : World) :
  connected w -> texted (graph w) ->
  exists w1,
    extractAndWriteToGraph params w = (Ok tt, w1)
    /\ matchNode (LUser, p_userId params) (graph w1) = true
    /\ (forall e, In e (ex_entities (Extractor.extractFromMessages params)) ->
          hasProvenance (graph w1) (LConcept, ent_name e) = true)
    /\ (forall r, In r (ex_styleRules (Extractor.extractFromMessages params)) ->
          ruleStored (p_userId params) r w1).
Proof.
  intros Hc Ht.
  destruct (extractAndWriteToGraph_steady params w (conj Hc Ht))
    as (w1 & E & _ & U & H1 & H3).
  exists w1. split; [exact E|]. split; [|split; assumption].
  apply bool_decide_eq_true. exact U.
Qed.

Lemma extractAndWriteToGraph_healthy_provenance_witness :
  connected (connectedWorld "most-recent-wins")
  /\ texted (graph (connectedWorld "most-recent-wins"))
  /\ exists w1,
       extractAndWriteToGraph formalAtlas (connectedWorld "most-recent-wins")
       = (Ok tt, w1)
       /\ matchNode (LUser, p_userId formalAtlas) (graph w1) = true
       /\ (forall e,
             In e (ex_entities (Extractor.extractFromMessages formalAtlas)) ->
             hasProvenance (graph w1) (LConcept, ent_name e) = true)
       /\ (forall r,
             In r (ex_styleRules (Extractor.extractFromMessages formalAtlas)) ->
             ruleStored (p_userId formalAtlas) r w1).
Proof.
  assert (Hc : connected (connectedWorld "most-recent-wins")).
  { split; [vm_compute; discriminate|].
    split; [reflexivity | intros n; reflexivity]. }
  split; [exact Hc|]. split; [exact texted_empty|].
  apply (extractAndWriteToGraph_healthy_provenance formalAtlas _ Hc texted_empty).
Defined.

End SteadyWriteFacts.
